(** * Code-metrics analyzer and evolution store of src/index.ts

    A shallow embedding of [analyzeCodeComplexity], [generateRecommendations]
    and of the three [/evolution/*] handlers, together with the library
    functions of JavaScript they call ([String.prototype.split], [trim],
    [startsWith], [includes], [String.prototype.match] with a global regular
    expression, [Math.max], [Math.round], [Array.prototype.sort],
    [Object.entries]). *)

From Stdlib Require Import List ZArith NArith QArith Qround Lia Lqa Bool.
From Stdlib Require Import String Ascii Permutation Sorted.
From Stdlib Require Import Floats.SpecFloat.
Import ListNotations.

Local Open Scope Z_scope.

(* ================================================================== *)
(** ** JavaScript strings and the string functions the analyzer calls *)
(* ================================================================== *)

Module JS.

(** A JavaScript string is a finite sequence of UTF-16 code units. *)
Definition jsstring := list N.

(** Source literals are ASCII: one code unit per character. *)
Definition lit (s : string) : jsstring :=
  List.map N_of_ascii (list_ascii_of_string s).

Definition jsstring_eq_dec : forall a b : jsstring, {a = b} + {a <> b} :=
  list_eq_dec N.eq_dec.

Definition jsstring_eqb (a b : jsstring) : bool :=
  if jsstring_eq_dec a b then true else false.

(** ECMAScript WhiteSpace and LineTerminator code points: what [trim]
    strips and what [\s] matches. *)
Definition isWhiteSpace (c : N) : bool :=
  ((c =? 9) || (c =? 10) || (c =? 11) || (c =? 12) || (c =? 13) || (c =? 32)
   || (c =? 160) || (c =? 5760)
   || ((8192 <=? c) && (c <=? 8202))
   || (c =? 8232) || (c =? 8233) || (c =? 8239) || (c =? 8287)
   || (c =? 12288) || (c =? 65279))%N.

(** [\w] without the [i] and [u] flags: [A-Za-z0-9_]. *)
Definition isWordChar (c : N) : bool :=
  (((65 <=? c) && (c <=? 90)) || ((97 <=? c) && (c <=? 122))
   || ((48 <=? c) && (c <=? 57)) || (c =? 95))%N.

Fixpoint dropWhile (p : N -> bool) (s : jsstring) : jsstring :=
  match s with
  | [] => []
  | c :: s' => if p c then dropWhile p s' else s
  end.

(** [String.prototype.trim]. *)
Definition trim (s : jsstring) : jsstring :=
  rev (dropWhile isWhiteSpace (rev (dropWhile isWhiteSpace s))).

(** [String.prototype.startsWith] at position 0. *)
Fixpoint startsWith (p s : jsstring) : bool :=
  match p, s with
  | [], _ => true
  | _ :: _, [] => false
  | a :: p', b :: s' => (a =? b)%N && startsWith p' s'
  end.

(** [String.prototype.includes]: the needle starts at some position. *)
Fixpoint includes (needle s : jsstring) : bool :=
  startsWith needle s ||
  match s with
  | [] => false
  | _ :: s' => includes needle s'
  end.

(** Number of positions of [s] at which [needle] starts.  Not a function of
    the source: it is what "how many times a sink occurs" means. *)
Fixpoint occurrences (needle s : jsstring) : nat :=
  ((if startsWith needle s then 1 else 0) +
   match s with
   | [] => 0
   | _ :: s' => occurrences needle s'
   end)%nat.

(** [code.split('\n')]: the pieces between line feeds; never empty. *)
Fixpoint split_lines (s : jsstring) : list jsstring :=
  match s with
  | [] => [[]]
  | c :: s' =>
      if (c =? 10)%N then [] :: split_lines s'
      else match split_lines s' with
           | l :: ls => (c :: l) :: ls
           | [] => [[c]]
           end
  end.

(** *** Regular expressions

    The patterns of the source use literal characters, the classes [\s] and
    [\w], concatenation, alternation and the greedy quantifiers [*] and [+]
    applied to a class.  Matching follows the continuation semantics of the
    ECMAScript specification: alternatives are tried left to right, a greedy
    quantifier takes as many characters as it can and gives them back one by
    one when the rest of the pattern fails. *)
Inductive regex : Type :=
| Chr (c : N)
| Cls (p : N -> bool)
| Seq (r1 r2 : regex)
| Alt (r1 r2 : regex)
| Star (p : N -> bool).

Definition Plus (p : N -> bool) : regex := Seq (Cls p) (Star p).

Definition Str (s : string) : regex :=
  match lit s with
  | [] => Star (fun _ => false)
  | c :: cs => fold_left (fun r d => Seq r (Chr d)) cs (Chr c)
  end.

Infix ">>" := Seq (at level 40, left associativity).
Infix "|||" := Alt (at level 50, left associativity).

Definition cont := jsstring -> option jsstring.

Fixpoint star (p : N -> bool) (k : cont) (s : jsstring) : option jsstring :=
  match s with
  | c :: s' =>
      if p c then
        match star p k s' with
        | Some r => Some r
        | None => k s
        end
      else k s
  | [] => k s
  end.

(** [re_match r k s]: match [r] at the start of [s], then the continuation
    [k] on what is left; the result is the text after the whole match. *)
Fixpoint re_match (r : regex) (k : cont) (s : jsstring) : option jsstring :=
  match r with
  | Chr c =>
      match s with
      | d :: s' => if (c =? d)%N then k s' else None
      | [] => None
      end
  | Cls p =>
      match s with
      | d :: s' => if p d then k s' else None
      | [] => None
      end
  | Seq r1 r2 => re_match r1 (re_match r2 k) s
  | Alt r1 r2 =>
      match re_match r1 k s with
      | Some x => Some x
      | None => re_match r2 k s
      end
  | Star p => star p k s
  end.

(** One attempt of the pattern at the current position. *)
Definition exec_at (r : regex) (s : jsstring) : option jsstring :=
  re_match r (fun rest => Some rest) s.

(** [(s.match(/r/g) || []).length].  The scan keeps [lastIndex] as the number
    [skip] of characters still covered by the previous match; after an empty
    match [lastIndex] moves on by one. *)
Fixpoint match_count (r : regex) (skip : nat) (s : jsstring) : nat :=
  match s with
  | [] =>
      match skip, exec_at r [] with
      | O, Some _ => 1
      | _, _ => 0
      end
  | _ :: s' =>
      match skip with
      | S n => match_count r n s'
      | O =>
          match exec_at r s with
          | Some rest =>
              S (match_count r (Nat.pred (List.length s - List.length rest)) s')
          | None => match_count r 0 s'
          end
      end
  end.

Definition matches (r : regex) (s : jsstring) : Z :=
  Z.of_nat (match_count r 0 s).

(** *** Numbers

    The analyzer's scores are computed on rationals.  Every operand of the
    two score formulas is a multiple of 1/10 below 2^53, the only inexact
    binary64 product is [totalLines * 0.1], and that product is exact
    whenever the true value is a multiple of 1/2 (0.1 is 1/10 * (1 + 2^-54)
    as a double, less than half a unit in the last place away); so the
    comparison with 0 and the rounding agree with the exact ones. *)
Definition Math_max (a b : Q) : Q :=
  if Qle_bool a b then b else a.

(** [Math.round]: the nearest integer, halves towards +infinity. *)
Definition Math_round (x : Q) : Z := Qfloor (x + (1 # 2)).

(** binary64 for the one quotient that is not exact in general. *)
Definition b64_of_Z (z : Z) : spec_float := binary_normalize 53 1024 z 0 false.
Definition b64_div : spec_float -> spec_float -> spec_float := SFdiv 53 1024.
Definition b64_mul : spec_float -> spec_float -> spec_float := SFmul 53 1024.
Definition b64_sub : spec_float -> spec_float -> spec_float := SFsub 53 1024.

Definition b64_to_Q (f : spec_float) : Q :=
  match f with
  | S754_finite s m e =>
      let v := if 0 <=? e then inject_Z (Zpos m * 2 ^ e)
               else Zpos m # Z.to_pos (2 ^ (- e)) in
      if s then Qopp v else v
  | _ => 0%Q
  end.

End JS.

(* ================================================================== *)
(** ** The metrics analyzer: [analyzeCodeComplexity]                   *)
(* ================================================================== *)

Module Analyzer.
Import JS.

Record Metrics : Type := {
  totalLines : Z;
  nonEmptyLines : Z;
  commentLines : Z;
  functionCount : Z;
  complexityScore : Z;
  maintainabilityIndex : Z;
  performanceScore : Z;
  codeToCommentRatio : Z
}.

Record Complexity : Type := {
  ifStatements : Z;
  forLoops : Z;
  whileLoops : Z;
  switchStatements : Z;
  tryCatchBlocks : Z
}.

Record Security : Type := {
  issues : list jsstring;
  score : Z
}.

Record AnalysisResult : Type := {
  metrics : Metrics;
  complexity : Complexity;
  security : Security;
  recommendations : list jsstring
}.

Definition ws : regex := Star isWhiteSpace.
Definition ws1 : regex := Plus isWhiteSpace.
Definition word1 : regex := Plus isWordChar.

(** [/function\s+\w+|const\s+\w+\s*=\s*\(|=>\s*{|class\s+\w+/g] *)
Definition functionPattern : regex :=
  (Str "function" >> ws1 >> word1)
  ||| (Str "const" >> ws1 >> word1 >> ws >> Chr 61 >> ws >> Chr 40)
  ||| (Str "=>" >> ws >> Chr 123)
  ||| (Str "class" >> ws1 >> word1).

(** [/if\s*\(/g], [/for\s*\(/g], [/while\s*\(/g], [/switch\s*\(/g] *)
Definition ifPattern : regex := Str "if" >> ws >> Chr 40.
Definition forPattern : regex := Str "for" >> ws >> Chr 40.
Definition whilePattern : regex := Str "while" >> ws >> Chr 40.
Definition switchPattern : regex := Str "switch" >> ws >> Chr 40.

(** [/try\s*{|catch\s*\(/g] *)
Definition tryCatchPattern : regex :=
  (Str "try" >> ws >> Chr 123) ||| (Str "catch" >> ws >> Chr 40).

Definition count_lines (f : jsstring -> bool) (lines : list jsstring) : Z :=
  Z.of_nat (List.length (filter f lines)).

Definition isNonEmptyLine (line : jsstring) : bool :=
  (0 <? List.length (trim line))%nat.

Definition isCommentLine (line : jsstring) : bool :=
  startsWith (lit "//") (trim line)
  || startsWith (lit "/*") (trim line)
  || startsWith (lit "*") (trim line).

(** [Array.prototype.push] under a condition. *)
Definition push_if {A : Type} (b : bool) (x : A) (l : list A) : list A :=
  if b then l ++ [x] else l.

Definition generateRecommendations (complexityScore : Z)
    (maintainabilityIndex performanceScore : Q)
    (securityIssues : list jsstring) : list jsstring :=
  let recommendations := [] in
  let recommendations :=
    push_if (20 <? complexityScore)
      (lit "Consider breaking down complex functions into smaller, more manageable pieces")
      recommendations in
  let recommendations :=
    push_if (negb (Qle_bool 50 maintainabilityIndex))
      (lit "Code maintainability is low. Consider refactoring and adding more comments")
      recommendations in
  let recommendations :=
    push_if (negb (Qle_bool 70 performanceScore))
      (lit "Performance could be improved. Consider optimizing loops and reducing nested conditions")
      recommendations in
  let recommendations :=
    push_if (0 <? List.length securityIssues)%nat
      (lit "Security issues detected. Review and fix security vulnerabilities")
      recommendations in
  let recommendations :=
    push_if (List.length recommendations =? 0)%nat
      (lit "Code quality looks good! Keep up the good practices")
      recommendations in
  recommendations.

(** [Math.round((commentLines / nonEmptyLines) * 100)], in binary64: the
    quotient is rounded before it is scaled. *)
Definition ratio (commentLines nonEmptyLines : Z) : Z :=
  Math_round
    (b64_to_Q
       (b64_mul (b64_div (b64_of_Z commentLines) (b64_of_Z nonEmptyLines))
                (b64_of_Z 100))).

Definition analyzeCodeComplexity (code : jsstring) : AnalysisResult :=
  let lines := split_lines code in
  let totalLines := Z.of_nat (List.length lines) in
  let nonEmptyLines := count_lines isNonEmptyLine lines in
  let commentLines := count_lines isCommentLine lines in
  let functionCount := matches functionPattern code in
  let ifStatements := matches ifPattern code in
  let forLoops := matches forPattern code in
  let whileLoops := matches whilePattern code in
  let switchStatements := matches switchPattern code in
  let tryCatchBlocks := matches tryCatchPattern code in
  let complexityScore :=
    ifStatements + forLoops * 2 + whileLoops * 2 + switchStatements * 3
    + tryCatchBlocks * 2 in
  let maintainabilityIndex :=
    Math_max 0 (100 - inject_Z complexityScore * 2
                - inject_Z functionCount * 1.5
                - inject_Z totalLines * 0.1)%Q in
  let performanceScore :=
    Math_max 0 (100 - inject_Z forLoops * 5 - inject_Z whileLoops * 5
                - inject_Z ifStatements * 2)%Q in
  let securityIssues := [] in
  let securityIssues :=
    push_if (includes (lit "eval(") code)
            (lit "eval() usage detected") securityIssues in
  let securityIssues :=
    push_if (includes (lit "innerHTML") code)
            (lit "innerHTML usage detected") securityIssues in
  let securityIssues :=
    push_if (includes (lit "document.write") code)
            (lit "document.write usage detected") securityIssues in
  {| metrics :=
       {| totalLines := totalLines;
          nonEmptyLines := nonEmptyLines;
          commentLines := commentLines;
          functionCount := functionCount;
          complexityScore := complexityScore;
          maintainabilityIndex := Math_round maintainabilityIndex;
          performanceScore := Math_round performanceScore;
          codeToCommentRatio :=
            if 0 <? nonEmptyLines then ratio commentLines nonEmptyLines
            else 0 |};
     complexity :=
       {| ifStatements := ifStatements;
          forLoops := forLoops;
          whileLoops := whileLoops;
          switchStatements := switchStatements;
          tryCatchBlocks := tryCatchBlocks |};
     security :=
       {| issues := securityIssues;
          score := Z.max 0 (100 - Z.of_nat (List.length securityIssues) * 20) |};
     recommendations :=
       generateRecommendations complexityScore maintainabilityIndex
         performanceScore securityIssues |}.

(** The sink catalog of the security scan: the literal searched for and the
    entry it adds to [issues]. *)
Definition catalog : list (jsstring * jsstring) :=
  [ (lit "eval(", lit "eval() usage detected");
    (lit "innerHTML", lit "innerHTML usage detected");
    (lit "document.write", lit "document.write usage detected") ].

(** The specification's [clamp(lo, hi, x)]. *)
Definition clamp (lo hi x : Z) : Z := Z.max lo (Z.min hi x).

(** The specification's formula for the maintainability index. *)
Definition spec_maintainabilityIndex (complexityScore functionCount totalLines : Z) : Z :=
  clamp 0 100
    (Math_round (100 - 2 * inject_Z complexityScore
                 - 1.5 * inject_Z functionCount
                 - 0.1 * inject_Z totalLines)%Q).

(** The maintainability formula evaluated in binary64, operation by
    operation, to compare with the rational one on sample values. *)
Definition maintainability_b64 (complexityScore functionCount totalLines : Z) : Z :=
  let x :=
    b64_sub
      (b64_sub
         (b64_sub (b64_of_Z 100) (b64_mul (b64_of_Z complexityScore) (b64_of_Z 2)))
         (b64_mul (b64_of_Z functionCount) (b64_div (b64_of_Z 3) (b64_of_Z 2))))
      (b64_mul (b64_of_Z totalLines) (b64_div (b64_of_Z 1) (b64_of_Z 10))) in
  Math_round (Math_max 0 (b64_to_Q x)).

Definition maintainability_Q (complexityScore functionCount totalLines : Z) : Z :=
  Math_round
    (Math_max 0 (100 - inject_Z complexityScore * 2
                 - inject_Z functionCount * 1.5
                 - inject_Z totalLines * 0.1)%Q).

(** A small program, one line of thousands of branching keywords, and one
    very long line, to run the analyzer on. *)
Definition sample_program : jsstring :=
  lit "function foo(a) { if (a) { for (;;) { eval(a) } } }
// c
const f = (x) => { try { } catch (e) { } }
class A {}".

Definition many_branches : jsstring :=
  List.concat (repeat (lit "if(x) for (;;) while (y) ") 100).

Definition long_line : jsstring := repeat 120%N 1000.

(** Counts on which the binary64 and the rational formula are compared:
    they include every line count up to 120, so every multiple of 1/2. *)
Definition b64_samples : list (Z * Z * Z) :=
  flat_map
    (fun c =>
       flat_map
         (fun f => List.map (fun l => (c, f, Z.of_nat l)) (seq 1 120))
         [0; 1; 2])
    [0; 7].

End Analyzer.

(* ================================================================== *)
(** ** The evolution store and the [/evolution/*] handlers             *)
(* ================================================================== *)

Module Evolution.
Import JS.

(** The fields of [snap.metrics] the handlers read. *)
Record SnapMetrics : Type := {
  maintainabilityIndex : Z;
  complexityScore : Z;
  securityScore : option Z
}.

(** A value in the place of [repo] or [file].  The handlers take these
    fields as [express.json()] and [JSON.parse] give them, without a test of
    their type: a string, or a value of another type.  Of a value that is
    not a string the handlers use three things: whether it is truthy; that
    [===] never finds it equal to a string of the query; and the property
    name it converts to in [byFile[snap.file]].  [NotStr key] is a truthy
    value that is not a string (a number other than 0, [true], an array, an
    object), [key] being that property name: [123] for the number 123, the
    empty name for [[]], [[object Object]] for [{}]; [key] is [None] when
    the conversion throws, as for an object with an own property
    [toString].  A falsy value that is not a string ([null], [false], [0])
    reads as [None], like [undefined]: the handlers only test it. *)
Inductive jsvalue : Type :=
| Str (s : jsstring)
| NotStr (key : option jsstring).

(** One element of the stored array: [{ repo, commit, timestamp, metrics,
    file }].  A key whose value is [undefined] is dropped by
    [JSON.stringify] and reads back as [undefined]: [None].  [record]
    stores a truthy [repo] only; a stored [repo] that is falsy stands as
    the empty string: no query finds it, an empty [repo] being answered
    400.  The scores and the timestamp are integers, as the analyzer and
    [Date.now()] give them. *)
Record Snapshot : Type := {
  repo : jsvalue;
  commit : option jsstring;
  timestamp : Z;
  metrics : SnapMetrics;
  file : option jsvalue
}.

Definition jsvalue_eq_dec (a b : jsvalue) : {a = b} + {a <> b}.
Proof.
  decide equality.
  - apply jsstring_eq_dec.
  - decide equality. apply jsstring_eq_dec.
Defined.

Definition SnapMetrics_eq_dec (a b : SnapMetrics) : {a = b} + {a <> b}.
Proof.
  decide equality.
  - decide equality. apply Z.eq_dec.
  - apply Z.eq_dec.
  - apply Z.eq_dec.
Defined.

Definition Snapshot_eq_dec (a b : Snapshot) : {a = b} + {a <> b}.
Proof.
  decide equality.
  - decide equality. apply jsvalue_eq_dec.
  - apply SnapMetrics_eq_dec.
  - apply Z.eq_dec.
  - decide equality. apply jsstring_eq_dec.
  - apply jsvalue_eq_dec.
Defined.

(** The body of [POST /evolution/record] after [express.json()]. *)
Record RecordBody : Type := {
  body_repo : option jsvalue;
  body_commit : option jsstring;
  body_timestamp : option Z;
  body_metrics : option SnapMetrics;
  body_file : option jsvalue
}.

(** JavaScript truthiness of the values the handlers test. *)
Definition truthy_string (o : option jsstring) : bool :=
  match o with
  | Some (_ :: _) => true
  | _ => false
  end.

Definition truthy (o : option jsvalue) : bool :=
  match o with
  | Some (Str (_ :: _)) => true
  | Some (NotStr _) => true
  | _ => false
  end.

(** [v === s] for a string [s] of the query: strict equality holds for an
    equal string only. *)
Definition strict_eqb (v : jsvalue) (s : jsstring) : bool :=
  match v with
  | Str s' => jsstring_eqb s' s
  | NotStr _ => false
  end.

(** The property name [o[v]] uses, [None] when the conversion throws. *)
Definition property_key (v : jsvalue) : option jsstring :=
  match v with
  | Str s => Some s
  | NotStr key => key
  end.

Definition truthy_number (o : option Z) : bool :=
  match o with
  | Some n => negb (n =? 0)
  | None => false
  end.

Definition truthy_object {A : Type} (o : option A) : bool :=
  match o with
  | Some _ => true
  | None => false
  end.

(** [a || b] on numbers. *)
Definition or_number (a : option Z) (b : Z) : Z :=
  match a with
  | Some n => if n =? 0 then b else n
  | None => b
  end.

(** *** Subtraction

    The scores and timestamps of a snapshot are integers, and JavaScript
    subtracts them as binary64 numbers: the exact difference is rounded to
    53 significant bits, a tie going to the even significand, and is an
    infinity when the rounded value reaches 2^1024. *)
Inductive number : Type :=
| Num (n : Z)
| Infinity
| NegInfinity
| NaN.

Definition round53 (z : Z) : Z :=
  let a := Z.abs z in
  let e := Z.log2 a - 52 in
  if e <=? 0 then z
  else
    let q := a / 2 ^ e in
    let r := a mod 2 ^ e in
    let half := 2 ^ (e - 1) in
    let q' :=
      if r <? half then q
      else if half <? r then q + 1
      else if Z.even q then q else q + 1 in
    Z.sgn z * (q' * 2 ^ e).

Definition binary64 (z : Z) : number :=
  let r := round53 z in
  if 2 ^ 1024 <=? r then Infinity
  else if r <=? - 2 ^ 1024 then NegInfinity
  else Num r.

(** [a - b] *)
Definition Number_sub (a b : number) : number :=
  match a, b with
  | NaN, _ | _, NaN => NaN
  | Num x, Num y => binary64 (x - y)
  | Infinity, Infinity | NegInfinity, NegInfinity => NaN
  | Infinity, _ | _, NegInfinity => Infinity
  | NegInfinity, _ | _, Infinity => NegInfinity
  end.

(** [x || 0] *)
Definition or_zero_number (x : number) : number :=
  match x with
  | NaN => Num 0
  | _ => x
  end.

(** What [Array.prototype.sort] reads from the result of a comparator: its
    sign, [NaN] counting as 0. *)
Definition sign (x : number) : Z :=
  match x with
  | Num n => Z.sgn n
  | Infinity => 1
  | NegInfinity => -1
  | NaN => 0
  end.

(** Integers of a size at which every difference of two of them is a
    binary64 number: at most 2^52 in absolute value. *)
Definition small (n : Z) : Prop := Z.abs n <= 2 ^ 52.

(** The order of the numbers, [NaN] standing where [x || 0] puts it. *)
Definition number_le (x y : number) : Prop :=
  match or_zero_number x, or_zero_number y with
  | NegInfinity, _ => True
  | _, Infinity => True
  | Num a, Num b => a <= b
  | _, _ => False
  end.

(** *** The file system

    A file holds either the text [JSON.stringify(data, null, 2)] of a
    snapshot array, which [JSON.parse] reads back as [data], or a text cut
    short, which [JSON.parse] rejects. *)
Inductive file_content : Type :=
| Intact (data : list Snapshot)
| Torn.

Definition disk := jsstring -> option file_content.

Definition write_file (p : jsstring) (c : file_content) (d : disk) : disk :=
  fun q => if jsstring_eqb q p then Some c else d q.

Definition empty_disk : disk := fun _ => None.

Inductive fs_call : Type :=
| ExistsSync (p : jsstring)
| ReadFileSync (p : jsstring)
| WriteFileSync (p : jsstring) (data : list Snapshot)
| RenameSync (src dst : jsstring).

Inductive exn : Type :=
| ENOENT
| SyntaxError
| TypeError.

(** The state a handler runs in: the files, and the [fs] calls made so far. *)
Record world : Type := {
  files : disk;
  calls : list fs_call
}.

Definition M (A : Type) : Type := world -> (exn + A) * world.

Definition ret {A : Type} (a : A) : M A := fun w => (inr a, w).

Definition throw {A : Type} (e : exn) : M A := fun w => (inl e, w).

Definition bind {A B : Type} (c : M A) (k : A -> M B) : M B :=
  fun w =>
    match c w with
    | (inr a, w') => k a w'
    | (inl e, w') => (inl e, w')
    end.

Notation "x <- c ;; k" := (bind c (fun x => k))
  (at level 61, c at next level, right associativity).
Notation "c ;;; k" := (bind c (fun _ => k))
  (at level 61, right associativity).

Definition called (c : fs_call) (w : world) : world :=
  {| files := files w; calls := calls w ++ [c] |}.

Definition existsSync (p : jsstring) : M bool :=
  fun w => (inr (truthy_object (files w p)), called (ExistsSync p) w).

Definition readFileSync (p : jsstring) : M file_content :=
  fun w =>
    match files w p with
    | Some c => (inr c, called (ReadFileSync p) w)
    | None => (inl ENOENT, called (ReadFileSync p) w)
    end.

(** [fs.writeFileSync] opens the file for writing, which truncates it, and
    then writes the text. *)
Definition writeFileSync (p : jsstring) (data : list Snapshot) : M unit :=
  fun w =>
    (inr tt,
     {| files := write_file p (Intact data) (files w);
        calls := calls w ++ [WriteFileSync p data] |}).

(** The same call when the process stops after the truncation and before
    the whole text is on disk. *)
Definition writeFileSync_interrupted (p : jsstring) (data : list Snapshot)
    (w : world) : world :=
  {| files := write_file p Torn (files w);
     calls := calls w ++ [WriteFileSync p data] |}.

Definition JSON_parse (c : file_content) : M (list Snapshot) :=
  match c with
  | Intact data => ret data
  | Torn => throw SyntaxError
  end.

Definition EVOLUTION_DB_PATH : jsstring := lit "evolutionData.json".

Definition loadEvolutionData : M (list Snapshot) :=
  e <- existsSync EVOLUTION_DB_PATH ;;
  if negb e then ret []
  else c <- readFileSync EVOLUTION_DB_PATH ;; JSON_parse c.

Definition saveEvolutionData (data : list Snapshot) : M unit :=
  writeFileSync EVOLUTION_DB_PATH data.

(** *** Responses *)

(** An entry of the hotspot list, as the handler passes it to [res.json]
    (which writes an infinity as [null]). *)
Module H.
Record t : Type := {
  file : jsstring;
  maintainabilityTrend : number;
  complexityTrend : number;
  securityTrend : number;
  latest : SnapMetrics
}.
End H.

Inductive response : Type :=
| Json_success
| Json_timeline (timeline : list Snapshot)
| Json_hotspots (hotspots : list H.t)
| Status400 (error : jsstring)
| Status500.

(** Express answers 500 when a handler throws. *)
Definition express (h : M response) (w : world) : response * world :=
  match h w with
  | (inr r, w') => (r, w')
  | (inl _, w') => (Status500, w')
  end.

(** *** [POST /evolution/record] *)

Definition recorded (b : RecordBody) (repo : jsvalue) (metrics : SnapMetrics)
    (now : Z) : Snapshot :=
  {| repo := repo;
     commit := body_commit b;
     timestamp := or_number (body_timestamp b) now;
     metrics := metrics;
     file := body_file b |}.

Definition record_handler (b : RecordBody) (now : Z) : M response :=
  match body_repo b, body_metrics b with
  | Some repo, Some metrics =>
      if truthy (Some repo) then
        data <- loadEvolutionData ;;
        let data := data ++ [recorded b repo metrics now] in
        saveEvolutionData data ;;;
        ret Json_success
      else ret (Status400 (lit "Missing repo or metrics."))
  | _, _ => ret (Status400 (lit "Missing repo or metrics."))
  end.

Definition record (b : RecordBody) (now : Z) : world -> response * world :=
  express (record_handler b now).

(** *** [GET /evolution/timeline] *)

Definition option_string_eqb (a : option jsstring) (b : jsstring) : bool :=
  match a with
  | Some a' => jsstring_eqb a' b
  | None => false
  end.

Definition option_strict_eqb (a : option jsvalue) (b : jsstring) : bool :=
  match a with
  | Some a' => strict_eqb a' b
  | None => false
  end.

Definition timeline_filter (repo : jsstring) (file : option jsstring)
    (snap : Snapshot) : bool :=
  strict_eqb (Evolution.repo snap) repo
  && match file with
     | Some (c :: f) => option_strict_eqb (Evolution.file snap) (c :: f)
     | _ => true
     end.

Definition timeline_handler (repo file : option jsstring) : M response :=
  match repo with
  | Some (c :: r) =>
      data <- loadEvolutionData ;;
      ret (Json_timeline (filter (timeline_filter (c :: r) file) data))
  | _ => ret (Status400 (lit "Missing repo."))
  end.

Definition timeline (repo file : option jsstring) : world -> response * world :=
  express (timeline_handler repo file).

(** *** [GET /evolution/hotspots] *)

(** [Array.prototype.sort] with a comparator: a stable sort, an element
    staying before the ones it does not compare greater than. *)
Section ArraySort.
Context {A : Type} (cmp : A -> A -> Z).

Fixpoint insert (x : A) (l : list A) : list A :=
  match l with
  | [] => [x]
  | y :: l' => if cmp x y <=? 0 then x :: l else y :: insert x l'
  end.

Definition Array_sort (l : list A) : list A := fold_right insert [] l.
End ArraySort.

(** [a[i]]: [undefined] outside the array. *)
Definition index {A : Type} (a : list A) (i : Z) : option A :=
  if i <? 0 then None else nth_error a (Z.to_nat i).

(** The object [byFile]: its own properties in creation order.  It is
    created by [{}], so a name it does not own is looked up in
    [Object.prototype]. *)
Definition object := list (jsstring * list Snapshot).

Definition Object_prototype_keys : list jsstring :=
  List.map lit
    [ "constructor"; "__defineGetter__"; "__defineSetter__"; "hasOwnProperty";
      "__lookupGetter__"; "__lookupSetter__"; "isPrototypeOf";
      "propertyIsEnumerable"; "toString"; "valueOf"; "__proto__";
      "toLocaleString" ]%string.

Definition inherited (k : jsstring) : bool :=
  existsb (jsstring_eqb k) Object_prototype_keys.

Inductive property : Type :=
| Own (snaps : list Snapshot)
| Inherited
| Undefined.

Fixpoint own (k : jsstring) (o : object) : option (list Snapshot) :=
  match o with
  | [] => None
  | (k', v) :: o' => if jsstring_eqb k' k then Some v else own k o'
  end.

Definition get (k : jsstring) (o : object) : property :=
  match own k o with
  | Some v => Own v
  | None => if inherited k then Inherited else Undefined
  end.

Fixpoint set (k : jsstring) (v : list Snapshot) (o : object) : object :=
  match o with
  | [] => [(k, v)]
  | (k', v') :: o' =>
      if jsstring_eqb k' k then (k', v) :: o' else (k', v') :: set k v o'
  end.

(** The body of [data.forEach]: an inherited property is truthy, so no
    array is created, and it has no [push]. *)
Definition add_snapshot (byFile : object) (snap : Snapshot) : exn + object :=
  if negb (truthy (file snap)) then inr byFile
  else
    match file snap with
    | Some v =>
        match property_key v with
        | Some k =>
            match get k byFile with
            | Undefined => inr (set k [snap] byFile)
            | Own snaps => inr (set k (snaps ++ [snap]) byFile)
            | Inherited => inl TypeError
            end
        | None => inl TypeError
        end
    | None => inr byFile
    end.

Fixpoint forEach_add (data : list Snapshot) (byFile : object) : exn + object :=
  match data with
  | [] => inr byFile
  | snap :: data' =>
      match add_snapshot byFile snap with
      | inr byFile' => forEach_add data' byFile'
      | inl e => inl e
      end
  end.

(** Property order of [Object.entries]: the array indices in ascending
    order, then the other names in creation order. *)
Definition digit (c : N) : option N :=
  if ((48 <=? c) && (c <=? 57))%N then Some (c - 48)%N else None.

Fixpoint decimal (acc : N) (s : jsstring) : option N :=
  match s with
  | [] => Some acc
  | c :: s' =>
      match digit c with
      | Some d => decimal (10 * acc + d)%N s'
      | None => None
      end
  end.

Definition array_index (k : jsstring) : option N :=
  match k with
  | [] => None
  | c :: k' =>
      if ((c =? 48) && negb (List.length k' =? 0)%nat)%N then None
      else match decimal 0 k with
           | Some n => if (n <? 4294967295)%N then Some n else None
           | None => None
           end
  end.

Definition is_array_index (e : jsstring * list Snapshot) : bool :=
  truthy_object (array_index (fst e)).

Definition index_of (e : jsstring * list Snapshot) : Z :=
  match array_index (fst e) with
  | Some n => Z.of_N n
  | None => 0
  end.

Definition Object_entries (o : object) : list (jsstring * list Snapshot) :=
  Array_sort (fun a b => index_of a - index_of b) (filter is_array_index o)
  ++ filter (fun e => negb (is_array_index e)) o.

Definition by_timestamp (a b : Snapshot) : Z :=
  sign (Number_sub (Num (timestamp a)) (Num (timestamp b))).

Definition or_zero (o : option Z) : Z := or_number o 0.

(** The callback of [Object.entries(byFile).map]. *)
Definition hotspot (N : Z) (entry : jsstring * list Snapshot)
    : exn + option H.t :=
  let (file, snaps) := entry in
  let sorted := Array_sort by_timestamp snaps in
  let len := Z.of_nat (List.length sorted) in
  if len <? N then inr None
  else
    match index sorted (len - N), index sorted (len - 1) with
    | Some first, Some last =>
        let start := metrics first in
        let end_ := metrics last in
        inr (Some
          {| H.file := file;
             H.maintainabilityTrend :=
               Number_sub (Num (maintainabilityIndex end_))
                 (Num (maintainabilityIndex start));
             H.complexityTrend :=
               Number_sub (Num (complexityScore end_))
                 (Num (complexityScore start));
             H.securityTrend :=
               Number_sub (Num (or_zero (securityScore end_)))
                 (Num (or_zero (securityScore start)));
             H.latest := end_ |})
    | _, _ => inl TypeError
    end.

Fixpoint map_hotspot (N : Z) (entries : list (jsstring * list Snapshot))
    : exn + list (option H.t) :=
  match entries with
  | [] => inr []
  | e :: entries' =>
      match hotspot N e with
      | inl x => inl x
      | inr h =>
          match map_hotspot N entries' with
          | inl x => inl x
          | inr hs => inr (h :: hs)
          end
      end
  end.

(** [.filter(Boolean)] *)
Fixpoint filter_Boolean {A : Type} (l : list (option A)) : list A :=
  match l with
  | [] => []
  | Some a :: l' => a :: filter_Boolean l'
  | None :: l' => filter_Boolean l'
  end.

Definition by_complexityTrend (a b : H.t) : Z :=
  sign (Number_sub (or_zero_number (H.complexityTrend b))
          (or_zero_number (H.complexityTrend a))).

Definition lift {A : Type} (r : exn + A) : M A := fun w => (r, w).

(** [window] is what [parseInt] reads from the query parameter, [None] for
    [NaN]. *)
Definition hotspots_handler (repo : option jsstring) (window : option Z)
    : M response :=
  match repo with
  | Some (c :: r) =>
      data <- loadEvolutionData ;;
      let data := filter (fun snap => strict_eqb (Evolution.repo snap) (c :: r)) data in
      byFile <- lift (forEach_add data []) ;;
      let N := or_number window 5 in
      hotspots <- lift (map_hotspot N (Object_entries byFile)) ;;
      ret (Json_hotspots
             (Array_sort by_complexityTrend (filter_Boolean hotspots)))
  | _ => ret (Status400 (lit "Missing repo."))
  end.

Definition hotspots (repo : option jsstring) (window : option Z)
    : world -> response * world :=
  express (hotspots_handler repo window).

(** The world in which the store file holds [data], or does not exist. *)
Definition store (data : option (list Snapshot)) : world :=
  {| files :=
       match data with
       | Some d => write_file EVOLUTION_DB_PATH (Intact d) empty_disk
       | None => empty_disk
       end;
     calls := [] |}.

(** What a reader finds in the store file. *)
Definition stored (w : world) : option file_content :=
  files w EVOLUTION_DB_PATH.

(** The snapshots a reader parses from the store file. *)
Definition contents (w : world) : list Snapshot :=
  match stored w with
  | Some (Intact d) => d
  | _ => []
  end.

(** A sequence of [record] requests, each with the reading of [Date.now()]
    at its time. *)
Fixpoint record_all (reqs : list (RecordBody * Z)) (w : world) : world :=
  match reqs with
  | [] => w
  | (b, now) :: reqs' => record_all reqs' (snd (record b now w))
  end.

(** The state in which the process stops inside the write of [record]. *)
Definition record_interrupted (b : RecordBody) (now : Z) (w : world)
    : option world :=
  match body_repo b, body_metrics b with
  | Some repo, Some metrics =>
      if truthy (Some repo) then
        match loadEvolutionData w with
        | (inr data, w') =>
            Some (writeFileSync_interrupted EVOLUTION_DB_PATH
                    (data ++ [recorded b repo metrics now]) w')
        | (inl _, _) => None
        end
      else None
  | _, _ => None
  end.

(** A store file that is absent or holds a whole snapshot array, as every
    completed [record] leaves it. *)
Definition readable (w : world) : Prop :=
  stored w = None \/ exists d, stored w = Some (Intact d).

(** The request passes the check of [record]: [repo] is truthy and
    [metrics] is present. *)
Definition accepted (b : RecordBody) : bool :=
  truthy (body_repo b) && truthy_object (body_metrics b).

(** The property name under which [hotspots] groups a snapshot: that of its
    [file], when [file] is truthy. *)
Definition file_key (snap : Snapshot) : option jsstring :=
  match file snap with
  | Some v => if truthy (Some v) then property_key v else None
  | None => None
  end.

(** The snapshots of [repo] grouped under the name [f], in store order. *)
Definition group (repo f : jsstring) (data : list Snapshot) : list Snapshot :=
  filter (fun snap => strict_eqb (Evolution.repo snap) repo
                      && option_string_eqb (file_key snap) f) data.

(** The snapshots of a list grouped under the name [f]. *)
Definition of_file (f : jsstring) (data : list Snapshot) : list Snapshot :=
  filter (fun snap => option_string_eqb (file_key snap) f) data.

(** The array of a key after more snapshots of its file were pushed. *)
Definition merged (prev : option (list Snapshot)) (g : list Snapshot)
    : option (list Snapshot) :=
  match prev, g with
  | None, [] => None
  | None, _ :: _ => Some g
  | Some l, _ => Some (l ++ g)
  end.

(** The value the callback of [map] returns for an entry, when it returns. *)
Definition trend (N : Z) (entry : jsstring * list Snapshot) : option H.t :=
  match hotspot N entry with
  | inr h => h
  | inl _ => None
  end.

(** A [file] that is falsy, or converts to a property name that the
    prototype of [byFile] does not define. *)
Definition safe_file (snap : Snapshot) : Prop :=
  truthy (file snap) = true ->
  exists k, file_key snap = Some k /\ inherited k = false.

Definition safe_fileb (snap : Snapshot) : bool :=
  negb (truthy (file snap))
  || match file_key snap with
     | Some k => negb (inherited k)
     | None => false
     end.

(** Keys are distinct. *)
Definition well_keyed (o : object) : Prop := NoDup (List.map fst o).

Definition sample_metrics : SnapMetrics :=
  {| maintainabilityIndex := 80; complexityScore := 7;
     securityScore := Some 100 |}.

Definition sample_body (ts : option Z) : RecordBody :=
  {| body_repo := Some (Str (lit "octo/app")); body_commit := None;
     body_timestamp := ts; body_metrics := Some sample_metrics;
     body_file := Some (Str (lit "src/index.ts")) |}.

(** The body [{ repo: 123, metrics }]: a number in the place of [repo]. *)
Definition numeric_body : RecordBody :=
  {| body_repo := Some (NotStr (Some (lit "123"))); body_commit := None;
     body_timestamp := Some 42; body_metrics := Some sample_metrics;
     body_file := None |}.

(** A snapshot of the repository [octo/app]. *)
Definition snapshot_of (f : string) (ts complexity : Z) : Snapshot :=
  {| repo := Str (lit "octo/app"); commit := None; timestamp := ts;
     metrics := {| maintainabilityIndex := 80; complexityScore := complexity;
                   securityScore := None |};
     file := Some (Str (lit f)) |}.

(** Five snapshots of one file with the complexity scores 10, 12, 14, 18
    and 25 at increasing timestamps, stored out of order. *)
Definition five_snapshots : list Snapshot :=
  [ snapshot_of "src/index.ts" 3 14; snapshot_of "src/index.ts" 1 10;
    snapshot_of "src/index.ts" 5 25; snapshot_of "src/index.ts" 2 12;
    snapshot_of "src/index.ts" 4 18 ].

(** The write discipline the specification asks for: nothing is written
    onto the store file itself; each text goes to another path, which is
    renamed onto the store file by the next call. *)
Fixpoint atomic_replace (tr : list fs_call) : bool :=
  match tr with
  | [] => true
  | WriteFileSync p _ :: RenameSync src dst :: tr' =>
      negb (jsstring_eqb p EVOLUTION_DB_PATH) && jsstring_eqb src p
      && jsstring_eqb dst EVOLUTION_DB_PATH && atomic_replace tr'
  | WriteFileSync _ _ :: _ => false
  | RenameSync _ _ :: _ => false
  | _ :: tr' => atomic_replace tr'
  end.

End Evolution.

(* ================================================================== *)
(** ** The advisory texts                                              *)
(* ================================================================== *)

Module Advice.
Import JS.

(** The texts [generateRecommendations] pushes, in its order. *)
Definition complexity_advice : jsstring :=
  lit "Consider breaking down complex functions into smaller, more manageable pieces".
Definition maintainability_advice : jsstring :=
  lit "Code maintainability is low. Consider refactoring and adding more comments".
Definition performance_advice : jsstring :=
  lit "Performance could be improved. Consider optimizing loops and reducing nested conditions".
Definition security_advice : jsstring :=
  lit "Security issues detected. Review and fix security vulnerabilities".
Definition praise : jsstring :=
  lit "Code quality looks good! Keep up the good practices".

Definition file_advice : list jsstring :=
  [ complexity_advice; maintainability_advice; performance_advice;
    security_advice; praise ].

(** The texts [generateRepositoryRecommendations] pushes, in its order. *)
Definition repo_maintainability_advice : jsstring :=
  lit "Overall code maintainability is low. Consider establishing coding standards and refactoring complex files.".
Definition repo_performance_advice : jsstring :=
  lit "Performance could be improved across the codebase. Focus on optimizing loops and reducing complexity.".
Definition repo_security_advice : jsstring :=
  lit "Security vulnerabilities detected. Prioritize fixing security issues across the repository.".
Definition repo_size_advice : jsstring :=
  lit "Large codebase detected. Consider implementing automated testing and CI/CD pipelines.".
Definition repo_praise : jsstring :=
  lit "Repository shows good code quality practices. Keep maintaining high standards!".

Definition repo_advice : list jsstring :=
  [ repo_maintainability_advice; repo_performance_advice;
    repo_security_advice; repo_size_advice; repo_praise ].

(** The two scores before [Math.round], as [generateRecommendations]
    receives them. *)
Definition raw_maintainability (complexityScore functionCount totalLines : Z) : Q :=
  Math_max 0 (100 - inject_Z complexityScore * 2
              - inject_Z functionCount * 1.5
              - inject_Z totalLines * 0.1)%Q.

Definition raw_performance (ifStatements forLoops whileLoops : Z) : Q :=
  Math_max 0 (100 - inject_Z forLoops * 5 - inject_Z whileLoops * 5
              - inject_Z ifStatements * 2)%Q.

(** How often a code unit occurs in a text. *)
Definition count_unit (c : N) (s : jsstring) : Z :=
  Z.of_nat (List.length (filter (N.eqb c) s)).

(** Every match of the pattern ends with a code unit of the class [C]. *)
Definition ends_in (C : N -> bool) (r : regex) : Prop :=
  forall (k : cont) (s x : jsstring),
    re_match r k s = Some x ->
    exists pre c rest, s = pre ++ c :: rest /\ C c = true /\ k rest = Some x.

(** The line holds a code unit that is not white space. *)
Definition has_text (line : jsstring) : bool :=
  existsb (fun c => negb (isWhiteSpace c)) line.

(** After its leading white space the line goes on with [//], [/*] or
    [*]. *)
Definition starts_comment (line : jsstring) : bool :=
  let rest := dropWhile isWhiteSpace line in
  startsWith (lit "//") rest || startsWith (lit "/*") rest
  || startsWith (lit "*") rest.

(** Membership in a list of texts, as a test. *)
Definition mem (x : jsstring) (l : list jsstring) : bool :=
  existsb (jsstring_eqb x) l.

End Advice.

(* ================================================================== *)
(** ** Sequences of requests to the evolution store                    *)
(* ================================================================== *)

Module Requests.
Import JS Evolution.

(** The snapshots a sequence of [record] requests adds, in order: one for
    each request that passes the check. *)
Fixpoint accepted_snapshots (reqs : list (RecordBody * Z)) : list Snapshot :=
  match reqs with
  | [] => []
  | (b, now) :: reqs' =>
      match body_repo b, body_metrics b with
      | Some r, Some m =>
          if truthy (Some r) then recorded b r m now :: accepted_snapshots reqs'
          else accepted_snapshots reqs'
      | _, _ => accepted_snapshots reqs'
      end
  end.

(** The snapshot has a file name that counts as present. *)
Definition has_file (snap : Snapshot) : bool := truthy (file snap).

(** No own property of [byFile] has a name of [Object.prototype]. *)
Definition no_inherited_key (o : object) : Prop :=
  forall k v, In (k, v) o -> inherited k = false.

(** The entry the callback of [hotspots] builds from the first snapshot of
    the window and the last snapshot of a file. *)
Definition entry (f : jsstring) (first last : Snapshot) : H.t :=
  {| H.file := f;
     H.maintainabilityTrend :=
       Number_sub (Num (maintainabilityIndex (metrics last)))
         (Num (maintainabilityIndex (metrics first)));
     H.complexityTrend :=
       Number_sub (Num (complexityScore (metrics last)))
         (Num (complexityScore (metrics first)));
     H.securityTrend :=
       Number_sub (Num (or_zero (securityScore (metrics last))))
         (Num (or_zero (securityScore (metrics first))));
     H.latest := metrics last |}.

(** The same entry with the exact differences. *)
Definition exact_entry (f : jsstring) (first last : Snapshot) : H.t :=
  {| H.file := f;
     H.maintainabilityTrend :=
       Num (maintainabilityIndex (metrics last)
            - maintainabilityIndex (metrics first));
     H.complexityTrend :=
       Num (complexityScore (metrics last) - complexityScore (metrics first));
     H.securityTrend :=
       Num (or_zero (securityScore (metrics last))
            - or_zero (securityScore (metrics first)));
     H.latest := metrics last |}.

(** Scores that are [small]. *)
Definition small_scores (snap : Snapshot) : Prop :=
  small (maintainabilityIndex (metrics snap))
  /\ small (complexityScore (metrics snap))
  /\ small (or_zero (securityScore (metrics snap))).

End Requests.

(* ================================================================== *)
(** ** The large-file cut of [POST /review]                            *)
(* ================================================================== *)

Module Review.
Import JS.

(** [Array.prototype.join('\n')]. *)
Fixpoint join_lines (lines : list jsstring) : jsstring :=
  match lines with
  | [] => []
  | [l] => l
  | l :: lines' => l ++ 10%N :: join_lines lines'
  end.

(** [a.slice(0, n)] on arrays and on strings, for [n] not negative. *)
Definition slice0 {A : Type} (n : Z) (a : list A) : list A :=
  firstn (Z.to_nat n) a.

Definition large_file_warning : jsstring :=
  lit "This file is too large for a full AI review. Only the first 300 lines or 20,000 characters are analyzed.".

(** The pair [(warning, codeForAI)] computed from the fetched [code], a
    text. *)
Definition cut_for_ai (code : jsstring) : jsstring * jsstring :=
  let warning := [] in
  let codeForAI := code in
  let codeLines := split_lines code in
  if (300 <? Z.of_nat (List.length codeLines))
     || (20000 <? Z.of_nat (List.length code))
  then (large_file_warning,
        slice0 20000 (join_lines (slice0 300 codeLines)))
  else (warning, codeForAI).

(** One text is the beginning of another. *)
Definition prefix_of (p s : jsstring) : Prop := exists rest, s = p ++ rest.

(** The number of line feeds of a text. *)
Definition line_feeds (s : jsstring) : nat :=
  List.length (filter (fun c => (c =? 10)%N) s).

End Review.

(* ================================================================== *)
(** ** The repository summary of [POST /repository-analysis]           *)
(* ================================================================== *)

Module Repository.
Import JS Analyzer.

(** An entry of the tree GitHub returns. *)
Record TreeItem : Type := {
  path : jsstring;
  type : jsstring;
  size : Z
}.

Definition codeExtensions : list jsstring :=
  List.map lit
    [ ".js"; ".ts"; ".jsx"; ".tsx"; ".py"; ".java"; ".cpp"; ".c"; ".cs";
      ".php"; ".rb"; ".go"; ".rs"; ".swift"; ".kt" ]%string.

(** [String.prototype.endsWith]. *)
Definition endsWith (suffix s : jsstring) : bool :=
  startsWith (rev suffix) (rev s).

Definition isCodeFile (item : TreeItem) : bool :=
  jsstring_eqb (type item) (lit "blob")
  && existsb (fun ext => endsWith ext (path item)) codeExtensions.

(** [tree.filter(...).slice(0, 50)]. *)
Definition codeFiles (tree : list TreeItem) : list TreeItem :=
  firstn 50 (filter isCodeFile tree).

(** [s.split('.')]: the pieces between full stops; never empty. *)
Fixpoint split_dot (s : jsstring) : list jsstring :=
  match s with
  | [] => [[]]
  | c :: s' =>
      if (c =? 46)%N then [] :: split_dot s'
      else match split_dot s' with
           | l :: ls => (c :: l) :: ls
           | [] => [[c]]
           end
  end.

(** [file.path.split('.').pop() || 'unknown']. *)
Definition fileExtension (path : jsstring) : jsstring :=
  match last (split_dot path) [] with
  | [] => lit "unknown"
  | c :: e => c :: e
  end.

(** A value of the object [fileTypes]: a count, or the text that [+ 1]
    makes of a property inherited from [Object.prototype]. *)
Inductive tally : Type :=
| Count (n : Z)
| Text.

Definition fileTypes_t := list (jsstring * tally).

Fixpoint own_tally (k : jsstring) (o : fileTypes_t) : option tally :=
  match o with
  | [] => None
  | (k', v) :: o' => if jsstring_eqb k' k then Some v else own_tally k o'
  end.

Fixpoint set_tally (k : jsstring) (v : tally) (o : fileTypes_t) : fileTypes_t :=
  match o with
  | [] => [(k, v)]
  | (k', v') :: o' =>
      if jsstring_eqb k' k then (k', v) :: o' else (k', v') :: set_tally k v o'
  end.

(** [fileTypes[ext] = (fileTypes[ext] || 0) + 1].  A name inherited from
    [Object.prototype] reads as a function or an object, and [+ 1] makes a
    text of it; assigning a text to [__proto__] does nothing. *)
Definition count_extension (ext : jsstring) (o : fileTypes_t) : fileTypes_t :=
  match own_tally ext o with
  | Some (Count n) => set_tally ext (Count ((if n =? 0 then 0 else n) + 1)) o
  | Some Text => set_tally ext Text o
  | None =>
      if Evolution.inherited ext then
        if jsstring_eqb ext (lit "__proto__") then o else set_tally ext Text o
      else set_tally ext (Count (0 + 1)) o
  end.

Record Overall : Type := {
  totalFiles : Z;
  totalLines : Z;
  totalFunctions : Z;
  totalComplexity : Z;
  maintainabilityScores : list Z;
  performanceScores : list Z;
  securityIssues : list jsstring;
  fileTypes : fileTypes_t
}.

Record FileAnalysis : Type := {
  file_path : jsstring;
  file_size : Z;
  analysis : AnalysisResult
}.

(** The body of the loop over [codeFiles]; [fetch] is the text that
    [axios.get] gives for the raw file of a path, [None] when the request
    throws or gives something else than a text, on which [code.split]
    throws: the [catch] of the loop body absorbs both before anything is
    added. *)
Definition analyze_file (fetch : jsstring -> option jsstring)
    (st : Overall * list FileAnalysis) (file : TreeItem)
    : Overall * list FileAnalysis :=
  let (overallMetrics, fileAnalyses) := st in
  match fetch (path file) with
  | None => (overallMetrics, fileAnalyses)
  | Some code =>
      let analysis := analyzeCodeComplexity code in
      let fileExtension := fileExtension (path file) in
      ({| totalFiles := totalFiles overallMetrics;
          totalLines :=
            totalLines overallMetrics + Analyzer.totalLines (metrics analysis);
          totalFunctions :=
            totalFunctions overallMetrics + functionCount (metrics analysis);
          totalComplexity :=
            totalComplexity overallMetrics + complexityScore (metrics analysis);
          maintainabilityScores :=
            maintainabilityScores overallMetrics
            ++ [maintainabilityIndex (metrics analysis)];
          performanceScores :=
            performanceScores overallMetrics
            ++ [performanceScore (metrics analysis)];
          securityIssues :=
            securityIssues overallMetrics ++ issues (security analysis);
          fileTypes := count_extension fileExtension (fileTypes overallMetrics) |},
       fileAnalyses
       ++ [{| file_path := path file; file_size := size file;
              analysis := analysis |}])
  end.

Definition analyze_files (fetch : jsstring -> option jsstring)
    (files : list TreeItem) : Overall * list FileAnalysis :=
  fold_left (analyze_file fetch) files
    ({| totalFiles := Z.of_nat (List.length files);
        totalLines := 0; totalFunctions := 0; totalComplexity := 0;
        maintainabilityScores := []; performanceScores := [];
        securityIssues := []; fileTypes := [] |}, []).

(** [scores.reduce((a, b) => a + b, 0)]. *)
Definition sum (scores : list Z) : Z := fold_left Z.add scores 0.

(** [scores.length > 0 ? Math.round(sum / scores.length) : 0].  The handler
    averages at most 50 scores between 0 and 100: the exact quotient is a
    multiple of 1/2, which binary64 holds exactly, or at least 1/100 away
    from the nearest one, far more than the error of the one binary64
    division; so [Math.round] gives the rounding of the exact quotient. *)
Definition average (scores : list Z) : Z :=
  if (0 <? List.length scores)%nat
  then Math_round (inject_Z (sum scores)
                   / inject_Z (Z.of_nat (List.length scores)))%Q
  else 0.

(** [[...new Set(a)]]: the first occurrence of each element, in order. *)
Fixpoint unique_from (seen a : list jsstring) : list jsstring :=
  match a with
  | [] => []
  | x :: a' =>
      if existsb (jsstring_eqb x) seen then unique_from seen a'
      else x :: unique_from (x :: seen) a'
  end.

Definition Set_spread (a : list jsstring) : list jsstring := unique_from [] a.

Definition generateRepositoryRecommendations
    (avgMaintainability avgPerformance securityIssues totalFiles : Z)
    : list jsstring :=
  let recommendations := [] in
  let recommendations :=
    push_if (avgMaintainability <? 60)
      (lit "Overall code maintainability is low. Consider establishing coding standards and refactoring complex files.")
      recommendations in
  let recommendations :=
    push_if (avgPerformance <? 70)
      (lit "Performance could be improved across the codebase. Focus on optimizing loops and reducing complexity.")
      recommendations in
  let recommendations :=
    push_if (0 <? securityIssues)
      (lit "Security vulnerabilities detected. Prioritize fixing security issues across the repository.")
      recommendations in
  let recommendations :=
    push_if (30 <? totalFiles)
      (lit "Large codebase detected. Consider implementing automated testing and CI/CD pipelines.")
      recommendations in
  let recommendations :=
    push_if (List.length recommendations =? 0)%nat
      (lit "Repository shows good code quality practices. Keep maintaining high standards!")
      recommendations in
  recommendations.

(** The [overview] and [recommendations] of the response. *)
Record Summary : Type := {
  overview_totalFiles : Z;
  overview_totalLines : Z;
  overview_totalFunctions : Z;
  averageMaintainability : Z;
  averagePerformance : Z;
  overview_securityIssues : list jsstring;
  overview_fileTypes : fileTypes_t;
  files : list FileAnalysis;
  recommendations : list jsstring
}.

(** The handler from the tree to the [overview], the [files] and the
    [recommendations] of its response, which it sends once the request to
    the AI service has returned; [None] is the answer 400 for a tree
    without code files. *)
Definition summarize (fetch : jsstring -> option jsstring)
    (tree : list TreeItem) : option Summary :=
  let codeFiles := codeFiles tree in
  if (List.length codeFiles =? 0)%nat then None
  else
    let (overallMetrics, fileAnalyses) := analyze_files fetch codeFiles in
    let avgMaintainability := average (maintainabilityScores overallMetrics) in
    let avgPerformance := average (performanceScores overallMetrics) in
    let uniqueSecurityIssues := Set_spread (securityIssues overallMetrics) in
    Some
      {| overview_totalFiles := totalFiles overallMetrics;
         overview_totalLines := totalLines overallMetrics;
         overview_totalFunctions := totalFunctions overallMetrics;
         averageMaintainability := avgMaintainability;
         averagePerformance := avgPerformance;
         overview_securityIssues := uniqueSecurityIssues;
         overview_fileTypes := fileTypes overallMetrics;
         files := fileAnalyses;
         recommendations :=
           generateRepositoryRecommendations avgMaintainability avgPerformance
             (Z.of_nat (List.length uniqueSecurityIssues))
             (totalFiles overallMetrics) |}.

(** The analyses of the files whose text could be fetched, in order. *)
Fixpoint analyzed (fetch : jsstring -> option jsstring)
    (files : list TreeItem) : list FileAnalysis :=
  match files with
  | [] => []
  | file :: files' =>
      match fetch (path file) with
      | Some code =>
          {| file_path := path file; file_size := size file;
             analysis := analyzeCodeComplexity code |}
          :: analyzed fetch files'
      | None => analyzed fetch files'
      end
  end.

(** The sum of a measure over the analyses. *)
Definition total (g : Metrics -> Z) (fas : list FileAnalysis) : Z :=
  fold_right (fun fa acc => g (metrics (analysis fa)) + acc) 0 fas.

(** The issues of all analyses, one after the other. *)
Definition all_issues (fas : list FileAnalysis) : list jsstring :=
  flat_map (fun fa => issues (security (analysis fa))) fas.

(** The extension counts after the analyses. *)
Definition counted (fas : list FileAnalysis) (o : fileTypes_t) : fileTypes_t :=
  fold_left (fun o fa => count_extension (fileExtension (file_path fa)) o)
    fas o.

(** How many analyses have the extension [e]. *)
Definition with_extension (e : jsstring) (fas : list FileAnalysis) : Z :=
  Z.of_nat
    (List.length
       (filter (fun fa => jsstring_eqb (fileExtension (file_path fa)) e) fas)).

(** The count an extension has in [fileTypes], 0 when it has none. *)
Definition tally_of (o : fileTypes_t) (e : jsstring) : Z :=
  match own_tally e o with
  | Some (Count n) => n
  | _ => 0
  end.

(** Every value of [fileTypes] is a positive count. *)
Definition counts_only (o : fileTypes_t) : Prop :=
  forall k v, own_tally k o = Some v -> exists n, v = Count n /\ 0 < n.

(** A code unit other than the full stop. *)
Definition not_dot (c : N) : bool := negb (c =? 46)%N.

(** The extensions of [codeExtensions] without the full stop. *)
Definition extension_names : list jsstring :=
  List.map (fun ext => tl ext) codeExtensions.

(** A tree with one script, and a fetch that answers every path with a text
    that uses [eval(]. *)
Definition one_script : list TreeItem :=
  [ {| path := lit "src/app.js"; type := lit "blob"; size := 12 |};
    {| path := lit "README.md"; type := lit "blob"; size := 3 |} ].

Definition fetch_eval (p : jsstring) : option jsstring :=
  Some (lit "x = eval(y)").

End Repository.

(* ================================================================== *)
(** ** GitHub addresses                                                *)
(* ================================================================== *)

Module Url.
Import JS.

(** Patterns with capture groups, as the two address patterns need them:
    literal code units, classes, concatenation, the greedy and the lazy
    star of a class, an optional part, a capture group and the end of the
    text.  The continuation receives the rest of the text and the captures
    made so far. *)
Inductive cre : Type :=
| CEps
| CChr (c : N)
| CCls (p : N -> bool)
| CSeq (r1 r2 : cre)
| CStar (p : N -> bool)
| CLazy (p : N -> bool)
| COpt (r : cre)
| CGroup (i : nat) (r : cre)
| CEnd.

Definition captures := list (nat * jsstring).

Definition ccont := jsstring -> captures -> option captures.

(** The text of a capture group, [None] for [undefined]. *)
Fixpoint capture (i : nat) (caps : captures) : option jsstring :=
  match caps with
  | [] => None
  | (j, t) :: caps' => if (j =? i)%nat then Some t else capture i caps'
  end.

Fixpoint CStr_of (s : jsstring) : cre :=
  match s with
  | [] => CEps
  | c :: s' => CSeq (CChr c) (CStr_of s')
  end.

Definition CStr (s : string) : cre := CStr_of (lit s).

Definition CPlus (p : N -> bool) : cre := CSeq (CCls p) (CStar p).

Definition CLazyPlus (p : N -> bool) : cre := CSeq (CCls p) (CLazy p).

Fixpoint cstar (p : N -> bool) (k : ccont) (s : jsstring) (caps : captures)
    : option captures :=
  match s with
  | c :: s' =>
      if p c then
        match cstar p k s' caps with
        | Some r => Some r
        | None => k s caps
        end
      else k s caps
  | [] => k s caps
  end.

(** The lazy star tries the rest of the pattern first and takes one more
    code unit only when that fails. *)
Fixpoint clazy (p : N -> bool) (k : ccont) (s : jsstring) (caps : captures)
    : option captures :=
  match k s caps with
  | Some r => Some r
  | None =>
      match s with
      | c :: s' => if p c then clazy p k s' caps else None
      | [] => None
      end
  end.

Fixpoint cre_match (r : cre) (k : ccont) (s : jsstring) (caps : captures)
    : option captures :=
  match r with
  | CEps => k s caps
  | CChr c =>
      match s with
      | d :: s' => if (c =? d)%N then k s' caps else None
      | [] => None
      end
  | CCls p =>
      match s with
      | d :: s' => if p d then k s' caps else None
      | [] => None
      end
  | CSeq r1 r2 => cre_match r1 (cre_match r2 k) s caps
  | CStar p => cstar p k s caps
  | CLazy p => clazy p k s caps
  | COpt r' =>
      match cre_match r' k s caps with
      | Some x => Some x
      | None => k s caps
      end
  | CGroup i r' =>
      cre_match r'
        (fun s' caps' =>
           k s' ((i, firstn (List.length s - List.length s') s) :: caps'))
        s caps
  | CEnd =>
      match s with
      | [] => k s caps
      | _ :: _ => None
      end
  end.

(** [s.match(/^.../)]: the pattern starts with [^], so it can only match
    at the start of the text. *)
Definition match_start (r : cre) (s : jsstring) : option captures :=
  cre_match r (fun _ caps => Some caps) s [].

Infix ";;" := CSeq (at level 40, left associativity).

(** [[^\/]] *)
Definition not_slash (c : N) : bool := negb (c =? 47)%N.

(** [.]: any code unit but a line terminator. *)
Definition any_char (c : N) : bool :=
  negb ((c =? 10) || (c =? 13) || (c =? 8232) || (c =? 8233))%N.

(** [/^https:\/\/github\.com\/([^\/]+)\/([^\/]+)\/blob\/([^\/]+)\/(.+)$/] *)
Definition fileUrlPattern : cre :=
  CStr "https://github.com/" ;; CGroup 1 (CPlus not_slash) ;; CChr 47
  ;; CGroup 2 (CPlus not_slash) ;; CStr "/blob/"
  ;; CGroup 3 (CPlus not_slash) ;; CChr 47 ;; CGroup 4 (CPlus any_char)
  ;; CEnd.

(** [/^https:\/\/github\.com\/([^\/]+)\/([^\/]+?)(?:\.git)?(?:\/tree\/([^\/]+))?$/] *)
Definition repoUrlPattern : cre :=
  CStr "https://github.com/" ;; CGroup 1 (CPlus not_slash) ;; CChr 47
  ;; CGroup 2 (CLazyPlus not_slash) ;; COpt (CStr ".git")
  ;; COpt (CStr "/tree/" ;; CGroup 3 (CPlus not_slash)) ;; CEnd.

(** A captured text inside a template literal. *)
Definition text_of (o : option jsstring) : jsstring :=
  match o with
  | Some t => t
  | None => lit "undefined"
  end.

(** The address of the raw file, [None] for the answer 400
    [Invalid GitHub file URL.]. *)
Definition rawUrl (url : jsstring) : option jsstring :=
  match match_start fileUrlPattern url with
  | None => None
  | Some caps =>
      let owner := text_of (capture 1 caps) in
      let repo := text_of (capture 2 caps) in
      let branch := text_of (capture 3 caps) in
      let path := text_of (capture 4 caps) in
      Some (lit "https://raw.githubusercontent.com/" ++ owner ++ lit "/"
            ++ repo ++ lit "/" ++ branch ++ lit "/" ++ path)
  end.

(** [const [, owner, repo, branch = 'main'] = repoMatch], [None] for the
    answer 400 [Invalid GitHub repository URL.]. *)
Definition repository_of (url : jsstring)
    : option (jsstring * jsstring * jsstring) :=
  match match_start repoUrlPattern url with
  | None => None
  | Some caps =>
      Some (text_of (capture 1 caps), text_of (capture 2 caps),
            match capture 3 caps with
            | Some b => b
            | None => lit "main"
            end)
  end.

(** The first piece of a text, up to its first slash. *)
Fixpoint segment (s : jsstring) : jsstring :=
  match s with
  | [] => []
  | c :: s' => if not_slash c then c :: segment s' else []
  end.

(** The text after a greedy run: empty, or starting outside the class. *)
Definition stops (p : N -> bool) (rest : jsstring) : Prop :=
  match rest with
  | [] => True
  | c :: _ => p c = false
  end.

(** The optional endings of a repository address. *)
Definition git_tail (g : bool) : jsstring := if g then lit ".git" else [].

Definition tree_tail (b : option jsstring) : jsstring :=
  match b with
  | Some b' => lit "/tree/" ++ b'
  | None => []
  end.

(** The rest of the repository pattern after the repository name, and
    its last part. *)
Definition tree_part : ccont :=
  cre_match (COpt (CStr "/tree/" ;; CGroup 3 (CPlus not_slash)))
    (cre_match CEnd (fun _ caps => Some caps)).

Definition repo_tail : ccont :=
  cre_match (COpt (CStr ".git")) tree_part.

(** The branch of an address, [main] when it names none. *)
Definition branch_or_main (b : option jsstring) : jsstring :=
  match b with
  | Some b' => b'
  | None => lit "main"
  end.

(** A name of at least one code unit, none of them a slash. *)
Definition name_ok (n : jsstring) : Prop :=
  n <> [] /\ forallb not_slash n = true.

End Url.

(* ================================================================== *)
(** ** Properties of the analyzer                                      *)
(* ================================================================== *)

Module AnalyzerFacts.
Import JS Analyzer.

Lemma split_lines_nonempty (s : jsstring) : split_lines s <> [].
Proof.
  destruct s as [|c s]; simpl; [discriminate|].
  destruct (c =? 10)%N; [discriminate|].
  destruct (split_lines s); discriminate.
Qed.

Lemma totalLines_pos (s : jsstring) :
  1 <= Z.of_nat (List.length (split_lines s)).
Proof.
  pose proof (split_lines_nonempty s) as H.
  destruct (split_lines s); [congruence | simpl List.length; lia].
Qed.

Lemma matches_nonneg (r : regex) (s : jsstring) : 0 <= matches r s.
Proof. unfold matches; lia. Qed.

Lemma Math_max_0_cases (x : Q) :
  (x < 0 /\ Math_max 0 x = 0)%Q \/ (0 <= x /\ Math_max 0 x = x)%Q.
Proof.
  unfold Math_max. destruct (Qle_bool 0 x) eqn:E.
  - right. split; [now apply Qle_bool_iff | reflexivity].
  - left. split; [| reflexivity].
    apply Qnot_le_lt. intro H. apply Qle_bool_iff in H. congruence.
Qed.

Lemma Math_round_mono (x y : Q) : (x <= y)%Q -> Math_round x <= Math_round y.
Proof. intro H. apply Qfloor_resp_le. lra. Qed.

Lemma Math_round_ext (x y : Q) : (x == y)%Q -> Math_round x = Math_round y.
Proof. intro H. apply Z.le_antisymm; apply Math_round_mono; lra. Qed.

Lemma Math_round_range (x : Q) :
  (0 <= x)%Q -> (x <= 100)%Q -> 0 <= Math_round x <= 100.
Proof.
  intros H0 H1. split.
  - change 0 with (Math_round 0). now apply Math_round_mono.
  - change 100 with (Math_round 100). now apply Math_round_mono.
Qed.

Lemma Math_round_neg (x : Q) : (x < 0)%Q -> Math_round x <= 0.
Proof.
  intro H. change 0 with (Math_round 0). apply Math_round_mono. lra.
Qed.

Lemma inject_Z_nonneg (z : Z) : 0 <= z -> (0 <= inject_Z z)%Q.
Proof. intro H. change 0%Q with (inject_Z 0). now rewrite <- Zle_Qle. Qed.

Lemma inject_Z_ge_1 (z : Z) : 1 <= z -> (1 <= inject_Z z)%Q.
Proof. intro H. change 1%Q with (inject_Z 1). now rewrite <- Zle_Qle. Qed.

(** The arithmetic of the two rounded scores, for any counts the scan can
    produce: counts are not negative and there is at least one line. *)
Section Scores.
Variables c f l : Z.
Hypothesis Hc : 0 <= c.
Hypothesis Hf : 0 <= f.
Hypothesis Hl : 1 <= l.

Let raw : Q := (100 - inject_Z c * 2 - inject_Z f * 1.5 - inject_Z l * 0.1)%Q.

Lemma raw_below_100 : (raw <= 100)%Q.
Proof.
  pose proof (inject_Z_nonneg c Hc). pose proof (inject_Z_nonneg f Hf).
  pose proof (inject_Z_ge_1 l Hl). unfold raw. lra.
Qed.

Lemma maintainability_range : 0 <= Math_round (Math_max 0 raw) <= 100.
Proof.
  pose proof raw_below_100.
  destruct (Math_max_0_cases raw) as [[Hx ->] | [Hx ->]].
  - apply Math_round_range; lra.
  - now apply Math_round_range.
Qed.

Lemma maintainability_clamp :
  Math_round (Math_max 0 raw) = spec_maintainabilityIndex c f l.
Proof.
  pose proof raw_below_100 as Hr.
  unfold spec_maintainabilityIndex, clamp.
  rewrite (Math_round_ext
             (100 - 2 * inject_Z c - 1.5 * inject_Z f - 0.1 * inject_Z l) raw)
    by (unfold raw; lra).
  destruct (Math_max_0_cases raw) as [[Hx ->] | [Hx ->]].
  - pose proof (Math_round_neg raw Hx). change (Math_round 0) with 0. lia.
  - pose proof (Math_round_range raw Hx Hr). lia.
Qed.
End Scores.

Lemma performance_range (i f w : Z) :
  0 <= i -> 0 <= f -> 0 <= w ->
  0 <= Math_round (Math_max 0 (100 - inject_Z f * 5 - inject_Z w * 5
                               - inject_Z i * 2)%Q) <= 100.
Proof.
  intros Hi Hf Hw.
  pose proof (inject_Z_nonneg i Hi). pose proof (inject_Z_nonneg f Hf).
  pose proof (inject_Z_nonneg w Hw).
  match goal with |- context [Math_max 0 ?x] =>
    destruct (Math_max_0_cases x) as [[Hx ->] | [Hx ->]]
  end; apply Math_round_range; lra.
Qed.

Lemma complexityScore_nonneg (s : jsstring) :
  0 <= complexityScore (metrics (analyzeCodeComplexity s)).
Proof.
  simpl.
  pose proof (matches_nonneg ifPattern s). pose proof (matches_nonneg forPattern s).
  pose proof (matches_nonneg whilePattern s).
  pose proof (matches_nonneg switchPattern s).
  pose proof (matches_nonneg tryCatchPattern s). lia.
Qed.

Lemma push_if_length {A : Type} (b : bool) (x : A) (l : list A) :
  List.length (push_if b x l) = (List.length l + (if b then 1 else 0))%nat.
Proof. destruct b; simpl; [rewrite length_app; reflexivity | lia]. Qed.

Lemma issues_length (s : jsstring) :
  (List.length (issues (security (analyzeCodeComplexity s))) <= 3)%nat.
Proof.
  simpl. rewrite !push_if_length. simpl.
  destruct (includes _ s), (includes _ s), (includes _ s); simpl; lia.
Qed.

Lemma score_formula (s : jsstring) :
  score (security (analyzeCodeComplexity s)) =
  Z.max 0 (100 - Z.of_nat (List.length (issues (security (analyzeCodeComplexity s)))) * 20).
Proof. reflexivity. Qed.

(** C1: for every input the maintainability index, the performance score
    and the security score of [analyzeCodeComplexity] are integers between
    0 and 100. *)
Theorem scores_within_0_100 (s : jsstring) :
  let r := analyzeCodeComplexity s in
  0 <= maintainabilityIndex (metrics r) <= 100
  /\ 0 <= performanceScore (metrics r) <= 100
  /\ 0 <= score (security r) <= 100.
Proof.
  cbv zeta. split; [| split].
  - apply maintainability_range.
    + apply (complexityScore_nonneg s).
    + apply matches_nonneg.
    + apply totalLines_pos.
  - apply performance_range; apply matches_nonneg.
  - rewrite score_formula. lia.
Qed.

Lemma maintainabilityIndex_unfold (s : jsstring) :
  let m := metrics (analyzeCodeComplexity s) in
  maintainabilityIndex m
  = maintainability_Q (complexityScore m) (functionCount m) (totalLines m).
Proof.
  unfold maintainability_Q, analyzeCodeComplexity. cbv zeta.
  cbn [metrics maintainabilityIndex complexityScore functionCount totalLines].
  reflexivity.
Qed.

(** C5: for every input the maintainability index is
    clamp(0, 100, round(100 - 2*complexityScore - 1.5*functionCount
    - 0.1*totalLines)), the formula [spec_maintainabilityIndex], of the
    counts the analyzer reports for that input. *)
Theorem maintainabilityIndex_is_clamped_formula (s : jsstring) :
  let m := metrics (analyzeCodeComplexity s) in
  maintainabilityIndex m
  = spec_maintainabilityIndex (complexityScore m) (functionCount m)
      (totalLines m).
Proof.
  cbv zeta. rewrite maintainabilityIndex_unfold. unfold maintainability_Q.
  apply maintainability_clamp.
  - apply (complexityScore_nonneg s).
  - apply matches_nonneg.
  - apply totalLines_pos.
Qed.

(** C9: for every input the security score is one of 100, 80, 60 and 40, so
    at least 40: the catalog has three sinks and the floor at 0 is never
    reached. *)
Theorem security_score_at_least_40 (s : jsstring) :
  let sc := score (security (analyzeCodeComplexity s)) in
  List.length catalog = 3%nat
  /\ (sc = 100 \/ sc = 80 \/ sc = 60 \/ sc = 40)
  /\ 40 <= sc
  /\ sc = 100 - 20 * Z.of_nat (List.length (issues (security (analyzeCodeComplexity s)))).
Proof.
  cbv zeta. rewrite score_formula.
  pose proof (issues_length s) as H.
  split; [reflexivity|]. lia.
Qed.


Lemma includes_occurrences (needle s : jsstring) :
  includes needle s = (0 <? occurrences needle s)%nat.
Proof.
  induction s as [|c s IH]; simpl.
  - destruct (startsWith needle []); reflexivity.
  - rewrite IH. destruct (startsWith needle (c :: s)); reflexivity.
Qed.

Lemma issues_unfold (s : jsstring) :
  issues (security (analyzeCodeComplexity s)) =
  push_if (0 <? occurrences (lit "document.write") s)%nat
    (lit "document.write usage detected")
    (push_if (0 <? occurrences (lit "innerHTML") s)%nat
       (lit "innerHTML usage detected")
       (push_if (0 <? occurrences (lit "eval(") s)%nat
          (lit "eval() usage detected") [])).
Proof. rewrite <- !includes_occurrences. reflexivity. Qed.

Ltac sink_cases e i d :=
  destruct e as [|e]; destruct i as [|i]; destruct d as [|d];
  vm_compute; try reflexivity; try discriminate.

(** C3: every sink of the catalog that occurs in the input adds exactly one
    entry to [security.issues], however often it occurs, and nothing else is
    added; [security.score] is clamp(0, 100, 100 - 20 * number of issues);
    an input with one occurrence of [eval(] and no other sink has one issue
    and the score 80. *)
Theorem security_one_issue_per_sink (s : jsstring) :
  let sec := security (analyzeCodeComplexity s) in
  (forall sink msg, In (sink, msg) catalog ->
     count_occ jsstring_eq_dec (issues sec) msg
     = Nat.min 1 (occurrences sink s))
  /\ (forall msg, In msg (issues sec) -> exists sink, In (sink, msg) catalog)
  /\ NoDup (issues sec)
  /\ score sec = clamp 0 100 (100 - 20 * Z.of_nat (List.length (issues sec)))
  /\ (occurrences (lit "eval(") s = 1%nat ->
      occurrences (lit "innerHTML") s = 0%nat ->
      occurrences (lit "document.write") s = 0%nat ->
      issues sec = [lit "eval() usage detected"]
      /\ List.length (issues sec) = 1%nat /\ score sec = 80).
Proof.
  cbv zeta. rewrite score_formula. unfold clamp.
  pose proof (issues_length s) as Hlen.
  rewrite issues_unfold in *.
  set (e := occurrences (lit "eval(") s) in *.
  set (i := occurrences (lit "innerHTML") s) in *.
  set (d := occurrences (lit "document.write") s) in *.
  split; [| split; [| split; [| split]]].
  - intros sink msg Hin. unfold catalog, In in Hin.
    destruct Hin as [H | [H | [H | []]]]; injection H as <- <-;
      fold e; fold i; fold d; clearbody e i d; clear Hlen;
      sink_cases e i d.
  - intros msg Hin. clearbody e i d. clear Hlen.
    assert (Hm : msg = lit "eval() usage detected"
                 \/ msg = lit "innerHTML usage detected"
                 \/ msg = lit "document.write usage detected").
    { destruct e, i, d; simpl in Hin; intuition. }
    destruct Hm as [-> | [-> | ->]];
      [ exists (lit "eval(") | exists (lit "innerHTML")
      | exists (lit "document.write") ]; unfold catalog, In; auto.
  - clearbody e i d. clear Hlen.
    destruct e, i, d; simpl;
      repeat (constructor; [vm_compute; intuition discriminate|]);
      constructor.
  - lia.
  - intros He Hi Hd. rewrite He, Hi, Hd. vm_compute. auto.
Qed.

Lemma security_one_issue_per_sink_witness :
  issues (security (analyzeCodeComplexity (lit "x = eval(y)")))
  = [lit "eval() usage detected"]
  /\ score (security (analyzeCodeComplexity (lit "x = eval(y)"))) = 80.
Proof.
  destruct (security_one_issue_per_sink (lit "x = eval(y)"))
    as (_ & _ & _ & _ & H).
  destruct H as (H1 & _ & H2); [reflexivity | reflexivity | reflexivity |].
  split; assumption.
Defined.

(** C4: on the empty string the analyzer reports one line, every count 0,
    maintainability 100, performance 100, comment ratio 0 and no security
    issue; and it is a total function, so it returns a result for every
    input string. *)
Theorem analyze_empty_string :
  analyzeCodeComplexity [] =
  {| metrics :=
       {| totalLines := 1; nonEmptyLines := 0; commentLines := 0;
          functionCount := 0; complexityScore := 0;
          maintainabilityIndex := 100; performanceScore := 100;
          codeToCommentRatio := 0 |};
     complexity :=
       {| ifStatements := 0; forLoops := 0; whileLoops := 0;
          switchStatements := 0; tryCatchBlocks := 0 |};
     security := {| issues := []; score := 100 |};
     recommendations :=
       [lit "Code quality looks good! Keep up the good practices"] |}
  /\ forall s : jsstring, exists r : AnalysisResult,
       analyzeCodeComplexity s = r
       /\ 1 <= totalLines (metrics r)
       /\ recommendations r <> [].
Proof.
  split; [vm_compute; reflexivity|].
  intro s. eexists. split; [reflexivity|]. split.
  - apply totalLines_pos.
  - simpl recommendations. unfold generateRecommendations. cbv zeta.
    match goal with |- push_if ?b _ ?l <> [] =>
      generalize l; intros l'; destruct l'; simpl;
      [discriminate | destruct (List.length l' =? 0)%nat; discriminate]
    end.
Qed.

(** The analyzer on a small program: four function-like constructs, one
    [if], one [for], a [try] and a [catch], one comment among four lines. *)
Example analyze_sample_program :
  metrics (analyzeCodeComplexity sample_program) =
  {| totalLines := 4; nonEmptyLines := 4; commentLines := 1;
     functionCount := 4; complexityScore := 7;
     maintainabilityIndex := 80; performanceScore := 93;
     codeToCommentRatio := 25 |}
  /\ complexity (analyzeCodeComplexity sample_program) =
     {| ifStatements := 1; forLoops := 1; whileLoops := 0;
        switchStatements := 0; tryCatchBlocks := 2 |}
  /\ score (security (analyzeCodeComplexity sample_program)) = 80.
Proof. repeat split; vm_compute; reflexivity. Qed.

(** Thousands of branching keywords on one line, and one very long line. *)
Example analyze_pathological :
  (let m := metrics (analyzeCodeComplexity many_branches) in
   complexityScore m = 500 /\ maintainabilityIndex m = 0
   /\ performanceScore m = 0)
  /\ (let m := metrics (analyzeCodeComplexity long_line) in
      totalLines m = 1 /\ maintainabilityIndex m = 100
      /\ performanceScore m = 100).
Proof. vm_compute. repeat split; reflexivity. Qed.

(** The maintainability formula in binary64, operation by operation, gives
    the rational result on the sample counts. *)
Example maintainability_b64_agrees :
  forallb (fun '(c, f, l) => maintainability_b64 c f l =? maintainability_Q c f l)
    b64_samples = true.
Proof. vm_compute. reflexivity. Qed.

(** The comment ratio is rounded from the binary64 product: 29 comment lines
    out of 200 give 14, where the exact quotient 14.5 would round to 15. *)
Example ratio_29_of_200 : ratio 29 200 = 14 /\ ratio 1 8 = 13.
Proof. split; vm_compute; reflexivity. Qed.

End AnalyzerFacts.

(* ================================================================== *)
(** ** Properties of the evolution store                               *)
(* ================================================================== *)

Module StoreFacts.
Import JS Evolution.

Lemma jsstring_eqb_refl (a : jsstring) : jsstring_eqb a a = true.
Proof. unfold jsstring_eqb. destruct (jsstring_eq_dec a a); congruence. Qed.

Lemma jsstring_eqb_eq (a b : jsstring) : jsstring_eqb a b = true <-> a = b.
Proof.
  unfold jsstring_eqb. destruct (jsstring_eq_dec a b); split; congruence.
Qed.

Lemma strict_eqb_eq (v : jsvalue) (s : jsstring) :
  strict_eqb v s = true <-> v = Str s.
Proof.
  destruct v as [s'|k]; simpl.
  - rewrite jsstring_eqb_eq. split; congruence.
  - split; discriminate.
Qed.

Lemma stored_write (c : file_content) (d : disk) (tr : list fs_call) :
  stored {| files := write_file EVOLUTION_DB_PATH c d; calls := tr |} = Some c.
Proof.
  unfold stored, write_file; cbn [files]. now rewrite jsstring_eqb_refl.
Qed.

Lemma stored_called (c : fs_call) (w : world) : stored (called c w) = stored w.
Proof. reflexivity. Qed.

(** What [loadEvolutionData] does in each state of the store file. *)
Lemma load_missing (w : world) :
  stored w = None ->
  loadEvolutionData w = (inr [], called (ExistsSync EVOLUTION_DB_PATH) w).
Proof.
  intro H. unfold loadEvolutionData, bind, existsSync.
  unfold stored in H. rewrite H. reflexivity.
Qed.

Lemma load_intact (w : world) (d : list Snapshot) :
  stored w = Some (Intact d) ->
  loadEvolutionData w =
  (inr d, called (ReadFileSync EVOLUTION_DB_PATH)
            (called (ExistsSync EVOLUTION_DB_PATH) w)).
Proof.
  intro H. unfold loadEvolutionData, bind, existsSync, readFileSync.
  unfold stored in H. rewrite H. simpl. rewrite H. reflexivity.
Qed.

Lemma load_torn (w : world) :
  stored w = Some Torn ->
  loadEvolutionData w =
  (inl SyntaxError, called (ReadFileSync EVOLUTION_DB_PATH)
                      (called (ExistsSync EVOLUTION_DB_PATH) w)).
Proof.
  intro H. unfold loadEvolutionData, bind, existsSync, readFileSync.
  unfold stored in H. rewrite H. simpl. rewrite H. reflexivity.
Qed.

Lemma load_readable (w : world) :
  readable w ->
  exists w', loadEvolutionData w = (inr (contents w), w')
             /\ stored w' = stored w
             /\ (calls w' = calls w ++ [ExistsSync EVOLUTION_DB_PATH]
                 \/ calls w' = calls w ++ [ExistsSync EVOLUTION_DB_PATH;
                                           ReadFileSync EVOLUTION_DB_PATH]).
Proof.
  intros [H | [d H]].
  - exists (called (ExistsSync EVOLUTION_DB_PATH) w).
    rewrite (load_missing w H). unfold contents. rewrite H.
    split; [reflexivity|]. split; [now rewrite stored_called|].
    left. reflexivity.
  - exists (called (ReadFileSync EVOLUTION_DB_PATH)
              (called (ExistsSync EVOLUTION_DB_PATH) w)).
    rewrite (load_intact w d H). unfold contents. rewrite H.
    split; [reflexivity|]. split; [now rewrite !stored_called|].
    right. simpl. rewrite <- app_assoc. reflexivity.
Qed.

Lemma readable_store (st : option (list Snapshot)) : readable (store st).
Proof.
  destruct st as [d|]; [right; exists d | left]; unfold store.
  - apply stored_write.
  - reflexivity.
Qed.

Lemma contents_store (st : option (list Snapshot)) :
  contents (store st) = match st with Some d => d | None => [] end.
Proof.
  destruct st as [d|]; unfold contents, store.
  - now rewrite stored_write.
  - reflexivity.
Qed.

Lemma truthy_iff (r : jsvalue) : truthy (Some r) = true <-> r <> Str [].
Proof.
  destruct r as [[|c s]|k]; simpl; split; intro H;
    congruence || discriminate || reflexivity.
Qed.

Lemma accepted_inv (b : RecordBody) :
  accepted b = true ->
  exists r m,
    body_repo b = Some r /\ r <> Str [] /\ body_metrics b = Some m.
Proof.
  unfold accepted. destruct (body_repo b) as [r|]; [|discriminate].
  destruct (truthy (Some r)) eqn:Hr; [|discriminate].
  destruct (body_metrics b) as [m|]; simpl; try discriminate.
  intros _. exists r, m. split; [reflexivity|].
  split; [now apply truthy_iff | reflexivity].
Qed.

Lemma record_rejected (b : RecordBody) (now : Z) (w : world) :
  accepted b = false ->
  record b now w = (Status400 (lit "Missing repo or metrics."), w).
Proof.
  unfold accepted, record, express, record_handler.
  destruct (body_repo b) as [r|]; [|reflexivity].
  destruct (truthy (Some r)); simpl.
  - destruct (body_metrics b); simpl; [discriminate | reflexivity].
  - destruct (body_metrics b); reflexivity.
Qed.

Lemma record_accepted (b : RecordBody) (now : Z) (w : world)
    (r : jsvalue) (m : SnapMetrics) :
  body_repo b = Some r -> r <> Str [] -> body_metrics b = Some m ->
  readable w ->
  exists w',
    record b now w = (Json_success, w')
    /\ stored w' = Some (Intact (contents w ++ [recorded b r m now]))
    /\ exists pre,
         calls w' = calls w ++ pre
                    ++ [WriteFileSync EVOLUTION_DB_PATH
                          (contents w ++ [recorded b r m now])]
         /\ (pre = [ExistsSync EVOLUTION_DB_PATH]
             \/ pre = [ExistsSync EVOLUTION_DB_PATH;
                       ReadFileSync EVOLUTION_DB_PATH]).
Proof.
  intros Hr Hne Hm Hw. apply truthy_iff in Hne.
  destruct (load_readable w Hw) as (w1 & Hload & Hst & Hcalls).
  unfold record, express, record_handler. rewrite Hr, Hm, Hne.
  unfold bind. rewrite Hload. unfold saveEvolutionData, writeFileSync, ret.
  eexists. split; [reflexivity|]. split; [apply stored_write|].
  simpl calls.
  destruct Hcalls as [-> | ->];
    [ exists [ExistsSync EVOLUTION_DB_PATH]
    | exists [ExistsSync EVOLUTION_DB_PATH; ReadFileSync EVOLUTION_DB_PATH] ];
    (split; [rewrite <- !app_assoc; reflexivity | auto]).
Qed.


Lemma accepted_false_iff (b : RecordBody) :
  accepted b = false <->
  body_repo b = None \/ body_repo b = Some (Str []) \/ body_metrics b = None.
Proof.
  unfold accepted.
  destruct (body_repo b) as [[[|c r]|k]|], (body_metrics b) as [m|]; simpl;
    intuition congruence.
Qed.

Lemma readable_after_record (b : RecordBody) (now : Z) (w : world) :
  readable w -> readable (snd (record b now w)).
Proof.
  intro Hw. destruct (accepted b) eqn:Ha.
  - destruct (accepted_inv b Ha) as (r & m & Hr & Hne & Hm).
    destruct (record_accepted b now w r m Hr Hne Hm Hw)
      as (w' & -> & Hst & _).
    right. eexists. exact Hst.
  - now rewrite (record_rejected b now w Ha).
Qed.

Lemma contents_of_stored (w : world) (d : list Snapshot) :
  stored w = Some (Intact d) -> contents w = d.
Proof. unfold contents. now intros ->. Qed.

Lemma count_occ_snoc (l : list Snapshot) (x : Snapshot) :
  count_occ Snapshot_eq_dec (l ++ [x]) x = S (count_occ Snapshot_eq_dec l x).
Proof.
  rewrite count_occ_app. simpl.
  destruct (Snapshot_eq_dec x x); [lia | congruence].
Qed.

(** C7: [record] answers with the validation error exactly when [repo] is
    missing or empty or [metrics] is absent, and then leaves the store as it
    was; otherwise it appends the snapshot, with the time of the call as
    timestamp when the caller gave none, whether or not an equal snapshot
    is already stored: the stored copies are one more. *)
Theorem record_validates_then_appends (b : RecordBody) (now : Z) (w : world)
    (Hw : readable w) :
  let out := record b now w in
  let invalid :=
    body_repo b = None \/ body_repo b = Some (Str []) \/ body_metrics b = None in
  ((exists e, fst out = Status400 e) <-> invalid)
  /\ (invalid -> snd out = w)
  /\ (~ invalid ->
      exists r m snap,
        body_repo b = Some r /\ body_metrics b = Some m
        /\ fst out = Json_success
        /\ stored (snd out) = Some (Intact (contents w ++ [snap]))
        /\ repo snap = r /\ commit snap = body_commit b
        /\ metrics snap = m /\ file snap = body_file b
        /\ (body_timestamp b = None -> timestamp snap = now)
        /\ (forall t, body_timestamp b = Some t -> t <> 0 -> timestamp snap = t)
        /\ count_occ Snapshot_eq_dec (contents (snd out)) snap
           = S (count_occ Snapshot_eq_dec (contents w) snap)).
Proof.
  cbv zeta. rewrite <- accepted_false_iff.
  destruct (accepted b) eqn:Ha.
  - destruct (accepted_inv b Ha) as (r & m & Hr & Hne & Hm).
    destruct (record_accepted b now w r m Hr Hne Hm Hw)
      as (w' & Hrec & Hst & _).
    rewrite Hrec. cbn [fst snd].
    split; [| split].
    + split; [intros [e He]; discriminate | discriminate].
    + discriminate.
    + intros _. exists r, m, (recorded b r m now).
      repeat split; try assumption.
      * unfold recorded; cbn [timestamp]. now intros ->.
      * intros t Ht Hnz. unfold recorded; cbn [timestamp]. rewrite Ht.
        cbn [or_number]. destruct (Z.eqb_spec t 0); congruence.
      * rewrite (contents_of_stored _ _ Hst). apply count_occ_snoc.
  - rewrite (record_rejected b now w Ha). cbn [fst snd].
    split; [| split].
    + split; [reflexivity | intros _; eexists; reflexivity].
    + reflexivity.
    + congruence.
Qed.

Lemma record_validates_then_appends_witness :
  exists snap,
    stored (snd (record (sample_body None) 1700000000000 (store None)))
    = Some (Intact [snap])
    /\ timestamp snap = 1700000000000.
Proof.
  destruct (record_validates_then_appends (sample_body None) 1700000000000
              (store None) (readable_store None)) as (_ & _ & H).
  destruct H as (r & m & snap & _ & _ & _ & Hst & _ & _ & _ & _ & Hts & _).
  - intros [H | [H | H]]; discriminate.
  - exists snap. split; [exact Hst | apply Hts; reflexivity].
Defined.

(** C10: a timestamp of 0 in the request counts as no timestamp: the time
    of the call is stored, as for a request without the field; so when the
    clock never reads 0, no sequence of [record] calls stores a snapshot
    with timestamp 0. *)
Theorem record_zero_timestamp_replaced :
  (forall (b : RecordBody) (now : Z) (w : world) (r : jsvalue) (m : SnapMetrics),
     readable w -> body_repo b = Some r -> r <> Str [] ->
     body_metrics b = Some m ->
     body_timestamp b = Some 0 \/ body_timestamp b = None ->
     stored (snd (record b now w))
     = Some (Intact (contents w ++
          [ {| repo := r; commit := body_commit b; timestamp := now;
               metrics := m; file := body_file b |} ])))
  /\ (forall (reqs : list (RecordBody * Z)) (w : world),
        readable w ->
        Forall (fun s => timestamp s <> 0) (contents w) ->
        Forall (fun req => snd req <> 0) reqs ->
        Forall (fun s => timestamp s <> 0) (contents (record_all reqs w))).
Proof.
  split.
  - intros b now w r m Hw Hr Hne Hm Hts.
    destruct (record_accepted b now w r m Hr Hne Hm Hw) as (w' & -> & Hst & _).
    cbn [snd]. rewrite Hst. unfold recorded.
    destruct Hts as [-> | ->]; reflexivity.
  - induction reqs as [|[b now] reqs IH]; intros w Hw Hall Hnow.
    + exact Hall.
    + cbn [record_all]. inversion Hnow as [|? ? Hn Hrest]; subst.
      apply IH; [now apply readable_after_record | | exact Hrest].
      destruct (accepted b) eqn:Ha.
      * destruct (accepted_inv b Ha) as (r & m & Hr & Hne & Hm).
        destruct (record_accepted b now w r m Hr Hne Hm Hw)
          as (w' & -> & Hst & _).
        cbn [snd]. rewrite (contents_of_stored _ _ Hst).
        apply Forall_app. split; [exact Hall|].
        constructor; [| constructor].
        unfold recorded; cbn [timestamp]. cbn [snd] in Hn.
        destruct (body_timestamp b) as [t|]; cbn [or_number]; [| exact Hn].
        destruct (Z.eqb_spec t 0); assumption.
      * now rewrite (record_rejected b now w Ha).
Qed.

Lemma record_zero_timestamp_replaced_witness :
  stored (snd (record (sample_body (Some 0)) 1700000000000 (store None)))
  = Some (Intact [ {| repo := Str (lit "octo/app"); commit := None;
                      timestamp := 1700000000000;
                      metrics := sample_metrics;
                      file := Some (Str (lit "src/index.ts")) |} ])
  /\ Forall (fun s => timestamp s <> 0)
       (contents (record_all [(sample_body (Some 0), 1700000000000);
                              (sample_body (Some 5), 1700000000001)]
                    (store None))).
Proof.
  destruct record_zero_timestamp_replaced as [H1 H2]. split.
  - apply (H1 (sample_body (Some 0)) 1700000000000 (store None)
              (Str (lit "octo/app")) sample_metrics).
    + apply readable_store.
    + reflexivity.
    + discriminate.
    + reflexivity.
    + left; reflexivity.
  - apply H2.
    + apply readable_store.
    + constructor.
    + repeat constructor; discriminate.
Defined.


Lemma count_occ_filter (p : Snapshot -> bool) (l : list Snapshot) (x : Snapshot) :
  count_occ Snapshot_eq_dec (filter p l) x
  = if p x then count_occ Snapshot_eq_dec l x else 0%nat.
Proof.
  induction l as [|y l IH]; simpl.
  - now destruct (p x).
  - destruct (p y) eqn:Hy; simpl; destruct (Snapshot_eq_dec y x) as [->|Hne];
      rewrite ?IH, ?Hy; try reflexivity.
Qed.

Lemma timeline_readable (w : world) (r : jsstring) (q : option jsstring) :
  readable w -> r <> [] ->
  fst (timeline (Some r) q w)
  = Json_timeline (filter (timeline_filter r q) (contents w)).
Proof.
  intros Hw Hne. destruct r as [|c r]; [congruence|].
  destruct (load_readable w Hw) as (w1 & Hload & _).
  unfold timeline, express, timeline_handler, bind. rewrite Hload.
  reflexivity.
Qed.

Lemma timeline_filter_recorded (b : RecordBody) (r : jsstring) (m : SnapMetrics)
    (now : Z) (q : option jsstring) :
  q = None \/ option_map Str q = body_file b ->
  timeline_filter r q (recorded b (Str r) m now) = true.
Proof.
  intros Hq. unfold timeline_filter, recorded. cbn [repo file strict_eqb].
  rewrite jsstring_eqb_refl. cbn [andb].
  destruct Hq as [-> | <-]; [reflexivity|].
  destruct q as [[|c f]|]; try reflexivity.
  cbn [option_map option_strict_eqb strict_eqb]. apply jsstring_eqb_refl.
Qed.

Lemma timeline_strings_only (r : jsstring) (q : option jsstring)
    (snap : Snapshot) :
  timeline_filter r q snap = true -> repo snap = Str r.
Proof.
  unfold timeline_filter. intro H. apply andb_true_iff in H.
  destruct H as [H _]. now apply strict_eqb_eq.
Qed.

(** For a repository given as a string, with the file, if any, given as a
    string: after a successful [record], the timeline of the same
    repository, asked without a file or with the file of the snapshot,
    contains the recorded snapshot exactly once, when the store did not
    hold it before. *)
Theorem record_then_timeline (b : RecordBody) (now : Z) (w : world)
    (r : jsstring) (m : SnapMetrics) (q : option jsstring) :
  readable w ->
  body_repo b = Some (Str r) -> r <> [] -> body_metrics b = Some m ->
  ~ In (recorded b (Str r) m now) (contents w) ->
  q = None \/ option_map Str q = body_file b ->
  fst (record b now w) = Json_success
  /\ exists l,
       fst (timeline (Some r) q (snd (record b now w))) = Json_timeline l
       /\ count_occ Snapshot_eq_dec l (recorded b (Str r) m now) = 1%nat.
Proof.
  intros Hw Hr Hne Hm Hnew Hq.
  assert (Hne' : Str r <> Str []) by congruence.
  destruct (record_accepted b now w (Str r) m Hr Hne' Hm Hw)
    as (w' & Hrec & Hst & _).
  rewrite Hrec. cbn [fst snd]. split; [reflexivity|].
  assert (Hw' : readable w') by (right; eexists; exact Hst).
  rewrite (timeline_readable w' r q Hw' Hne).
  eexists. split; [reflexivity|].
  rewrite count_occ_filter, (timeline_filter_recorded b r m now q Hq).
  rewrite (contents_of_stored _ _ Hst), count_occ_snoc.
  apply (count_occ_not_In Snapshot_eq_dec) in Hnew. now rewrite Hnew.
Qed.

Lemma record_then_timeline_witness :
  exists l,
    fst (timeline (Some (lit "octo/app")) (Some (lit "src/index.ts"))
           (snd (record (sample_body (Some 42)) 1700000000000 (store None))))
    = Json_timeline l
    /\ count_occ Snapshot_eq_dec l
         (recorded (sample_body (Some 42)) (Str (lit "octo/app"))
            sample_metrics 1700000000000) = 1%nat.
Proof.
  apply (record_then_timeline (sample_body (Some 42)) 1700000000000
           (store None) (lit "octo/app") sample_metrics
           (Some (lit "src/index.ts"))).
  - apply readable_store.
  - reflexivity.
  - discriminate.
  - reflexivity.
  - simpl. tauto.
  - right. reflexivity.
Defined.

(** A value in the place of [repo] that is truthy and not a string is
    accepted and stored by [record], and no query finds the snapshot again:
    whatever repository and file the timeline is asked for, the recorded
    snapshot is not in the answer. *)
Lemma record_non_string_lost (b : RecordBody) (now : Z) (w : world)
    (k : option jsstring) (m : SnapMetrics) (r : jsstring)
    (q : option jsstring) :
  readable w -> body_repo b = Some (NotStr k) -> body_metrics b = Some m ->
  r <> [] ->
  fst (record b now w) = Json_success
  /\ In (recorded b (NotStr k) m now) (contents (snd (record b now w)))
  /\ exists l,
       fst (timeline (Some r) q (snd (record b now w))) = Json_timeline l
       /\ ~ In (recorded b (NotStr k) m now) l.
Proof.
  intros Hw Hr Hm Hne.
  assert (Hne' : NotStr k <> Str []) by discriminate.
  destruct (record_accepted b now w (NotStr k) m Hr Hne' Hm Hw)
    as (w' & Hrec & Hst & _).
  rewrite Hrec. cbn [fst snd]. split; [reflexivity|].
  rewrite (contents_of_stored _ _ Hst). split.
  - apply in_or_app. right. now left.
  - assert (Hw' : readable w') by (right; eexists; exact Hst).
    rewrite (timeline_readable w' r q Hw' Hne).
    eexists. split; [reflexivity|]. intro Hin.
    apply filter_In in Hin. destruct Hin as [_ Hf].
    apply timeline_strings_only in Hf. discriminate Hf.
Qed.

(** C6 on a number in the place of [repo]: [record] answers the body
    [{ repo: 123, timestamp: 42, metrics }] with success and stores the
    snapshot, and the timeline asked for the repository [123] right after,
    where the parameter of the query is the string [123], is empty: [===]
    finds no stored number equal to a string. *)
Theorem record_numeric_repo_not_in_timeline :
  let out := record numeric_body 1700000000000 (store None) in
  let snap := recorded numeric_body (NotStr (Some (lit "123")))
                sample_metrics 1700000000000 in
  fst out = Json_success
  /\ contents (snd out) = [snap]
  /\ timestamp snap = 42
  /\ fst (timeline (Some (lit "123")) None (snd out)) = Json_timeline [].
Proof. cbv zeta. repeat split; vm_compute; reflexivity. Qed.

Lemma atomic_replace_in_place (pre : list fs_call) (data : list Snapshot) :
  pre = [ExistsSync EVOLUTION_DB_PATH]
  \/ pre = [ExistsSync EVOLUTION_DB_PATH; ReadFileSync EVOLUTION_DB_PATH] ->
  atomic_replace (pre ++ [WriteFileSync EVOLUTION_DB_PATH data]) = false.
Proof. intros [-> | ->]; reflexivity. Qed.

Lemma timeline_torn (w : world) (r q : option jsstring) :
  stored w = Some Torn -> truthy_string r = true ->
  fst (timeline r q w) = Status500.
Proof.
  intros Hw Hr. destruct r as [[|c r]|]; try discriminate.
  unfold timeline, express, timeline_handler, bind.
  now rewrite (load_torn w Hw).
Qed.

(** C8, as the code has it: the one durable write of an accepted [record]
    is a single [fs.writeFileSync] of the whole new array (the stored
    snapshots, then the new one) onto the store file itself, after the
    existence test and the read; no other path is written and nothing is
    renamed, so the calls do not follow the replace-on-write discipline.
    When the write completes the store file holds the new array; when the
    process stops inside it the file is cut short and a reader gets an
    error instead of the snapshots stored before. *)
Theorem record_overwrites_store_in_place (b : RecordBody) (now : Z) (w : world)
    (r : jsvalue) (m : SnapMetrics) :
  readable w ->
  body_repo b = Some r -> r <> Str [] -> body_metrics b = Some m ->
  let data := contents w ++ [recorded b r m now] in
  (exists pre,
     calls (snd (record b now w))
     = calls w ++ pre ++ [WriteFileSync EVOLUTION_DB_PATH data]
     /\ (pre = [ExistsSync EVOLUTION_DB_PATH]
         \/ pre = [ExistsSync EVOLUTION_DB_PATH; ReadFileSync EVOLUTION_DB_PATH])
     /\ atomic_replace (pre ++ [WriteFileSync EVOLUTION_DB_PATH data]) = false)
  /\ stored (snd (record b now w)) = Some (Intact data)
  /\ (exists wi,
        record_interrupted b now w = Some wi
        /\ stored wi = Some Torn
        /\ forall (r' : jsstring) q,
             r' <> [] -> fst (timeline (Some r') q wi) = Status500).
Proof.
  intros Hw Hr Hne Hm. cbv zeta.
  destruct (record_accepted b now w r m Hr Hne Hm Hw)
    as (w' & Hrec & Hst & pre & Hcalls & Hpre).
  rewrite Hrec. cbn [snd]. split; [| split].
  - exists pre. split; [exact Hcalls|]. split; [exact Hpre|].
    now apply atomic_replace_in_place.
  - exact Hst.
  - destruct (load_readable w Hw) as (w1 & Hload & _).
    unfold record_interrupted. rewrite Hr, Hm, Hload.
    rewrite (proj2 (truthy_iff r) Hne).
    eexists. split; [reflexivity|].
    assert (Ht : stored (writeFileSync_interrupted EVOLUTION_DB_PATH
                           (contents w ++ [recorded b r m now]) w1)
                 = Some Torn) by apply stored_write.
    split; [exact Ht|]. intros r' q Hr'. apply timeline_torn; [exact Ht|].
    destruct r'; [congruence | reflexivity].
Qed.

Lemma record_overwrites_store_in_place_witness :
  stored (snd (record (sample_body (Some 42)) 1700000000000 (store None)))
  = Some (Intact [recorded (sample_body (Some 42)) (Str (lit "octo/app"))
                    sample_metrics 1700000000000]).
Proof.
  apply (record_overwrites_store_in_place (sample_body (Some 42))
           1700000000000 (store None) (Str (lit "octo/app")) sample_metrics).
  - apply readable_store.
  - reflexivity.
  - discriminate.
  - reflexivity.
Defined.

(** C8, as stated, fails: with one snapshot stored, an accepted [record]
    writes the new array straight onto the store file, with no temporary
    file and no rename; stopped inside that write, the store file is cut
    short and the timeline of the snapshot stored before answers 500. *)
Lemma record_is_not_atomic_replace :
  let old := recorded (sample_body (Some 42)) (Str (lit "octo/app"))
               sample_metrics 0 in
  let w := store (Some [old]) in
  fst (timeline (Some (lit "octo/app")) None w) = Json_timeline [old]
  /\ calls (snd (record (sample_body (Some 43)) 1700000000000 w))
     = [ ExistsSync EVOLUTION_DB_PATH; ReadFileSync EVOLUTION_DB_PATH;
         WriteFileSync EVOLUTION_DB_PATH
           [old; recorded (sample_body (Some 43)) (Str (lit "octo/app"))
                   sample_metrics 0] ]
  /\ atomic_replace (calls (snd (record (sample_body (Some 43)) 1700000000000 w)))
     = false
  /\ exists wi,
       record_interrupted (sample_body (Some 43)) 1700000000000 w = Some wi
       /\ stored wi = Some Torn
       /\ fst (timeline (Some (lit "octo/app")) None wi) = Status500.
Proof.
  cbv zeta. split; [reflexivity|]. split; [reflexivity|].
  split; [reflexivity|].
  eexists. split; [reflexivity|]. split; reflexivity.
Qed.

End StoreFacts.

(* ================================================================== *)
(** ** Properties of the hotspot computation                           *)
(* ================================================================== *)

Module HotspotFacts.
Import JS Evolution StoreFacts.

(** *** Subtraction of binary64 numbers *)

Lemma round53_small (z : Z) : Z.abs z <= 2 ^ 53 -> round53 z = z.
Proof.
  intro H. destruct (Z.eq_dec (Z.abs z) (2 ^ 53)) as [E | E].
  - destruct (Z.abs_spec z) as [[_ Ha] | [_ Ha]]; rewrite Ha in E.
    + subst z. reflexivity.
    + replace z with (- 2 ^ 53) by lia. reflexivity.
  - unfold round53. cbv zeta.
    assert (Hlog : Z.log2 (Z.abs z) < 53).
    { destruct (Z.eq_dec (Z.abs z) 0) as [-> | Hz]; [reflexivity|].
      apply Z.log2_lt_pow2; lia. }
    destruct (Z.leb_spec (Z.log2 (Z.abs z) - 52) 0); [reflexivity | lia].
Qed.

Lemma round53_sgn (z : Z) : Z.sgn (round53 z) = Z.sgn z.
Proof.
  unfold round53. cbv zeta.
  destruct (Z.leb_spec (Z.log2 (Z.abs z) - 52) 0) as [He | He]; [reflexivity|].
  assert (Ha : 0 < Z.abs z).
  { destruct (Z.le_gt_cases (Z.abs z) 0) as [Hle | Hgt]; [|exact Hgt].
    rewrite (Z.log2_nonpos _ Hle) in He. lia. }
  set (a := Z.abs z) in *. set (e := Z.log2 a - 52) in *.
  assert (Hpow : 0 < 2 ^ e) by (apply Z.pow_pos_nonneg; lia).
  assert (Hle : 2 ^ e <= a).
  { apply Z.le_trans with (2 ^ Z.log2 a).
    - apply Z.pow_le_mono_r; unfold e; lia.
    - now apply Z.log2_spec. }
  assert (Hq : 0 < a / 2 ^ e) by (apply Z.div_str_pos; lia).
  match goal with |- Z.sgn (_ * (?q' * _)) = _ =>
    assert (Hq' : 0 < q')
      by (destruct (a mod 2 ^ e <? 2 ^ (e - 1));
          [exact Hq
          | destruct (2 ^ (e - 1) <? a mod 2 ^ e);
            [lia | destruct (Z.even (a / 2 ^ e)); lia]]);
    assert (Hpos : 0 < q' * 2 ^ e) by (apply Z.mul_pos_pos; assumption)
  end.
  rewrite Z.sgn_mul, (Z.sgn_pos _ Hpos), Z.mul_1_r. apply Z.sgn_sgn.
Qed.

Lemma sign_binary64 (z : Z) : sign (binary64 z) = Z.sgn z.
Proof.
  unfold binary64. cbv zeta. pose proof (round53_sgn z) as Hs.
  assert (Hbig : 0 < 2 ^ 1024) by (apply Z.pow_pos_nonneg; lia).
  destruct (Z.leb_spec (2 ^ 1024) (round53 z)) as [H1 | H1].
  - cbn [sign]. rewrite <- Hs. symmetry. apply Z.sgn_pos. lia.
  - destruct (Z.leb_spec (round53 z) (- 2 ^ 1024)) as [H2 | H2].
    + cbn [sign]. rewrite <- Hs. symmetry. apply Z.sgn_neg. lia.
    + exact Hs.
Qed.

Lemma Number_sub_exact (a b : Z) :
  small a -> small b -> Number_sub (Num a) (Num b) = Num (a - b).
Proof.
  unfold small. intros Ha Hb. cbn [Number_sub]. unfold binary64. cbv zeta.
  assert (H53 : 2 ^ 53 = 2 * 2 ^ 52) by reflexivity.
  assert (Hab : Z.abs (a - b) <= 2 ^ 53) by lia.
  rewrite (round53_small _ Hab).
  assert (Hbig : 2 ^ 53 < 2 ^ 1024) by (apply Z.pow_lt_mono_r; lia).
  destruct (Z.leb_spec (2 ^ 1024) (a - b)); [lia|].
  destruct (Z.leb_spec (a - b) (- 2 ^ 1024)); [lia | reflexivity].
Qed.

Lemma sign_sub (a b : Z) : sign (Number_sub (Num a) (Num b)) = Z.sgn (a - b).
Proof. apply sign_binary64. Qed.

Lemma by_timestamp_le (a b : Snapshot) :
  by_timestamp a b <= 0 <-> timestamp a <= timestamp b.
Proof.
  unfold by_timestamp. rewrite sign_sub.
  destruct (Z.sgn_spec (timestamp a - timestamp b))
    as [[H ->] | [[H ->] | [H ->]]]; lia.
Qed.

Lemma number_le_sign (x y : number) :
  sign (Number_sub (or_zero_number y) (or_zero_number x)) <= 0
  <-> number_le y x.
Proof.
  unfold number_le.
  destruct x as [a| | |], y as [b| | |];
    cbn [or_zero_number Number_sub sign]; try (split; intro; lia || tauto);
    try (fold (Number_sub (Num b) (Num a)); rewrite sign_sub;
         destruct (Z.sgn_spec (b - a)) as [[H ->] | [[H ->] | [H ->]]]; lia);
    try (fold (Number_sub (Num 0) (Num a)); rewrite sign_sub;
         destruct (Z.sgn_spec (0 - a)) as [[H ->] | [[H ->] | [H ->]]]; lia);
    try (fold (Number_sub (Num b) (Num 0)); rewrite sign_sub;
         destruct (Z.sgn_spec (b - 0)) as [[H ->] | [[H ->] | [H ->]]]; lia);
    try (fold (Number_sub (Num 0) (Num 0)); rewrite sign_sub; simpl; lia).
Qed.

Lemma number_le_total (x y : number) : number_le x y \/ number_le y x.
Proof.
  unfold number_le.
  destruct x as [a| | |], y as [b| | |]; cbn [or_zero_number];
    try tauto; lia.
Qed.

Lemma by_complexityTrend_le (a b : H.t) :
  by_complexityTrend a b <= 0
  <-> number_le (H.complexityTrend b) (H.complexityTrend a).
Proof. apply number_le_sign. Qed.

(** *** The stable sort *)
Section SortFacts.
Context {A : Type} (cmp : A -> A -> Z).

Lemma insert_perm (x : A) (l : list A) : Permutation (x :: l) (insert cmp x l).
Proof.
  induction l as [|y l IH]; simpl.
  - apply Permutation_refl.
  - destruct (cmp x y <=? 0).
    + apply Permutation_refl.
    + eapply perm_trans; [apply perm_swap|]. now apply perm_skip.
Qed.

Lemma Array_sort_perm (l : list A) : Permutation l (Array_sort cmp l).
Proof.
  induction l as [|x l IH]; simpl.
  - constructor.
  - eapply perm_trans; [apply perm_skip, IH | apply insert_perm].
Qed.

Lemma Array_sort_length (l : list A) :
  List.length (Array_sort cmp l) = List.length l.
Proof. symmetry. apply Permutation_length, Array_sort_perm. Qed.

Lemma Array_sort_In (x : A) (l : list A) : In x (Array_sort cmp l) <-> In x l.
Proof.
  split; apply Permutation_in;
    [apply Permutation_sym|]; apply Array_sort_perm.
Qed.

(** The comparators of the source are differences. *)
Hypothesis cmp_flip : forall a b, 0 < cmp a b -> cmp b a <= 0.

Let ordered (a b : A) : Prop := cmp a b <= 0.

Lemma insert_HdRel (a x : A) (l : list A) :
  ordered a x -> HdRel ordered a l -> HdRel ordered a (insert cmp x l).
Proof.
  intros Hax Hl. destruct l as [|y l]; simpl.
  - now constructor.
  - destruct (cmp x y <=? 0); constructor; [assumption|].
    now inversion Hl.
Qed.

Lemma insert_sorted (x : A) (l : list A) :
  Sorted ordered l -> Sorted ordered (insert cmp x l).
Proof.
  induction 1 as [|y l Hs IH Hhd]; simpl.
  - repeat constructor.
  - destruct (Z.leb_spec (cmp x y) 0) as [Hle | Hgt].
    + constructor; [now constructor | now constructor].
    + constructor; [exact IH|].
      apply insert_HdRel; [now apply cmp_flip | exact Hhd].
Qed.

Lemma Array_sort_sorted (l : list A) : Sorted ordered (Array_sort cmp l).
Proof.
  induction l as [|x l IH]; simpl; [constructor | now apply insert_sorted].
Qed.
End SortFacts.

Lemma sorted_by_timestamp (l : list Snapshot) :
  Sorted (fun a b => timestamp a <= timestamp b) (Array_sort by_timestamp l).
Proof.
  assert (H : Sorted (fun a b => by_timestamp a b <= 0) (Array_sort by_timestamp l)).
  { apply Array_sort_sorted. intros a b Hab. apply by_timestamp_le.
    destruct (Z.le_gt_cases (timestamp b) (timestamp a)) as [Hle | Hgt];
      [exact Hle|].
    assert (Hc : by_timestamp a b <= 0) by (apply by_timestamp_le; lia). lia. }
  eapply Sorted_ind with (P := Sorted (fun a b => timestamp a <= timestamp b));
    [constructor | | exact H].
  intros a l' _ IH Hhd. constructor; [exact IH|].
  destruct Hhd; constructor. now apply by_timestamp_le.
Qed.

Lemma sorted_by_complexityTrend (l : list H.t) :
  Sorted (fun a b => number_le (H.complexityTrend b) (H.complexityTrend a))
    (Array_sort by_complexityTrend l).
Proof.
  assert (H : Sorted (fun a b => by_complexityTrend a b <= 0)
                (Array_sort by_complexityTrend l)).
  { apply Array_sort_sorted. intros a b Hab. apply by_complexityTrend_le.
    destruct (number_le_total (H.complexityTrend a) (H.complexityTrend b))
      as [Hle | Hle]; [exact Hle|].
    apply by_complexityTrend_le in Hle. lia. }
  eapply Sorted_ind
    with (P := Sorted (fun a b =>
                 number_le (H.complexityTrend b) (H.complexityTrend a)));
    [constructor | | exact H].
  intros a l' _ IH Hhd. constructor; [exact IH|].
  destruct Hhd; constructor. now apply by_complexityTrend_le.
Qed.

(** *** The object [byFile] *)

Lemma own_set_same (k : jsstring) (v : list Snapshot) (o : object) :
  own k (set k v o) = Some v.
Proof.
  induction o as [|[k' v'] o IH]; simpl.
  - now rewrite jsstring_eqb_refl.
  - destruct (jsstring_eqb k' k) eqn:E; simpl; rewrite E; [reflexivity | exact IH].
Qed.

Lemma own_set_other (k k' : jsstring) (v : list Snapshot) (o : object) :
  k <> k' -> own k' (set k v o) = own k' o.
Proof.
  intro Hne. induction o as [|[k0 v0] o IH]; simpl.
  - destruct (jsstring_eqb k k') eqn:E; [|reflexivity].
    apply jsstring_eqb_eq in E. congruence.
  - destruct (jsstring_eqb k0 k) eqn:E; simpl.
    + apply jsstring_eqb_eq in E. subst k0.
      destruct (jsstring_eqb k k') eqn:E'; [|reflexivity].
      apply jsstring_eqb_eq in E'. congruence.
    + now rewrite IH.
Qed.

Lemma keys_set (k : jsstring) (v : list Snapshot) (o : object) :
  List.map fst (set k v o)
  = match own k o with
    | Some _ => List.map fst o
    | None => List.map fst o ++ [k]
    end.
Proof.
  induction o as [|[k' v'] o IH]; simpl; [reflexivity|].
  destruct (jsstring_eqb k' k) eqn:E; simpl; [reflexivity|].
  rewrite IH. now destruct (own k o).
Qed.

Lemma own_None_keys (k : jsstring) (o : object) :
  own k o = None -> ~ In k (List.map fst o).
Proof.
  induction o as [|[k' v'] o IH]; simpl; [tauto|].
  destruct (jsstring_eqb k' k) eqn:E; [discriminate|].
  intros H [Hk | Hk]; [| now apply IH].
  subst. now rewrite jsstring_eqb_refl in E.
Qed.

Lemma own_In (k : jsstring) (v : list Snapshot) (o : object) :
  own k o = Some v -> In (k, v) o.
Proof.
  induction o as [|[k' v'] o IH]; simpl; [discriminate|].
  destruct (jsstring_eqb k' k) eqn:E.
  - apply jsstring_eqb_eq in E. intros [= ->]. left. now subst.
  - intro H. right. now apply IH.
Qed.

Lemma In_own (k : jsstring) (v : list Snapshot) (o : object) :
  NoDup (List.map fst o) -> In (k, v) o -> own k o = Some v.
Proof.
  induction o as [|[k' v'] o IH]; simpl; [tauto|].
  intros Hnd [Hin | Hin]; inversion Hnd as [|? ? Hnotin Hnd']; subst.
  - injection Hin as -> ->. now rewrite jsstring_eqb_refl.
  - destruct (jsstring_eqb k' k) eqn:E; [| now apply IH].
    apply jsstring_eqb_eq in E. subst k'. exfalso. apply Hnotin.
    change k with (fst (k, v)). now apply in_map.
Qed.

Lemma well_keyed_set (k : jsstring) (v : list Snapshot) (o : object) :
  well_keyed o -> well_keyed (set k v o).
Proof.
  unfold well_keyed. intros Hnd. rewrite keys_set.
  destruct (own k o) eqn:E; [exact Hnd|].
  apply NoDup_app; [exact Hnd | repeat constructor; simpl; tauto |].
  intros x Hx [Hxk | []]. subst x. now apply (own_None_keys k o E).
Qed.


(** *** Grouping *)

Lemma of_file_cons_other (k : jsstring) (snap : Snapshot) (data : list Snapshot) :
  option_string_eqb (file_key snap) k = false ->
  of_file k (snap :: data) = of_file k data.
Proof. intro H. unfold of_file. simpl. now rewrite H. Qed.

Lemma of_file_cons_same (k : jsstring) (snap : Snapshot) (data : list Snapshot) :
  file_key snap = Some k ->
  of_file k (snap :: data) = snap :: of_file k data.
Proof.
  intro H. unfold of_file. simpl. rewrite H. simpl.
  now rewrite jsstring_eqb_refl.
Qed.

Lemma merged_nil (prev : option (list Snapshot)) (k : jsstring) :
  merged prev (of_file k []) = prev.
Proof. destruct prev as [l|]; simpl; [now rewrite app_nil_r | reflexivity]. Qed.

Lemma merged_Some (l g : list Snapshot) : merged (Some l) g = Some (l ++ g).
Proof. now destruct g. Qed.

Lemma file_key_falsy (snap : Snapshot) :
  truthy (file snap) = false -> file_key snap = None.
Proof.
  intro H. unfold file_key. destruct (file snap) as [v|]; [|reflexivity].
  now rewrite H.
Qed.

Lemma file_key_truthy (snap : Snapshot) (k : jsstring) :
  file_key snap = Some k ->
  truthy (file snap) = true
  /\ exists v, file snap = Some v /\ property_key v = Some k.
Proof.
  unfold file_key. destruct (file snap) as [v|]; [|discriminate].
  destruct (truthy (Some v)); [|discriminate]. intro H. split; eauto.
Qed.

Lemma add_snapshot_spec (o : object) (snap : Snapshot) :
  safe_file snap -> well_keyed o ->
  exists o',
    add_snapshot o snap = inr o'
    /\ well_keyed o'
    /\ forall k : jsstring, own k o' = merged (own k o) (of_file k [snap]).
Proof.
  intros Hsafe Hwk. unfold add_snapshot.
  destruct (truthy (file snap)) eqn:Ht; cbn [negb].
  - destruct (Hsafe Ht) as (k0 & Hkey & Hinh).
    destruct (file_key_truthy snap k0 Hkey) as (_ & v & Hv & Hpk).
    rewrite Hv, Hpk. unfold get. rewrite Hinh.
    assert (Hstep : forall v' prev,
               own k0 o = prev -> merged prev [snap] = Some v' ->
               well_keyed (set k0 v' o)
               /\ forall k : jsstring,
                    own k (set k0 v' o) = merged (own k o) (of_file k [snap])).
    { intros v' prev Hprev Hv'. split; [now apply well_keyed_set|].
      intros k. destruct (jsstring_eq_dec k0 k) as [<- | Hne].
      - rewrite own_set_same, Hprev, (of_file_cons_same _ _ _ Hkey).
        change (of_file k0 []) with (@nil Snapshot). now rewrite Hv'.
      - rewrite (own_set_other _ _ _ _ Hne), of_file_cons_other.
        + now rewrite merged_nil.
        + rewrite Hkey. simpl. destruct (jsstring_eqb k0 k) eqn:E; [|reflexivity].
          apply jsstring_eqb_eq in E. congruence. }
    destruct (own k0 o) as [l|] eqn:Hown.
    + eexists. split; [reflexivity|]. apply (Hstep _ (Some l)); [reflexivity|].
      apply merged_Some.
    + eexists. split; [reflexivity|]. apply (Hstep _ None); reflexivity.
  - exists o. split; [reflexivity|]. split; [exact Hwk|].
    intros k. rewrite of_file_cons_other.
    + now rewrite merged_nil.
    + now rewrite (file_key_falsy snap Ht).
Qed.

Lemma merged_merged (prev : option (list Snapshot)) (g1 g2 : list Snapshot) :
  merged (merged prev g1) g2 = merged prev (g1 ++ g2).
Proof.
  destruct prev as [l|]; destruct g1 as [|x g1]; destruct g2 as [|y g2];
    simpl; rewrite ?app_nil_r, <- ?app_assoc; reflexivity.
Qed.

Lemma forEach_add_spec (data : list Snapshot) :
  forall o : object,
    Forall safe_file data -> well_keyed o ->
    exists o',
      forEach_add data o = inr o'
      /\ well_keyed o'
      /\ forall k : jsstring, own k o' = merged (own k o) (of_file k data).
Proof.
  induction data as [|snap data IH]; intros o Hsafe Hwk.
  - exists o. split; [reflexivity|]. split; [exact Hwk|].
    intros k. now rewrite merged_nil.
  - inversion Hsafe as [|? ? Hs Hrest]; subst.
    destruct (add_snapshot_spec o snap Hs Hwk) as (o1 & Hadd & Hwk1 & Hown1).
    destruct (IH o1 Hrest Hwk1) as (o' & Hfe & Hwk' & Hown').
    exists o'. simpl. rewrite Hadd. split; [exact Hfe|]. split; [exact Hwk'|].
    intros k. rewrite (Hown' k), (Hown1 k), merged_merged.
    f_equal. unfold of_file. simpl.
    now destruct (option_string_eqb (file_key snap) k).
Qed.

Lemma group_of_file (r f : jsstring) (data : list Snapshot) :
  group r f data
  = of_file f (filter (fun snap => strict_eqb (repo snap) r) data).
Proof.
  unfold group, of_file. induction data as [|x data IH]; simpl; [reflexivity|].
  destruct (strict_eqb (repo x) r); simpl; rewrite IH; reflexivity.
Qed.

(** *** [Object.entries] *)

Lemma filter_split_perm {A : Type} (p : A -> bool) (l : list A) :
  Permutation l (filter p l ++ filter (fun x => negb (p x)) l).
Proof.
  induction l as [|x l IH]; simpl; [constructor|].
  destruct (p x); simpl.
  - now constructor.
  - now apply Permutation_cons_app.
Qed.

Lemma Object_entries_perm (o : object) : Permutation o (Object_entries o).
Proof.
  unfold Object_entries.
  eapply perm_trans; [apply (filter_split_perm is_array_index)|].
  apply Permutation_app_tail, Array_sort_perm.
Qed.

Lemma Object_entries_In (e : jsstring * list Snapshot) (o : object) :
  In e (Object_entries o) <-> In e o.
Proof.
  split; apply Permutation_in; [apply Permutation_sym|];
    apply Object_entries_perm.
Qed.

(** *** The callback *)

Lemma index_in_range {A : Type} (l : list A) (i : Z) :
  0 <= i < Z.of_nat (List.length l) -> exists x, index l i = Some x.
Proof.
  intros [H0 H1]. unfold index.
  destruct (Z.ltb_spec i 0); [lia|].
  destruct (nth_error l (Z.to_nat i)) eqn:E; [eauto|].
  apply nth_error_None in E. lia.
Qed.

Lemma hotspot_cases (N : Z) (f : jsstring) (snaps : list Snapshot) :
  0 < N ->
  let sorted := Array_sort by_timestamp snaps in
  let len := Z.of_nat (List.length snaps) in
  (len < N /\ hotspot N (f, snaps) = inr None)
  \/ (N <= len
      /\ exists first last,
           index sorted (len - N) = Some first
           /\ index sorted (len - 1) = Some last
           /\ hotspot N (f, snaps)
              = inr (Some
                  {| H.file := f;
                     H.maintainabilityTrend :=
                       Number_sub (Num (maintainabilityIndex (metrics last)))
                         (Num (maintainabilityIndex (metrics first)));
                     H.complexityTrend :=
                       Number_sub (Num (complexityScore (metrics last)))
                         (Num (complexityScore (metrics first)));
                     H.securityTrend :=
                       Number_sub (Num (or_zero (securityScore (metrics last))))
                         (Num (or_zero (securityScore (metrics first))));
                     H.latest := metrics last |})).
Proof.
  intros HN. cbv zeta. unfold hotspot.
  rewrite Array_sort_length.
  destruct (Z.ltb_spec (Z.of_nat (List.length snaps)) N) as [Hlt | Hge].
  - left. now split.
  - right. split; [exact Hge|].
    destruct (index_in_range (Array_sort by_timestamp snaps)
                (Z.of_nat (List.length snaps) - N)) as [first Hfirst].
    { rewrite Array_sort_length. lia. }
    destruct (index_in_range (Array_sort by_timestamp snaps)
                (Z.of_nat (List.length snaps) - 1)) as [last Hlast].
    { rewrite Array_sort_length. lia. }
    exists first, last. rewrite Hfirst, Hlast. auto.
Qed.

Lemma hotspot_returns (N : Z) (e : jsstring * list Snapshot) :
  0 < N -> hotspot N e = inr (trend N e).
Proof.
  intro HN. destruct e as [f snaps]. unfold trend.
  destruct (hotspot_cases N f snaps HN) as [[_ ->] | (_ & a & b & _ & _ & ->)];
    reflexivity.
Qed.

Lemma map_hotspot_returns (N : Z) (es : list (jsstring * list Snapshot)) :
  0 < N -> map_hotspot N es = inr (List.map (trend N) es).
Proof.
  intro HN. induction es as [|e es IH]; simpl; [reflexivity|].
  now rewrite (hotspot_returns N e HN), IH.
Qed.

Lemma filter_Boolean_In {A : Type} (x : A) (l : list (option A)) :
  In x (filter_Boolean l) <-> In (Some x) l.
Proof.
  induction l as [|[y|] l IH]; simpl; [tauto | |].
  - rewrite IH. split; intros [H | H]; auto; left; congruence.
  - rewrite IH. split; [auto | intros [H | H]; [discriminate | auto]].
Qed.


Lemma trend_Some (N : Z) (k : jsstring) (snaps : list Snapshot) (h : H.t) :
  0 < N -> trend N (k, snaps) = Some h ->
  H.file h = k /\ N <= Z.of_nat (List.length snaps).
Proof.
  intros HN. unfold trend.
  destruct (hotspot_cases N k snaps HN)
    as [[_ ->] | (Hge & a & b & _ & _ & ->)]; [discriminate|].
  intros [= <-]. now split.
Qed.

(** *** The handler *)

Lemma safe_fileb_sound (data : list Snapshot) :
  forallb safe_fileb data = true ->
  forall snap, In snap data -> safe_file snap.
Proof.
  intros H snap Hin Ht. rewrite forallb_forall in H.
  specialize (H snap Hin). unfold safe_fileb in H. rewrite Ht in H.
  cbn [negb orb] in H. destruct (file_key snap) as [k|]; [|discriminate].
  exists k. split; [reflexivity|]. now destruct (inherited k).
Qed.

Lemma hotspots_run (w : world) (r : jsstring) (n : Z) :
  readable w -> r <> [] -> 0 < n ->
  Forall safe_file (filter (fun snap => strict_eqb (repo snap) r) (contents w)) ->
  exists o,
    well_keyed o
    /\ (forall k : jsstring, own k o = merged None (group r k (contents w)))
    /\ fst (hotspots (Some r) (Some n) w)
       = Json_hotspots
           (Array_sort by_complexityTrend
              (filter_Boolean (List.map (trend n) (Object_entries o)))).
Proof.
  intros Hw Hr Hn Hsafe. destruct r as [|c r]; [congruence|].
  destruct (forEach_add_spec _ [] Hsafe) as (o & Hfe & Hwk & Hown).
  { constructor. }
  exists o. split; [exact Hwk|]. split.
  - intros k. rewrite (Hown k), group_of_file. reflexivity.
  - destruct (load_readable w Hw) as (w1 & Hload & _).
    unfold hotspots, express, hotspots_handler, bind, lift.
    rewrite Hload, Hfe. cbn [or_number].
    destruct (Z.eqb_spec n 0); [lia|].
    now rewrite (map_hotspot_returns n _ Hn).
Qed.

Lemma merged_None_inv (g v : list Snapshot) :
  merged None g = Some v -> v = g /\ g <> [].
Proof. destruct g; simpl; [discriminate|]. intros [= <-]. split; congruence. Qed.

(** X28: for a positive window and stored [file] values that convert to
    property names which [Object.prototype] does not define: the handler
    answers with the hotspot list, in descending order of [complexityTrend];
    the group of each name is sorted by timestamp; a name with fewer
    snapshots than the window has no entry; any other name has exactly one
    entry, whose [complexityTrend] is what the binary64 subtraction makes of
    the complexity score of the last snapshot of the sorted group and that
    of the snapshot at position [length - window]: their exact difference
    when both scores are at most 2^52 in absolute value. *)
Theorem hotspots_window_trend (w : world) (r : jsstring) (n : Z) :
  readable w -> r <> [] -> 0 < n ->
  (forall snap, In snap (contents w) -> repo snap = Str r -> safe_file snap) ->
  exists hs,
    fst (hotspots (Some r) (Some n) w) = Json_hotspots hs
    /\ Sorted (fun a b => number_le (H.complexityTrend b) (H.complexityTrend a))
         hs
    /\ forall f : jsstring,
         let g := group r f (contents w) in
         let sorted := Array_sort by_timestamp g in
         let len := Z.of_nat (List.length g) in
         Sorted (fun a b => timestamp a <= timestamp b) sorted
         /\ Permutation g sorted
         /\ (len < n -> forall h, In h hs -> H.file h <> f)
         /\ (n <= len ->
             exists first last h,
               index sorted (len - n) = Some first
               /\ index sorted (len - 1) = Some last
               /\ In h hs /\ H.file h = f
               /\ H.complexityTrend h
                  = Number_sub (Num (complexityScore (metrics last)))
                      (Num (complexityScore (metrics first)))
               /\ (small (complexityScore (metrics last)) ->
                   small (complexityScore (metrics first)) ->
                   H.complexityTrend h
                   = Num (complexityScore (metrics last)
                          - complexityScore (metrics first)))
               /\ forall h', In h' hs -> H.file h' = f -> h' = h).
Proof.
  intros Hw Hr Hn Hsafe.
  destruct (hotspots_run w r n Hw Hr Hn) as (o & Hnd & Hown & Hres).
  { apply Forall_forall. intros snap Hin. apply filter_In in Hin.
    destruct Hin as [Hin Hrepo]. apply Hsafe; [exact Hin|].
    now apply strict_eqb_eq. }
  eexists. split; [exact Hres|].
  assert (Hmem : forall h,
             In h (Array_sort by_complexityTrend
                     (filter_Boolean (List.map (trend n) (Object_entries o))))
             <-> exists k snaps, In (k, snaps) o /\ trend n (k, snaps) = Some h).
  { intro h. rewrite Array_sort_In, filter_Boolean_In, in_map_iff. split.
    - intros ([k snaps] & Ht & Hin).
      apply (proj1 (Object_entries_In _ _)) in Hin.
      exists k, snaps. split; assumption.
    - intros (k & snaps & Hin & Ht). exists (k, snaps).
      split; [exact Ht | now apply Object_entries_In]. }
  assert (Hgroup : forall k snaps,
             In (k, snaps) o -> snaps = group r k (contents w)).
  { intros k snaps Hin.
    pose proof (In_own k snaps o Hnd Hin) as Ho.
    rewrite (Hown k) in Ho. now apply merged_None_inv in Ho. }
  split; [apply sorted_by_complexityTrend|].
  intros f. cbv zeta.
  split; [apply sorted_by_timestamp|]. split; [apply Array_sort_perm|]. split.
  - intros Hlt h Hh Hfile. apply Hmem in Hh.
    destruct Hh as (k & snaps & Hin & Ht).
    destruct (trend_Some n k snaps h Hn Ht) as [Hk Hlen].
    rewrite (Hgroup k snaps Hin) in Hlen. rewrite Hk in Hfile. subst k. lia.
  - intros Hge.
    assert (Hg : group r f (contents w) <> []).
    { intro E. rewrite E in Hge. simpl in Hge. lia. }
    assert (Hin : In (f, group r f (contents w)) o).
    { apply own_In. rewrite (Hown f).
      destruct (group r f (contents w)); [congruence | reflexivity]. }
    destruct (hotspot_cases n f (group r f (contents w)) Hn)
      as [[Hlt _] | (_ & first & last & Hfirst & Hlast & Hhot)]; [lia|].
    pose proof (hotspot_returns n (f, group r f (contents w)) Hn) as Hret.
    rewrite Hhot in Hret. injection Hret as Ht. symmetry in Ht.
    eexists first, last, _.
    split; [exact Hfirst|]. split; [exact Hlast|]. split.
    { apply Hmem. exists f, (group r f (contents w)).
      split; [exact Hin | exact Ht]. }
    split; [reflexivity|]. split; [reflexivity|].
    split; [intros Hl Hf; cbn [H.complexityTrend]; now apply Number_sub_exact|].
    intros h' Hh' Hfile. apply Hmem in Hh'.
    destruct Hh' as (k & snaps & Hin' & Ht').
    destruct (trend_Some n k snaps h' Hn Ht') as [Hk _].
    rewrite (Hgroup k snaps Hin') in Ht'.
    rewrite Hfile in Hk. subst k. rewrite Ht in Ht'. congruence.
Qed.

Lemma hotspots_window_trend_witness :
  exists hs,
    fst (hotspots (Some (lit "octo/app")) (Some 5) (store (Some five_snapshots)))
    = Json_hotspots hs
    /\ Sorted (fun a b => number_le (H.complexityTrend b) (H.complexityTrend a))
         hs.
Proof.
  destruct (hotspots_window_trend (store (Some five_snapshots)) (lit "octo/app") 5)
    as (hs & H1 & H2 & _).
  - apply readable_store.
  - discriminate.
  - lia.
  - intros snap Hin _. rewrite contents_store in Hin.
    revert snap Hin. apply safe_fileb_sound. reflexivity.
  - exists hs. split; assumption.
Defined.

(** The case of the specification: five snapshots of one file with the
    complexity scores 10, 12, 14, 18 and 25 at increasing timestamps and the
    window 5 give one entry with [complexityTrend] 15; with the window 6 the
    file has no entry. *)
Lemma hotspots_five_snapshots :
  fst (hotspots (Some (lit "octo/app")) (Some 5) (store (Some five_snapshots)))
  = Json_hotspots
      [ {| H.file := lit "src/index.ts";
           H.maintainabilityTrend := Num 0;
           H.complexityTrend := Num 15;
           H.securityTrend := Num 0;
           H.latest := {| maintainabilityIndex := 80; complexityScore := 25;
                          securityScore := None |} |} ]
  /\ fst (hotspots (Some (lit "octo/app")) (Some 6) (store (Some five_snapshots)))
     = Json_hotspots [].
Proof. split; vm_compute; reflexivity. Qed.

(** C2 on a file called [constructor]: [byFile] inherits a property of that
    name from [Object.prototype], so no array is created for the file and
    the [push] throws; the request is answered 500 and no trend is computed
    for any file of the repository, here for the five snapshots whose trend
    is 15 without the sixth. *)
Theorem hotspots_inherited_file_name :
  let data := five_snapshots ++ [snapshot_of "constructor" 6 1] in
  inherited (lit "constructor") = true
  /\ add_snapshot [(lit "src/index.ts", five_snapshots)]
       (snapshot_of "constructor" 6 1) = inl TypeError
  /\ fst (hotspots (Some (lit "octo/app")) (Some 5) (store (Some data)))
     = Status500.
Proof. cbv zeta. repeat split; vm_compute; reflexivity. Qed.

End HotspotFacts.

(* ================================================================== *)
(** ** More properties of the analyzer                                 *)
(* ================================================================== *)

Module AdviceFacts.
Import JS Analyzer Advice AnalyzerFacts.

Lemma mem_In (x : jsstring) (l : list jsstring) : mem x l = true <-> In x l.
Proof.
  unfold mem. rewrite existsb_exists. split.
  - intros (y & Hy & E). unfold jsstring_eqb in E.
    destruct (jsstring_eq_dec x y); [now subst | discriminate].
  - intro H. exists x. split; [exact H|]. unfold jsstring_eqb.
    destruct (jsstring_eq_dec x x); congruence.
Qed.

Lemma mem_false (x : jsstring) (l : list jsstring) : mem x l = false <-> ~ In x l.
Proof.
  rewrite <- mem_In. destruct (mem x l); split; congruence.
Qed.

Lemma In_of_mem (x : jsstring) (l : list jsstring) (b : bool) :
  mem x l = b -> (In x l <-> b = true).
Proof. intros <-. symmetry. apply mem_In. Qed.

(** The advice of a file as a function of the four tests. *)
Lemma generateRecommendations_mem (c : Z) (mi ps : Q) (iss : list jsstring) :
  let b1 := 20 <? c in
  let b2 := negb (Qle_bool 50 mi) in
  let b3 := negb (Qle_bool 70 ps) in
  let b4 := (0 <? List.length iss)%nat in
  let recs := generateRecommendations c mi ps iss in
  mem complexity_advice recs = b1
  /\ mem maintainability_advice recs = b2
  /\ mem performance_advice recs = b3
  /\ mem security_advice recs = b4
  /\ mem praise recs = negb (b1 || b2 || b3 || b4)
  /\ recs = filter (fun m => mem m recs) file_advice.
Proof.
  cbv zeta. unfold generateRecommendations. cbv zeta.
  destruct (20 <? c), (negb (Qle_bool 50 mi)), (negb (Qle_bool 70 ps)),
    (0 <? List.length iss)%nat; vm_compute; repeat split; reflexivity.
Qed.

Lemma negb_Qle_bool (a x : Q) : negb (Qle_bool a x) = true <-> (x < a)%Q.
Proof.
  destruct (Qle_bool a x) eqn:E; simpl; split; intro H; try discriminate.
  - apply Qle_bool_iff in E. exfalso. now apply (Qlt_not_le x a).
  - apply Qnot_le_lt. intro Hle. apply Qle_bool_iff in Hle. congruence.
  - reflexivity.
Qed.

Lemma length_pos_iff {A : Type} (l : list A) :
  (0 <? List.length l)%nat = true <-> l <> [].
Proof. destruct l; cbn; split; intro H; congruence || discriminate. Qed.

(** The four tests of [generateRecommendations], and its praise. *)
Lemma generateRecommendations_tests
    (c : Z) (mi ps : Q) (iss : list jsstring) :
  let recs := generateRecommendations c mi ps iss in
  (In complexity_advice recs <-> 20 < c)
  /\ (In maintainability_advice recs <-> (mi < 50)%Q)
  /\ (In performance_advice recs <-> (ps < 70)%Q)
  /\ (In security_advice recs <-> iss <> [])
  /\ (In praise recs <->
      c <= 20 /\ (50 <= mi)%Q /\ (70 <= ps)%Q /\ iss = []).
Proof.
  cbv zeta.
  destruct (generateRecommendations_mem c mi ps iss)
    as (H1 & H2 & H3 & H4 & H5 & _).
  apply In_of_mem in H1, H2, H3, H4, H5.
  rewrite Z.ltb_lt in H1. rewrite negb_Qle_bool in H2, H3.
  rewrite length_pos_iff in H4.
  split; [exact H1|]. split; [exact H2|]. split; [exact H3|].
  split; [exact H4|].
  rewrite H5, negb_true_iff, !orb_false_iff.
  rewrite Z.ltb_ge, !negb_false_iff, !Qle_bool_iff.
  destruct iss; cbn; intuition (congruence || discriminate).
Qed.

Lemma generateRecommendations_nonempty
    (c : Z) (mi ps : Q) (iss : list jsstring) :
  generateRecommendations c mi ps iss <> [].
Proof.
  destruct (generateRecommendations_tests c mi ps iss)
    as (H1 & H2 & H3 & H4 & Hp).
  cbv zeta in *. intro E.
  destruct (Z.le_gt_cases c 20) as [Hc | Hc];
    [| apply H1 in Hc; rewrite E in Hc; exact Hc].
  destruct (Qlt_le_dec mi 50) as [Hm | Hm];
    [apply H2 in Hm; rewrite E in Hm; exact Hm|].
  destruct (Qlt_le_dec ps 70) as [Hq | Hq];
    [apply H3 in Hq; rewrite E in Hq; exact Hq|].
  destruct iss as [|i iss].
  - assert (Hin : In praise (generateRecommendations c mi ps [])) by now apply Hp.
    rewrite E in Hin. exact Hin.
  - assert (Hin : In security_advice (generateRecommendations c mi ps (i :: iss)))
      by (apply H4; discriminate).
    rewrite E in Hin. exact Hin.
Qed.

(** X1: [generateRecommendations] pushes each advice exactly when its test
    holds (complexity above 20, maintainability below 50, performance
    below 70, some security issue), the praise exactly when none holds, and
    nothing else; the result is never empty and keeps the fixed order
    without repetition. *)
Theorem generateRecommendations_rules
    (c : Z) (mi ps : Q) (iss : list jsstring) :
  let recs := generateRecommendations c mi ps iss in
  (In complexity_advice recs <-> 20 < c)
  /\ (In maintainability_advice recs <-> (mi < 50)%Q)
  /\ (In performance_advice recs <-> (ps < 70)%Q)
  /\ (In security_advice recs <-> iss <> [])
  /\ (In praise recs <->
      c <= 20 /\ (50 <= mi)%Q /\ (70 <= ps)%Q /\ iss = [])
  /\ recs <> []
  /\ recs = filter (fun m => mem m recs) file_advice.
Proof.
  cbv zeta.
  destruct (generateRecommendations_tests c mi ps iss)
    as (H1 & H2 & H3 & H4 & Hp).
  destruct (generateRecommendations_mem c mi ps iss)
    as (_ & _ & _ & _ & _ & H6).
  cbv zeta in *.
  split; [exact H1|]. split; [exact H2|]. split; [exact H3|].
  split; [exact H4|]. split; [exact Hp|].
  split; [apply generateRecommendations_nonempty | exact H6].
Qed.


(** *** The advice of the analyzer *)

Lemma analyze_unfold (s : jsstring) :
  let r := analyzeCodeComplexity s in
  let m := metrics r in
  let cx := complexity r in
  recommendations r
  = generateRecommendations (complexityScore m)
      (raw_maintainability (complexityScore m) (functionCount m) (totalLines m))
      (raw_performance (ifStatements cx) (forLoops cx) (whileLoops cx))
      (issues (security r))
  /\ maintainabilityIndex m
     = Math_round (raw_maintainability (complexityScore m) (functionCount m)
                     (totalLines m))
  /\ performanceScore m
     = Math_round (raw_performance (ifStatements cx) (forLoops cx)
                     (whileLoops cx))
  /\ complexityScore m
     = ifStatements cx + forLoops cx * 2 + whileLoops cx * 2
       + switchStatements cx * 3 + tryCatchBlocks cx * 2.
Proof.
  unfold raw_maintainability, raw_performance, analyzeCodeComplexity.
  cbv zeta.
  cbn [metrics complexity security recommendations issues maintainabilityIndex
       performanceScore complexityScore functionCount totalLines ifStatements
       forLoops whileLoops switchStatements tryCatchBlocks].
  repeat split; reflexivity.
Qed.

Lemma Math_round_inject_Z (z : Z) : Math_round (inject_Z z) = z.
Proof.
  unfold Math_round.
  pose proof (Qfloor_le (inject_Z z + (1 # 2))) as Hle.
  pose proof (Qlt_floor (inject_Z z + (1 # 2))) as Hlt.
  set (k := Qfloor (inject_Z z + (1 # 2))) in *.
  assert (H1 : (inject_Z k <= inject_Z z + (1 # 2))%Q) by exact Hle.
  assert (H2 : (inject_Z z + (1 # 2) < inject_Z (k + 1))%Q) by exact Hlt.
  rewrite inject_Z_plus in H2. change (inject_Z 1) with 1%Q in H2.
  assert (Hk : (inject_Z k < inject_Z (z + 1))%Q)
    by (rewrite inject_Z_plus; change (inject_Z 1) with 1%Q; lra).
  assert (Hz : (inject_Z z < inject_Z (k + 1))%Q)
    by (rewrite inject_Z_plus; change (inject_Z 1) with 1%Q; lra).
  rewrite <- Zlt_Qlt in Hk, Hz. lia.
Qed.

Lemma raw_performance_integer (i f w : Z) :
  (raw_performance i f w == inject_Z (Z.max 0 (100 - f * 5 - w * 5 - i * 2)))%Q.
Proof.
  unfold raw_performance.
  match goal with |- context [Math_max 0 ?x] =>
    assert (Hx : (x == inject_Z (100 - f * 5 - w * 5 - i * 2))%Q)
      by (unfold Z.sub;
          rewrite !inject_Z_plus, !inject_Z_opp, !inject_Z_mult;
          change (inject_Z 100) with 100%Q; change (inject_Z 5) with 5%Q;
          change (inject_Z 2) with 2%Q; lra);
    destruct (Math_max_0_cases x) as [[H ->] | [H ->]]
  end.
  - rewrite Hx in H. change 0%Q with (inject_Z 0) in H.
    rewrite <- Zlt_Qlt in H. rewrite Z.max_l by lia. reflexivity.
  - rewrite Hx in H. change 0%Q with (inject_Z 0) in H.
    rewrite <- Zle_Qle in H. rewrite Z.max_r by lia. exact Hx.
Qed.

Lemma Math_round_lt_half (x : Q) (k : Z) :
  (x < inject_Z k)%Q -> Math_round x <= k.
Proof.
  intro H. rewrite <- (Math_round_inject_Z k). apply Math_round_mono. lra.
Qed.

Lemma Math_round_below (x : Q) (k : Z) :
  Math_round x < k -> (x < inject_Z k)%Q.
Proof.
  intro H. unfold Math_round in H.
  pose proof (Qlt_floor (x + (1 # 2))) as Hlt.
  assert (Hk : (inject_Z (Qfloor (x + (1 # 2)) + 1) <= inject_Z k)%Q)
    by (rewrite <- Zle_Qle; lia).
  lra.
Qed.

(** X2: in the result of the analyzer the complexity advice is present
    exactly when the reported complexity score is above 20, the performance
    advice exactly when the reported performance score is below 70, the
    security advice exactly when an issue is reported, that is when the
    security score is below 100.  The maintainability advice is decided on
    the value before rounding: it is present whenever the reported index is
    below 50, and only when it is at most 50. *)
Theorem analyze_advice (s : jsstring) :
  let r := analyzeCodeComplexity s in
  let recs := recommendations r in
  (In complexity_advice recs <-> 20 < complexityScore (metrics r))
  /\ (In performance_advice recs <-> performanceScore (metrics r) < 70)
  /\ (In security_advice recs <-> issues (security r) <> [])
  /\ (In security_advice recs <-> score (security r) < 100)
  /\ (maintainabilityIndex (metrics r) < 50 -> In maintainability_advice recs)
  /\ (In maintainability_advice recs -> maintainabilityIndex (metrics r) <= 50)
  /\ recs <> [].
Proof.
  cbv zeta. destruct (analyze_unfold s) as (Hrec & Hmi & Hps & _).
  rewrite Hrec, Hmi, Hps.
  match goal with |- context [generateRecommendations ?c ?mi ?ps ?iss] =>
    destruct (generateRecommendations_tests c mi ps iss)
      as (H1 & H2 & H3 & H4 & _);
    pose proof (generateRecommendations_nonempty c mi ps iss) as H6
  end.
  cbv zeta in H1, H2, H3, H4.
  split; [exact H1|]. split; [| split; [exact H4 | split; [| split; [| split]]]].
  - rewrite H3.
    rewrite (Math_round_ext _ _ (raw_performance_integer _ _ _)),
      Math_round_inject_Z.
    rewrite raw_performance_integer. change 70%Q with (inject_Z 70).
    now rewrite <- Zlt_Qlt.
  - rewrite H4, score_formula. pose proof (issues_length s).
    destruct (issues (security (analyzeCodeComplexity s))); simpl List.length;
      split; intro; try congruence; try discriminate; lia.
  - intro H. apply H2. now apply (Math_round_below _ 50).
  - intro H. apply H2 in H. now apply (Math_round_lt_half _ 50).
  - exact H6.
Qed.

(** A line of 25 [if(]: the reported maintainability index is 50 and the
    advice for an index below 50 is given, the value before rounding being
    49.9. *)
Example advice_at_reported_50 :
  let r := analyzeCodeComplexity (List.concat (repeat (lit "if(") 25)) in
  maintainabilityIndex (metrics r) = 50
  /\ mem maintainability_advice (recommendations r) = true.
Proof. vm_compute. split; reflexivity. Qed.

End AdviceFacts.

Module MetricsFacts.
Import JS Analyzer Advice AnalyzerFacts AdviceFacts Review.

(** *** Lines *)

Lemma split_lines_length (s : jsstring) :
  List.length (split_lines s) = S (line_feeds s).
Proof.
  unfold line_feeds. induction s as [|c s IH]; [reflexivity|].
  simpl. destruct (c =? 10)%N; simpl.
  - now rewrite IH.
  - destruct (split_lines s) eqn:E; [discriminate IH | exact IH].
Qed.

Lemma filter_length_mono {A : Type} (f g : A -> bool) (l : list A) :
  (forall x, f x = true -> g x = true) ->
  (List.length (filter f l) <= List.length (filter g l))%nat.
Proof.
  intro H. induction l as [|x l IH]; simpl; [lia|].
  destruct (f x) eqn:Ef.
  - rewrite (H x Ef). simpl. lia.
  - destruct (g x); simpl; lia.
Qed.

Lemma startsWith_nonempty (p s : jsstring) :
  p <> [] -> startsWith p s = true -> s <> [].
Proof. destruct p, s; simpl; congruence. Qed.

Lemma comment_line_not_blank (line : jsstring) :
  isCommentLine line = true -> isNonEmptyLine line = true.
Proof.
  unfold isCommentLine, isNonEmptyLine. intro H.
  assert (Hne : trim line <> []).
  { apply orb_true_iff in H. destruct H as [H | H];
      [apply orb_true_iff in H; destruct H as [H | H]|];
      eapply startsWith_nonempty; try exact H; discriminate. }
  destruct (trim line); [congruence | reflexivity].
Qed.

Lemma dropWhile_nil (p : N -> bool) (l : jsstring) :
  dropWhile p l = [] <-> forallb p l = true.
Proof.
  induction l as [|c l IH]; simpl; [tauto|].
  destruct (p c); simpl; [exact IH | split; discriminate].
Qed.

Lemma forallb_dropWhile (p : N -> bool) (l : jsstring) :
  forallb p l = false -> forallb p (dropWhile p l) = false.
Proof.
  induction l as [|c l IH]; simpl; [discriminate|].
  destruct (p c) eqn:E; simpl; [exact IH | now rewrite E].
Qed.

Lemma forallb_rev (p : N -> bool) (l : jsstring) :
  forallb p (rev l) = forallb p l.
Proof.
  induction l as [|c l IH]; [reflexivity|].
  simpl. rewrite forallb_app, IH. simpl. rewrite andb_true_r. apply andb_comm.
Qed.

Lemma trim_nil (l : jsstring) : trim l = [] <-> forallb isWhiteSpace l = true.
Proof.
  unfold trim. split.
  - intro H. apply (f_equal (@rev N)) in H. rewrite rev_involutive in H.
    simpl in H. apply dropWhile_nil in H. rewrite forallb_rev in H.
    destruct (forallb isWhiteSpace l) eqn:E; [reflexivity|].
    apply forallb_dropWhile in E. congruence.
  - intro H. apply dropWhile_nil in H. rewrite H. reflexivity.
Qed.

Lemma startsWith_spec (p s : jsstring) :
  startsWith p s = true <-> exists b, s = p ++ b.
Proof.
  revert s. induction p as [|a p IH]; intro s; simpl.
  - split; [intros _; now exists s | reflexivity].
  - destruct s as [|c s].
    + split; [discriminate | intros [b Hb]; discriminate].
    + rewrite andb_true_iff, N.eqb_eq, IH. split.
      * intros [-> [b ->]]. now exists b.
      * intros [b Hb]. injection Hb as -> ->. split; [reflexivity | now exists b].
Qed.

Lemma dropWhile_split (p : N -> bool) (l : jsstring) :
  exists w, l = w ++ dropWhile p l /\ forallb p w = true.
Proof.
  induction l as [|c l (w & Hw & Hp)]; simpl.
  - now exists [].
  - destruct (p c) eqn:E.
    + exists (c :: w). simpl. rewrite E, Hp. split; [now f_equal | reflexivity].
    + now exists [].
Qed.

(** A text is what [trim] leaves of it at its end, followed by white
    space. *)
Lemma rtrim_split (t : jsstring) :
  exists w,
    t = rev (dropWhile isWhiteSpace (rev t)) ++ w
    /\ forallb isWhiteSpace w = true.
Proof.
  destruct (dropWhile_split isWhiteSpace (rev t)) as (w & Hw & Hp).
  exists (rev w). split; [| now rewrite forallb_rev].
  rewrite <- rev_app_distr, <- Hw. symmetry. apply rev_involutive.
Qed.

Lemma startsWith_rtrim (p t : jsstring) :
  forallb (fun c => negb (isWhiteSpace c)) p = true ->
  startsWith p (rev (dropWhile isWhiteSpace (rev t))) = startsWith p t.
Proof.
  intro Hp. destruct (rtrim_split t) as (w & Ht & Hw).
  set (r := rev (dropWhile isWhiteSpace (rev t))) in *.
  destruct (startsWith p r) eqn:E1; symmetry.
  - apply startsWith_spec in E1. destruct E1 as [b Hb].
    apply startsWith_spec. exists (b ++ w). rewrite Ht, Hb.
    now rewrite <- app_assoc.
  - destruct (startsWith p t) eqn:E2; [|reflexivity].
    apply startsWith_spec in E2. destruct E2 as [b Hb].
    rewrite Ht in Hb. apply app_eq_app in Hb.
    destruct Hb as (l & [[Hr Hb] | [Hpl Hwl]]).
    + rewrite <- E1. symmetry. apply startsWith_spec. now exists l.
    + assert (Hl : l = []).
      { destruct l as [|c l]; [reflexivity|]. exfalso.
        rewrite Hpl, forallb_app in Hp. apply andb_true_iff in Hp.
        destruct Hp as [_ Hp]. simpl in Hp.
        rewrite Hwl in Hw. simpl in Hw.
        destruct (isWhiteSpace c); simpl in *; discriminate. }
      subst l. rewrite app_nil_r in Hpl. rewrite <- E1. symmetry.
      apply startsWith_spec. exists []. now rewrite app_nil_r.
Qed.

Lemma isCommentLine_starts (line : jsstring) :
  isCommentLine line = starts_comment line.
Proof.
  unfold isCommentLine, starts_comment, trim. cbv zeta.
  now rewrite !startsWith_rtrim by reflexivity.
Qed.

Lemma isNonEmptyLine_has_text (line : jsstring) :
  isNonEmptyLine line = has_text line.
Proof.
  unfold isNonEmptyLine, has_text.
  destruct (forallb isWhiteSpace line) eqn:E.
  - rewrite (proj2 (trim_nil line) E). symmetry.
    apply not_true_iff_false. intro H. apply existsb_exists in H.
    destruct H as (c & Hin & Hc). rewrite forallb_forall in E.
    rewrite (E c Hin) in Hc. discriminate.
  - assert (Hne : trim line <> []).
    { intro H. apply trim_nil in H. congruence. }
    assert (Hex : existsb (fun c => negb (isWhiteSpace c)) line = true).
    { clear Hne. induction line as [|c l IH]; simpl in *; [discriminate|].
      destruct (isWhiteSpace c); simpl in *; [now apply IH | reflexivity]. }
    rewrite Hex. destruct (trim line); [congruence | reflexivity].
Qed.

Lemma filter_ext_length {A : Type} (f g : A -> bool) (l : list A) :
  (forall x, f x = g x) ->
  List.length (filter f l) = List.length (filter g l).
Proof. intro H. now rewrite (filter_ext f g H). Qed.

(** X3: with the text cut into lines at its line feeds, [totalLines] is
    the number of lines, one more than the text has line feeds;
    [nonEmptyLines] is the number of lines that hold a code unit other
    than white space; [commentLines] is the number of lines that go on,
    after their leading white space, with [//], [/*] or [*]; every comment
    line is a non-empty line, so
    0 <= commentLines <= nonEmptyLines <= totalLines. *)
Theorem line_counts (s : jsstring) :
  let m := metrics (analyzeCodeComplexity s) in
  let lines := split_lines s in
  totalLines m = Z.of_nat (List.length lines)
  /\ totalLines m = Z.of_nat (line_feeds s) + 1
  /\ nonEmptyLines m = Z.of_nat (List.length (filter has_text lines))
  /\ commentLines m = Z.of_nat (List.length (filter starts_comment lines))
  /\ 0 <= commentLines m <= nonEmptyLines m
  /\ nonEmptyLines m <= totalLines m.
Proof.
  cbv zeta. unfold analyzeCodeComplexity. cbv zeta.
  cbn [metrics totalLines commentLines nonEmptyLines]. unfold count_lines.
  split; [reflexivity|].
  split; [rewrite split_lines_length; lia|].
  split; [f_equal; apply filter_ext_length, isNonEmptyLine_has_text|].
  split; [f_equal; apply filter_ext_length, isCommentLine_starts|].
  split.
  - split; [lia|]. apply Nat2Z.inj_le, filter_length_mono.
    exact comment_line_not_blank.
  - apply Nat2Z.inj_le, List.filter_length_le.
Qed.

(** *** The scores as integer formulas *)

Lemma Math_round_tenths (t : Z) :
  Math_round (t # 10) = (t + 5) / 10.
Proof.
  unfold Math_round.
  assert (H : ((t # 10) + (1 # 2) == (t + 5) # 10)%Q).
  { unfold Qeq, Qplus. simpl. lia. }
  rewrite (Qfloor_comp _ _ H). reflexivity.
Qed.

Lemma maintainability_Q_integer (c f l : Z) :
  maintainability_Q c f l = Z.max 0 ((1005 - 20 * c - 15 * f - l) / 10).
Proof.
  unfold maintainability_Q.
  set (t := 1000 - 20 * c - 15 * f - l).
  match goal with |- context [Math_max 0 ?x] =>
    assert (Hx : (x == t # 10)%Q);
      [| destruct (Math_max_0_cases x) as [[H ->] | [H ->]] ]
  end.
  - assert (Ht : (t # 10 == inject_Z t * (1 # 10))%Q)
      by (unfold Qeq; simpl; lia).
    rewrite Ht. unfold t, Z.sub.
    rewrite !inject_Z_plus, !inject_Z_opp, !inject_Z_mult.
    change (inject_Z 1000) with 1000%Q. change (inject_Z 20) with 20%Q.
    change (inject_Z 15) with 15%Q. lra.
  - rewrite Hx in H. assert (Ht : t < 0) by (unfold Qlt in H; simpl in H; lia).
    change (Math_round 0) with 0. unfold t in Ht.
    rewrite Z.max_l; [reflexivity|].
    apply Z.lt_succ_r, Z.div_lt_upper_bound; lia.
  - rewrite Hx in H. assert (Ht : 0 <= t) by (unfold Qle in H; simpl in H; lia).
    rewrite (Math_round_ext _ _ Hx), Math_round_tenths.
    unfold t in *. replace (1000 - 20 * c - 15 * f - l + 5)
      with (1005 - 20 * c - 15 * f - l) by lia.
    rewrite Z.max_r; [reflexivity|]. apply Z.div_pos; lia.
Qed.

Lemma maintainabilityIndex_integer (s : jsstring) :
  let m := metrics (analyzeCodeComplexity s) in
  maintainabilityIndex m
  = Z.max 0 ((1005 - 20 * complexityScore m - 15 * functionCount m
              - totalLines m) / 10).
Proof.
  cbv zeta. rewrite (maintainabilityIndex_unfold s).
  apply maintainability_Q_integer.
Qed.

Lemma performanceScore_integer (s : jsstring) :
  let r := analyzeCodeComplexity s in
  let cx := complexity r in
  performanceScore (metrics r)
  = Z.max 0 (100 - 5 * forLoops cx - 5 * whileLoops cx - 2 * ifStatements cx).
Proof.
  cbv zeta. destruct (analyze_unfold s) as (_ & _ & Hps & _).
  rewrite Hps, (Math_round_ext _ _ (raw_performance_integer _ _ _)),
    Math_round_inject_Z. f_equal. lia.
Qed.

Lemma complexityScore_weights (s : jsstring) :
  let r := analyzeCodeComplexity s in
  let cx := complexity r in
  complexityScore (metrics r)
  = ifStatements cx + 2 * forLoops cx + 2 * whileLoops cx
    + 3 * switchStatements cx + 2 * tryCatchBlocks cx.
Proof.
  cbv zeta. destruct (analyze_unfold s) as (_ & _ & _ & Hc).
  rewrite Hc. lia.
Qed.

Lemma score_of_issues (s : jsstring) :
  let r := analyzeCodeComplexity s in
  score (security r)
  = 100 - 20 * Z.of_nat (List.length (issues (security r))).
Proof.
  cbv zeta. rewrite score_formula. pose proof (issues_length s). lia.
Qed.

(** X4: the derived scores are integer functions of the reported counts:
    maintainabilityIndex = max(0, floor((1005 - 20*complexityScore
    - 15*functionCount - totalLines) / 10)), performanceScore
    = max(0, 100 - 5*forLoops - 5*whileLoops - 2*ifStatements),
    complexityScore is the weighted sum of the five counts, and the security
    score is 100 - 20 * the number of issues. *)
Theorem scores_from_counts (s : jsstring) :
  let r := analyzeCodeComplexity s in
  let m := metrics r in
  let cx := complexity r in
  maintainabilityIndex m
  = Z.max 0 ((1005 - 20 * complexityScore m - 15 * functionCount m
              - totalLines m) / 10)
  /\ performanceScore m
     = Z.max 0 (100 - 5 * forLoops cx - 5 * whileLoops cx
                - 2 * ifStatements cx)
  /\ complexityScore m
     = ifStatements cx + 2 * forLoops cx + 2 * whileLoops cx
       + 3 * switchStatements cx + 2 * tryCatchBlocks cx
  /\ score (security r)
     = 100 - 20 * Z.of_nat (List.length (issues (security r))).
Proof.
  cbv zeta. split; [| split; [| split]].
  - apply maintainabilityIndex_integer.
  - apply performanceScore_integer.
  - apply complexityScore_weights.
  - apply score_of_issues.
Qed.

Lemma counts_nonneg (s : jsstring) :
  let m := metrics (analyzeCodeComplexity s) in
  0 <= complexityScore m /\ 0 <= functionCount m /\ 1 <= totalLines m.
Proof.
  cbv zeta. split; [apply complexityScore_nonneg|].
  split; [apply matches_nonneg | apply totalLines_pos].
Qed.

(** X5: between two analyzed texts, the one with no smaller complexity
    score, function count and line count has no greater maintainability
    index; and the index is 100 exactly for a text of at most five lines
    with no counted branch and no counted function. *)
Theorem maintainability_order (s s' : jsstring) :
  let m := metrics (analyzeCodeComplexity s) in
  let m' := metrics (analyzeCodeComplexity s') in
  (complexityScore m <= complexityScore m' ->
   functionCount m <= functionCount m' ->
   totalLines m <= totalLines m' ->
   maintainabilityIndex m' <= maintainabilityIndex m)
  /\ (maintainabilityIndex m = 100 <->
      complexityScore m = 0 /\ functionCount m = 0 /\ totalLines m <= 5).
Proof.
  cbv zeta.
  pose proof (maintainabilityIndex_integer s) as Hm.
  pose proof (maintainabilityIndex_integer s') as Hm'.
  destruct (counts_nonneg s) as (Hc & Hf & Hl).
  cbv zeta in *. rewrite Hm, Hm'. clear Hm Hm'.
  match goal with |- context [Z.max 0 (?a / 10) <= Z.max 0 (?b / 10)] =>
    pose proof (Z.div_mod a 10 ltac:(lia));
    pose proof (Z.mod_pos_bound a 10 ltac:(lia));
    pose proof (Z.div_mod b 10 ltac:(lia));
    pose proof (Z.mod_pos_bound b 10 ltac:(lia))
  end.
  split; [intros; lia | lia].
Qed.

Lemma maintainability_order_witness :
  maintainabilityIndex (metrics (analyzeCodeComplexity sample_program))
  <= maintainabilityIndex (metrics (analyzeCodeComplexity [])).
Proof.
  destruct (maintainability_order [] sample_program) as [H _].
  apply H; vm_compute; intro E; discriminate E.
Defined.


(** *** The security scan *)

Lemma includes_spec (needle s : jsstring) :
  includes needle s = true <-> exists a b, s = a ++ needle ++ b.
Proof.
  induction s as [|c s IH]; simpl.
  - rewrite orb_false_r, startsWith_spec. split.
    + intros [b Hb]. now exists [], b.
    + intros (a & b & H). destruct a; simpl in H; [now exists b|discriminate].
  - rewrite orb_true_iff, startsWith_spec, IH. split.
    + intros [[b Hb] | (a & b & H)].
      * now exists [], b.
      * exists (c :: a), b. now rewrite H.
    + intros (a & b & H). destruct a as [|x a]; simpl in H.
      * left. now exists b.
      * right. injection H as -> ->. now exists a, b.
Qed.

Lemma In_push_if (b : bool) (x y : jsstring) (l : list jsstring) :
  In y (push_if b x l) <-> In y l \/ (b = true /\ y = x).
Proof.
  destruct b; simpl.
  - rewrite in_app_iff. simpl. intuition congruence.
  - intuition congruence.
Qed.

Lemma issues_members (s : jsstring) (msg : jsstring) :
  In msg (issues (security (analyzeCodeComplexity s))) <->
  exists sink, In (sink, msg) catalog /\ includes sink s = true.
Proof.
  rewrite issues_unfold, <- !includes_occurrences, !In_push_if.
  unfold catalog. simpl In. split.
  - intros [[[[] | [H ->]] | [H ->]] | [H ->]].
    + exists (lit "eval("). auto.
    + exists (lit "innerHTML"). auto.
    + exists (lit "document.write"). auto.
  - intros (sink & [E | [E | [E | []]]] & H); injection E as <- <-; auto 6.
Qed.

(** X6: an issue is reported exactly for the sinks of the catalog that
    occur somewhere in the text as a contiguous run of code units, wherever
    they stand: inside a comment, a string or a longer name as well. *)
Theorem issue_iff_sink_occurs (s : jsstring) (msg : jsstring) :
  In msg (issues (security (analyzeCodeComplexity s))) <->
  exists sink a b, In (sink, msg) catalog /\ s = a ++ sink ++ b.
Proof.
  rewrite issues_members. split.
  - intros (sink & Hin & H). apply includes_spec in H.
    destruct H as (a & b & H). now exists sink, a, b.
  - intros (sink & a & b & Hin & H). exists sink. split; [exact Hin|].
    apply includes_spec. now exists a, b.
Qed.

Lemma issues_NoDup (s : jsstring) :
  NoDup (issues (security (analyzeCodeComplexity s))).
Proof.
  rewrite issues_unfold.
  destruct (occurrences (lit "eval(") s), (occurrences (lit "innerHTML") s),
    (occurrences (lit "document.write") s); simpl;
    repeat (constructor; [vm_compute; intuition discriminate|]); constructor.
Qed.

(** X7: text put before and after an analyzed text never removes an issue:
    every issue of the text is an issue of the longer text, whose security
    score is no higher. *)
Theorem issues_survive_embedding (a s b : jsstring) :
  incl (issues (security (analyzeCodeComplexity s)))
       (issues (security (analyzeCodeComplexity (a ++ s ++ b))))
  /\ score (security (analyzeCodeComplexity (a ++ s ++ b)))
     <= score (security (analyzeCodeComplexity s)).
Proof.
  assert (Hincl : incl (issues (security (analyzeCodeComplexity s)))
                    (issues (security (analyzeCodeComplexity (a ++ s ++ b))))).
  { intros msg H. apply issues_members in H.
    destruct H as (sink & Hin & H). apply includes_spec in H.
    destruct H as (a' & b' & ->).
    apply issues_members. exists sink. split; [exact Hin|].
    apply includes_spec. exists (a ++ a'), (b' ++ b).
    now rewrite <- !app_assoc. }
  split; [exact Hincl|].
  rewrite (score_of_issues s), (score_of_issues (a ++ s ++ b)).
  pose proof (NoDup_incl_length (issues_NoDup s) Hincl). lia.
Qed.

End MetricsFacts.

(* ================================================================== *)
(** ** Properties of the pattern counts                                *)
(* ================================================================== *)

Module PatternFacts.
Import JS Analyzer Advice AnalyzerFacts AdviceFacts MetricsFacts.

(** A successful match consumes a beginning of the text and hands the rest
    to the continuation. *)
Lemma star_split (p : N -> bool) (k : cont) (s x : jsstring) :
  star p k s = Some x -> exists pre s', s = pre ++ s' /\ k s' = Some x.
Proof.
  induction s as [|c s IH]; simpl.
  - intro H. now exists [], [].
  - destruct (p c).
    + destruct (star p k s) as [r|] eqn:E.
      * intros [= <-]. destruct (IH eq_refl) as (pre & s' & -> & Hk).
        now exists (c :: pre), s'.
      * intro H. now exists [], (c :: s).
    + intro H. now exists [], (c :: s).
Qed.

Lemma re_match_split (r : regex) :
  forall (k : cont) (s x : jsstring),
    re_match r k s = Some x -> exists pre s', s = pre ++ s' /\ k s' = Some x.
Proof.
  induction r as [c | p | r1 IH1 r2 IH2 | r1 IH1 r2 IH2 | p]; intros k s x; simpl.
  - destruct s as [|d s]; [discriminate|].
    destruct (c =? d)%N; [|discriminate]. intro H. now exists [d], s.
  - destruct s as [|d s]; [discriminate|].
    destruct (p d); [|discriminate]. intro H. now exists [d], s.
  - intro H. destruct (IH1 _ _ _ H) as (pre1 & s1 & -> & H1).
    destruct (IH2 _ _ _ H1) as (pre2 & s2 & -> & H2).
    exists (pre1 ++ pre2), s2. now rewrite <- app_assoc.
  - destruct (re_match r1 k s) eqn:E.
    + intros [= <-]. now apply IH1.
    + apply IH2.
  - apply star_split.
Qed.

Lemma ends_in_Chr (r : regex) (c : N) : ends_in (N.eqb c) (r >> Chr c).
Proof.
  intros k s x H. simpl in H.
  destruct (re_match_split r _ _ _ H) as (pre & s' & -> & H').
  destruct s' as [|d s']; [discriminate|].
  destruct (N.eqb_spec c d) as [<- | Hne]; [|discriminate].
  exists pre, c, s'. split; [reflexivity|]. split; [apply N.eqb_refl | exact H'].
Qed.

Lemma ends_in_Alt (C : N -> bool) (r1 r2 : regex) :
  ends_in C r1 -> ends_in C r2 -> ends_in C (r1 ||| r2).
Proof.
  intros H1 H2 k s x H. simpl in H.
  destruct (re_match r1 k s) eqn:E.
  - injection H as <-. now apply H1.
  - now apply H2.
Qed.

Lemma ends_in_weaken (C D : N -> bool) (r : regex) :
  (forall c, C c = true -> D c = true) -> ends_in C r -> ends_in D r.
Proof.
  intros HCD H k s x Hm. destruct (H k s x Hm) as (pre & c & rest & E & Hc & Hk).
  exists pre, c, rest. auto.
Qed.

Lemma match_count_bound (C : N -> bool) (r : regex) :
  ends_in C r ->
  forall (s : jsstring) (skip : nat),
    (match_count r skip s <= List.length (filter C (skipn skip s)))%nat.
Proof.
  intro Hr.
  assert (Hexec : forall s rest, exec_at r s = Some rest ->
            exists pre c, s = pre ++ c :: rest /\ C c = true).
  { intros s rest H. destruct (Hr _ _ _ H) as (pre & c & rest' & E & Hc & Hk).
    injection Hk as ->. now exists pre, c. }
  induction s as [|a s IH]; intro skip.
  - simpl. destruct skip; [|lia].
    destruct (exec_at r []) as [rest|] eqn:E; [|lia].
    destruct (Hexec _ _ E) as (pre & c & H & _). destruct pre; discriminate.
  - cbn [match_count]. destruct skip as [|n]; [| apply IH].
    destruct (exec_at r (a :: s)) as [rest|] eqn:E.
    + destruct (Hexec _ _ E) as (pre & c & H & Hc).
      rewrite H at 1. rewrite length_app. cbn [List.length].
      replace (List.length pre + S (List.length rest) - List.length rest)%nat
        with (S (List.length pre)) by lia.
      cbn [Nat.pred].
      specialize (IH (List.length pre)).
      assert (Hs : skipn (List.length pre) s = rest \/
                   (pre = [] /\ s = rest)).
      { destruct pre as [|b pre]; simpl in H.
        - right. injection H as -> ->. auto.
        - left. injection H as -> ->. cbn [List.length].
          replace (S (List.length pre)) with (List.length (pre ++ [c]))
            by (rewrite length_app; simpl; lia).
          replace (pre ++ c :: rest) with ((pre ++ [c]) ++ rest)
            by (now rewrite <- app_assoc).
          apply skipn_app_length || (rewrite skipn_app, skipn_all, Nat.sub_diag; reflexivity). }
      cbn [skipn]. rewrite H, filter_app. cbn [filter]. rewrite Hc.
      rewrite length_app. cbn [List.length].
      destruct Hs as [Hs | [-> ->]].
      * rewrite Hs in IH. lia.
      * cbn [List.length skipn filter] in *. lia.
    + specialize (IH 0%nat). cbn [skipn] in *. cbn [filter].
      destruct (C a); cbn [List.length]; lia.
Qed.

Lemma matches_bound (c : N) (r : regex) (s : jsstring) :
  matches (r >> Chr c) s <= count_unit c s.
Proof.
  unfold matches, count_unit. apply Nat2Z.inj_le.
  apply (match_count_bound (N.eqb c) _ (ends_in_Chr r c) s 0%nat).
Qed.

Lemma filter_or_length (C D : N -> bool) (s : jsstring) :
  (List.length (filter (fun c => C c || D c) s)
   <= List.length (filter C s) + List.length (filter D s))%nat.
Proof.
  induction s as [|a s IH]; simpl; [lia|].
  destruct (C a), (D a); simpl; lia.
Qed.

(** X8: none of the branch counts exceeds the number of opening
    parentheses of the text, and [tryCatchBlocks] the number of opening
    parentheses and braces together; so a text without [(] and [{] has
    complexity score 0 and performance score 100. *)
Theorem branch_counts_bounded (s : jsstring) :
  let r := analyzeCodeComplexity s in
  let cx := complexity r in
  ifStatements cx <= count_unit 40 s
  /\ forLoops cx <= count_unit 40 s
  /\ whileLoops cx <= count_unit 40 s
  /\ switchStatements cx <= count_unit 40 s
  /\ tryCatchBlocks cx <= count_unit 123 s + count_unit 40 s
  /\ (count_unit 40 s = 0 -> count_unit 123 s = 0 ->
      complexityScore (metrics r) = 0 /\ performanceScore (metrics r) = 100).
Proof.
  cbv zeta.
  assert (Hi : ifStatements (complexity (analyzeCodeComplexity s))
               <= count_unit 40 s) by apply matches_bound.
  assert (Hf : forLoops (complexity (analyzeCodeComplexity s))
               <= count_unit 40 s) by apply matches_bound.
  assert (Hw : whileLoops (complexity (analyzeCodeComplexity s))
               <= count_unit 40 s) by apply matches_bound.
  assert (Hs : switchStatements (complexity (analyzeCodeComplexity s))
               <= count_unit 40 s) by apply matches_bound.
  assert (Ht : tryCatchBlocks (complexity (analyzeCodeComplexity s))
               <= count_unit 123 s + count_unit 40 s).
  { change (tryCatchBlocks (complexity (analyzeCodeComplexity s)))
      with (matches tryCatchPattern s).
    unfold matches, count_unit. rewrite <- Nat2Z.inj_add. apply Nat2Z.inj_le.
    eapply Nat.le_trans; [| apply filter_or_length].
    apply (match_count_bound (fun c => N.eqb 123 c || N.eqb 40 c)).
    apply ends_in_Alt.
    - eapply ends_in_weaken; [| apply ends_in_Chr].
      intros c ->. reflexivity.
    - eapply ends_in_weaken; [| apply ends_in_Chr].
      intros c ->. apply orb_true_r. }
  repeat (split; [assumption|]).
  intros H40 H123.
  pose proof (performanceScore_integer s) as Hp.
  pose proof (complexityScore_weights s) as Hc. cbv zeta in Hp, Hc.
  pose proof (matches_nonneg ifPattern s).
  pose proof (matches_nonneg forPattern s).
  pose proof (matches_nonneg whilePattern s).
  pose proof (matches_nonneg switchPattern s).
  pose proof (matches_nonneg tryCatchPattern s).
  change (matches ifPattern s)
    with (ifStatements (complexity (analyzeCodeComplexity s))) in *.
  change (matches forPattern s)
    with (forLoops (complexity (analyzeCodeComplexity s))) in *.
  change (matches whilePattern s)
    with (whileLoops (complexity (analyzeCodeComplexity s))) in *.
  change (matches switchPattern s)
    with (switchStatements (complexity (analyzeCodeComplexity s))) in *.
  change (matches tryCatchPattern s)
    with (tryCatchBlocks (complexity (analyzeCodeComplexity s))) in *.
  rewrite Hp, Hc. lia.
Qed.

Lemma branch_counts_bounded_witness :
  complexityScore (metrics (analyzeCodeComplexity (lit "let x = 1;"))) = 0
  /\ performanceScore (metrics (analyzeCodeComplexity (lit "let x = 1;"))) = 100.
Proof.
  apply (branch_counts_bounded (lit "let x = 1;")); reflexivity.
Defined.

End PatternFacts.

(* ================================================================== *)
(** ** More properties of the evolution store                          *)
(* ================================================================== *)

Module RequestFacts.
Import JS Evolution Requests StoreFacts HotspotFacts.

(** X9: the store is append-only: after any sequence of [record] requests
    the store file holds what it held before, unchanged and in the same
    order, followed by one snapshot for each accepted request, in the order
    of the requests, whatever their timestamps; rejected requests leave no
    trace. *)
Theorem record_all_appends (reqs : list (RecordBody * Z)) :
  forall w : world,
    readable w ->
    readable (record_all reqs w)
    /\ contents (record_all reqs w) = contents w ++ accepted_snapshots reqs.
Proof.
  induction reqs as [|[b now] reqs IH]; intros w Hw.
  - simpl. now rewrite app_nil_r.
  - cbn [record_all accepted_snapshots].
    destruct (IH (snd (record b now w)) (readable_after_record b now w Hw))
      as [Hr Hc].
    split; [exact Hr|]. rewrite Hc. clear IH Hr Hc.
    destruct (accepted b) eqn:Ha.
    + destruct (accepted_inv b Ha) as (r & m & Hrepo & Hne & Hm).
      destruct (record_accepted b now w r m Hrepo Hne Hm Hw)
        as (w' & -> & Hst & _).
      cbn [snd]. rewrite (contents_of_stored _ _ Hst), Hrepo, Hm.
      rewrite (proj2 (truthy_iff r) Hne). now rewrite <- app_assoc.
    + rewrite (record_rejected b now w Ha). cbn [snd].
      unfold accepted in Ha.
      destruct (body_repo b) as [r|]; [|reflexivity].
      destruct (truthy (Some r)); [|now destruct (body_metrics b)].
      destruct (body_metrics b); [discriminate | reflexivity].
Qed.

Lemma record_all_appends_witness :
  contents (record_all [(sample_body (Some 9), 1); (sample_body None, 2)]
              (store None))
  = [ recorded (sample_body (Some 9)) (Str (lit "octo/app")) sample_metrics 1;
      recorded (sample_body None) (Str (lit "octo/app")) sample_metrics 2 ].
Proof.
  destruct (record_all_appends
              [(sample_body (Some 9), 1); (sample_body None, 2)]
              (store None) (readable_store None)) as [_ H].
  exact H.
Defined.

Lemma timeline_world (w : world) (r : jsstring) (q : option jsstring) :
  readable w -> r <> [] ->
  files (snd (timeline (Some r) q w)) = files w.
Proof.
  intros Hw Hne. destruct r as [|c r]; [congruence|].
  unfold timeline, express, timeline_handler, bind.
  destruct Hw as [H | [d H]].
  - now rewrite (load_missing w H).
  - now rewrite (load_intact w d H).
Qed.

(** X10: [timeline] answers with exactly the stored snapshots of the
    repository, and of the file when a non-empty file name is asked for, in
    store order, and changes no file; a missing or empty [repo] is answered
    400 without reading the store. *)
Theorem timeline_selects (w : world) (r q : option jsstring) :
  readable w ->
  (truthy_string r = false ->
   timeline r q w = (Status400 (lit "Missing repo."), w))
  /\ (forall r', r = Some r' -> r' <> [] ->
      exists l,
        fst (timeline r q w) = Json_timeline l
        /\ files (snd (timeline r q w)) = files w
        /\ (forall snap,
              In snap l <->
              In snap (contents w) /\ repo snap = Str r'
              /\ (forall f, q = Some f -> f <> [] ->
                  file snap = Some (Str f)))
        /\ exists keep, l = filter keep (contents w)).
Proof.
  intro Hw. split.
  - destruct r as [[|c r]|]; try discriminate; reflexivity.
  - intros r' -> Hne.
    exists (filter (timeline_filter r' q) (contents w)).
    split; [now apply timeline_readable|].
    split; [now apply timeline_world|].
    split; [| now exists (timeline_filter r' q)].
    intro snap. rewrite filter_In. unfold timeline_filter.
    rewrite andb_true_iff, strict_eqb_eq.
    split.
    + intros (Hin & Hrepo & Hfile). split; [exact Hin|]. split; [exact Hrepo|].
      intros f -> Hf. destruct f as [|c f]; [congruence|].
      unfold option_strict_eqb in Hfile.
      destruct (file snap) as [g|]; [|discriminate].
      apply strict_eqb_eq in Hfile. now subst.
    + intros (Hin & Hrepo & Hfile). split; [exact Hin|]. split; [exact Hrepo|].
      destruct q as [[|c f]|]; try reflexivity.
      rewrite (Hfile (c :: f) eq_refl ltac:(discriminate)).
      cbn [option_strict_eqb strict_eqb]. apply jsstring_eqb_refl.
Qed.

Lemma timeline_selects_witness :
  exists l,
    fst (timeline (Some (lit "octo/app")) None (store (Some five_snapshots)))
    = Json_timeline l
    /\ files (snd (timeline (Some (lit "octo/app")) None
                     (store (Some five_snapshots))))
       = files (store (Some five_snapshots)).
Proof.
  destruct (timeline_selects (store (Some five_snapshots))
              (Some (lit "octo/app")) None
              (readable_store (Some five_snapshots))) as [_ H].
  destruct (H (lit "octo/app") eq_refl ltac:(discriminate))
    as (l & H1 & H2 & _).
  exists l. split; assumption.
Defined.

Lemma filter_snoc_false {A : Type} (p : A -> bool) (l : list A) (x : A) :
  p x = false -> filter p (l ++ [x]) = filter p l.
Proof. intro H. rewrite filter_app. simpl. rewrite H. apply app_nil_r. Qed.

Lemma hotspots_of_contents (w : world) (r : jsstring) (n : option Z) :
  readable w -> r <> [] ->
  fst (hotspots (Some r) n w)
  = fst (hotspots (Some r) n (store (Some (contents w)))).
Proof.
  intros Hw Hne. destruct r as [|c r]; [congruence|].
  destruct (load_readable w Hw) as (w1 & Hload & _).
  destruct (load_readable (store (Some (contents w)))
              (readable_store _)) as (w2 & Hload2 & _).
  rewrite contents_store in Hload2.
  unfold hotspots, express, hotspots_handler, bind, lift.
  rewrite Hload, Hload2.
  destruct (forEach_add _ []); [reflexivity|].
  destruct (map_hotspot _ _); reflexivity.
Qed.

Lemma same_repo_filter (d : list Snapshot) (x : Snapshot) (r : jsstring) :
  repo x <> Str r ->
  filter (fun snap => strict_eqb (repo snap) r) (d ++ [x])
  = filter (fun snap => strict_eqb (repo snap) r) d.
Proof.
  intro H. apply filter_snoc_false.
  destruct (strict_eqb (repo x) r) eqn:E; [|reflexivity].
  apply strict_eqb_eq in E. congruence.
Qed.

Lemma hotspots_stored (d : list Snapshot) (r : jsstring) (n : option Z) :
  r <> [] ->
  fst (hotspots (Some r) n (store (Some d)))
  = match forEach_add
            (filter (fun snap => strict_eqb (repo snap) r) d) [] with
    | inl _ => Status500
    | inr byFile =>
        match map_hotspot (or_number n 5) (Object_entries byFile) with
        | inl _ => Status500
        | inr hs =>
            Json_hotspots (Array_sort by_complexityTrend (filter_Boolean hs))
        end
    end.
Proof.
  intro Hne. destruct r as [|c r]; [congruence|].
  destruct (load_readable (store (Some d)) (readable_store _))
    as (w2 & Hload2 & _).
  rewrite contents_store in Hload2.
  unfold hotspots, express, hotspots_handler, bind, lift.
  rewrite Hload2.
  destruct (forEach_add _ []); [reflexivity|].
  destruct (map_hotspot _ _); reflexivity.
Qed.

(** X11: repositories are separate: a [record] request for one repository,
    accepted or not, changes neither the timeline nor the hotspots of
    another repository. *)
Theorem record_leaves_other_repos (b : RecordBody) (now : Z) (w : world)
    (r : jsstring) (q : option jsstring) (n : option Z) :
  readable w -> r <> [] -> body_repo b <> Some (Str r) ->
  fst (timeline (Some r) q (snd (record b now w)))
  = fst (timeline (Some r) q w)
  /\ fst (hotspots (Some r) n (snd (record b now w)))
     = fst (hotspots (Some r) n w).
Proof.
  intros Hw Hne Hb.
  pose proof (readable_after_record b now w Hw) as Hw'.
  rewrite !timeline_readable by assumption.
  rewrite (hotspots_of_contents _ r n Hw' Hne),
    (hotspots_of_contents w r n Hw Hne), !hotspots_stored by assumption.
  destruct (accepted b) eqn:Ha.
  - destruct (accepted_inv b Ha) as (r0 & m & Hrepo & Hne0 & Hm).
    destruct (record_accepted b now w r0 m Hrepo Hne0 Hm Hw)
      as (w' & Hrec & Hst & _).
    rewrite Hrec in *. cbn [snd] in *.
    rewrite (contents_of_stored _ _ Hst).
    assert (Hr : repo (recorded b r0 m now) <> Str r).
    { unfold recorded; cbn [repo]. intro E. apply Hb. now rewrite Hrepo, E. }
    rewrite same_repo_filter by exact Hr.
    split; [| reflexivity]. f_equal. apply filter_snoc_false.
    unfold timeline_filter.
    destruct (strict_eqb (repo (recorded b r0 m now)) r) eqn:E;
      [| reflexivity].
    apply strict_eqb_eq in E. congruence.
  - rewrite (record_rejected b now w Ha). split; reflexivity.
Qed.

Lemma record_leaves_other_repos_witness :
  fst (timeline (Some (lit "other/repo")) None
         (snd (record (sample_body None) 7 (store (Some five_snapshots)))))
  = fst (timeline (Some (lit "other/repo")) None (store (Some five_snapshots))).
Proof.
  apply (record_leaves_other_repos (sample_body None) 7
           (store (Some five_snapshots)) (lit "other/repo") None None).
  - apply readable_store.
  - discriminate.
  - discriminate.
Defined.


(** *** Errors of the hotspot handler *)

Lemma set_In (k : jsstring) (v : list Snapshot) (o : object) (e : jsstring * list Snapshot) :
  In e (set k v o) -> fst e = k \/ In e o.
Proof.
  induction o as [|[k' v'] o IH]; simpl.
  - intros [<- | []]. now left.
  - destruct (jsstring_eqb k' k) eqn:E; simpl.
    + intros [<- | H]; [| auto]. left. now apply jsstring_eqb_eq.
    + intros [<- | H]; [auto|]. destruct (IH H); auto.
Qed.

Lemma add_snapshot_keys (o o' : object) (snap : Snapshot) :
  no_inherited_key o -> add_snapshot o snap = inr o' -> no_inherited_key o'.
Proof.
  intros Ho. unfold add_snapshot, get.
  destruct (truthy (file snap)); cbn [negb]; [| intros [= <-]; exact Ho].
  destruct (file snap) as [v|]; [| intros [= <-]; exact Ho].
  destruct (property_key v) as [k0|]; [|discriminate].
  destruct (own k0 o) as [l|] eqn:E.
  - intros [= <-] k v' Hin. destruct (set_In _ _ _ _ Hin) as [Hk | Hk].
    + simpl in Hk. subst k. exact (Ho _ _ (own_In _ _ _ E)).
    + exact (Ho _ _ Hk).
  - destruct (inherited k0) eqn:Ei; [discriminate|].
    intros [= <-] k v' Hin. destruct (set_In _ _ _ _ Hin) as [Hk | Hk].
    + simpl in Hk. now subst k.
    + exact (Ho _ _ Hk).
Qed.

Lemma own_inherited (o : object) (k : jsstring) :
  no_inherited_key o -> inherited k = true -> own k o = None.
Proof.
  intros Ho Hk. destruct (own k o) as [v|] eqn:E; [|reflexivity].
  apply own_In in E. rewrite (Ho _ _ E) in Hk. discriminate.
Qed.

Lemma add_snapshot_error (o : object) (snap : Snapshot) (e : exn) :
  add_snapshot o snap = inl e -> e = TypeError.
Proof.
  unfold add_snapshot.
  destruct (truthy (file snap)); cbn [negb]; [|discriminate].
  destruct (file snap) as [v|]; [|discriminate].
  destruct (property_key v) as [k|]; [| congruence].
  destruct (get k o); try discriminate. congruence.
Qed.

Lemma forEach_add_throws (data : list Snapshot) :
  forall o : object,
    no_inherited_key o ->
    (exists snap k, In snap data /\ file_key snap = Some k
                    /\ inherited k = true) ->
    forEach_add data o = inl TypeError.
Proof.
  induction data as [|x data IH]; intros o Ho (snap & k & Hin & Hf & Hi).
  - destruct Hin.
  - simpl. destruct (add_snapshot o x) as [e | o'] eqn:E.
    + now rewrite (add_snapshot_error _ _ _ E).
    + destruct Hin as [-> | Hin].
      * exfalso. unfold add_snapshot, get in E.
        destruct (file_key_truthy snap k Hf) as (Ht & v & Hv & Hpk).
        rewrite Ht, Hv, Hpk in E. cbn [negb] in E.
        rewrite (own_inherited o _ Ho Hi), Hi in E. discriminate.
      * apply IH; [exact (add_snapshot_keys _ _ _ Ho E)|].
        now exists snap, k.
Qed.

(** X12: whenever a stored snapshot of the repository has a file name that
    [Object.prototype] defines, or a [file] of another type that converts
    to such a name, whatever else is stored and whatever the window,
    [hotspots] answers 500: grouping throws before any trend is computed. *)
Theorem hotspots_inherited_name_fails (w : world) (r k : jsstring)
    (n : option Z) (snap : Snapshot) :
  readable w -> r <> [] ->
  In snap (contents w) -> repo snap = Str r ->
  file snap = Some (Str k) \/ file snap = Some (NotStr (Some k)) ->
  k <> [] -> inherited k = true ->
  fst (hotspots (Some r) n w) = Status500.
Proof.
  intros Hw Hne Hin Hrepo Hf Hk Hi.
  rewrite (hotspots_of_contents w r n Hw Hne), hotspots_stored by exact Hne.
  rewrite forEach_add_throws; [reflexivity | intros ? ? [] |].
  exists snap, k. split; [| split; [| exact Hi]].
  - apply filter_In. split; [exact Hin|]. now apply strict_eqb_eq.
  - unfold file_key. destruct Hf as [-> | ->]; [| reflexivity].
    destruct k; [congruence | reflexivity].
Qed.

Lemma hotspots_inherited_name_fails_witness :
  fst (hotspots (Some (lit "octo/app")) None
         (store (Some (five_snapshots ++ [snapshot_of "toString" 6 1]))))
  = Status500.
Proof.
  apply (hotspots_inherited_name_fails _ (lit "octo/app") (lit "toString") None
           (snapshot_of "toString" 6 1)).
  - apply readable_store.
  - discriminate.
  - rewrite contents_store. apply in_or_app. right. left. reflexivity.
  - reflexivity.
  - left. reflexivity.
  - discriminate.
  - reflexivity.
Defined.

Lemma set_nonempty (k : jsstring) (v : list Snapshot) (o : object) :
  set k v o <> [].
Proof.
  destruct o as [|[k' v'] o]; simpl; [discriminate|].
  destruct (jsstring_eqb k' k); discriminate.
Qed.

Lemma add_snapshot_nonempty (o o' : object) (snap : Snapshot) :
  add_snapshot o snap = inr o' ->
  (o <> [] \/ has_file snap = true) -> o' <> [].
Proof.
  unfold add_snapshot, has_file.
  destruct (file snap) as [v|];
    [| cbn; intros [= <-] [H | H]; [exact H | discriminate]].
  destruct (truthy (Some v)); cbn [negb].
  - destruct (property_key v) as [k|]; [|discriminate].
    destruct (get k o); try discriminate; intros [= <-] _; apply set_nonempty.
  - intros [= <-] [H | H]; [exact H | discriminate].
Qed.

Lemma forEach_add_nonempty (data : list Snapshot) :
  forall o o' : object,
    forEach_add data o = inr o' ->
    (o <> [] \/ existsb has_file data = true) -> o' <> [].
Proof.
  induction data as [|x data IH]; intros o o'; simpl.
  - intros [= <-] [H | H]; [exact H | discriminate].
  - destruct (add_snapshot o x) as [e | o1] eqn:E; [discriminate|].
    intros H Hor. apply (IH o1 o' H).
    destruct Hor as [Ho | Hx].
    + left. apply (add_snapshot_nonempty _ _ _ E). now left.
    + apply orb_true_iff in Hx. destruct Hx as [Hx | Hx]; [| now right].
      left. apply (add_snapshot_nonempty _ _ _ E). now right.
Qed.

Lemma add_snapshot_no_file (o : object) (snap : Snapshot) :
  has_file snap = false -> add_snapshot o snap = inr o.
Proof. unfold add_snapshot, has_file. now intros ->. Qed.

Lemma forEach_add_no_file (data : list Snapshot) (o : object) :
  existsb has_file data = false -> forEach_add data o = inr o.
Proof.
  induction data as [|x data IH]; simpl; [reflexivity|].
  intro H. apply orb_false_iff in H. destruct H as [Hx Hd].
  rewrite (add_snapshot_no_file o x Hx). now apply IH.
Qed.

Lemma hotspot_negative (n : Z) (e : jsstring * list Snapshot) :
  n < 0 -> hotspot n e = inl TypeError.
Proof.
  intro Hn. destruct e as [f snaps]. unfold hotspot.
  destruct (Z.ltb_spec (Z.of_nat (List.length (Array_sort by_timestamp snaps))) n);
    [lia|].
  unfold index at 1.
  destruct (Z.ltb_spec (Z.of_nat (List.length (Array_sort by_timestamp snaps)) - n) 0);
    [lia|].
  destruct (nth_error _ _) eqn:E; [| reflexivity].
  assert (Hlt : nth_error (Array_sort by_timestamp snaps)
                  (Z.to_nat (Z.of_nat (List.length (Array_sort by_timestamp snaps)) - n))
                <> None) by congruence.
  apply nth_error_Some in Hlt. lia.
Qed.

(** X13: the edge cases of the window.  A repository without a snapshot
    that names a file has no hotspots, whatever the window; a missing
    window or a window of 0 is a window of 5; a negative window is answered
    500 as soon as one snapshot of the repository names a file, the start
    of the window then lying behind the end of the group. *)
Theorem hotspots_window_edges (w : world) (r : jsstring) :
  readable w -> r <> [] ->
  let mine := filter (fun snap => strict_eqb (repo snap) r) (contents w) in
  (existsb has_file mine = false ->
   forall n, fst (hotspots (Some r) n w) = Json_hotspots [])
  /\ fst (hotspots (Some r) None w) = fst (hotspots (Some r) (Some 5) w)
  /\ fst (hotspots (Some r) (Some 0) w) = fst (hotspots (Some r) (Some 5) w)
  /\ (existsb has_file mine = true ->
      forall n, n < 0 -> fst (hotspots (Some r) (Some n) w) = Status500).
Proof.
  intros Hw Hne. cbv zeta.
  split; [| split; [| split]].
  - intros Hnone n.
    rewrite (hotspots_of_contents w r n Hw Hne), hotspots_stored by exact Hne.
    now rewrite (forEach_add_no_file _ [] Hnone).
  - rewrite !(hotspots_of_contents w r _ Hw Hne), !hotspots_stored by exact Hne.
    reflexivity.
  - rewrite !(hotspots_of_contents w r _ Hw Hne), !hotspots_stored by exact Hne.
    reflexivity.
  - intros Hsome n Hn.
    rewrite (hotspots_of_contents w r _ Hw Hne), hotspots_stored by exact Hne.
    destruct (forEach_add _ []) as [e | o] eqn:E; [reflexivity|].
    assert (Ho : o <> []) by (apply (forEach_add_nonempty _ _ _ E); now right).
    assert (Hn' : or_number (Some n) 5 = n).
    { simpl. destruct (Z.eqb_spec n 0); [lia | reflexivity]. }
    rewrite Hn'.
    destruct (Object_entries o) as [|e es] eqn:Ee.
    + exfalso. apply Ho. destruct o as [|x o]; [reflexivity|].
      assert (Hin : In x (Object_entries (x :: o)))
        by (apply Object_entries_In; now left).
      rewrite Ee in Hin. destruct Hin.
    + simpl. now rewrite (hotspot_negative n e Hn).
Qed.

Lemma hotspots_window_edges_witness :
  fst (hotspots (Some (lit "octo/app")) (Some (-1)) (store (Some five_snapshots)))
  = Status500.
Proof.
  destruct (hotspots_window_edges (store (Some five_snapshots)) (lit "octo/app")
              (readable_store _) ltac:(discriminate)) as (_ & _ & _ & H).
  apply H; [rewrite contents_store; reflexivity | lia].
Defined.


(** *** Reading handlers *)

Lemma load_files (w : world) : files (snd (loadEvolutionData w)) = files w.
Proof.
  destruct (files w EVOLUTION_DB_PATH) as [[d|]|] eqn:E.
  - now rewrite (load_intact w d E).
  - now rewrite (load_torn w E).
  - now rewrite (load_missing w E).
Qed.

Lemma hotspots_files (w : world) (r : option jsstring) (n : option Z) :
  files (snd (hotspots r n w)) = files w.
Proof.
  unfold hotspots, express, hotspots_handler.
  destruct r as [[|c r]|]; try reflexivity.
  unfold bind. pose proof (load_files w) as Hl.
  destruct (loadEvolutionData w) as [[e | d] w1]; cbn [snd] in *; [exact Hl|].
  unfold lift. destruct (forEach_add _ []); [exact Hl|].
  destruct (map_hotspot _ _); exact Hl.
Qed.

Lemma timeline_files (w : world) (r q : option jsstring) :
  files (snd (timeline r q w)) = files w.
Proof.
  unfold timeline, express, timeline_handler.
  destruct r as [[|c r]|]; try reflexivity.
  unfold bind. pose proof (load_files w) as Hl.
  destruct (loadEvolutionData w) as [[e | d] w1]; cbn [snd] in *; exact Hl.
Qed.

Lemma trend_files_NoDup (n : Z) (es : list (jsstring * list Snapshot)) :
  0 < n -> NoDup (List.map fst es) ->
  NoDup (List.map H.file (filter_Boolean (List.map (trend n) es))).
Proof.
  intros Hn. induction es as [|[k v] es IH]; simpl; [constructor|].
  intro Hnd. inversion Hnd as [|? ? Hnotin Hnd']; subst.
  destruct (trend n (k, v)) as [h|] eqn:E; [| now apply IH].
  simpl. constructor; [| now apply IH].
  destruct (trend_Some n k v h Hn E) as [-> _].
  intro Hin. apply Hnotin. apply in_map_iff in Hin.
  destruct Hin as (h' & Hfile & Hin'). apply filter_Boolean_In in Hin'.
  apply in_map_iff in Hin'. destruct Hin' as ([k' v'] & Ht & Hin').
  destruct (trend_Some n k' v' h' Hn Ht) as [Hk _].
  apply in_map_iff. exists (k', v'). split; [simpl; congruence | exact Hin'].
Qed.

Lemma entry_exact (f : jsstring) (first last : Snapshot) :
  small_scores first -> small_scores last ->
  entry f first last = exact_entry f first last.
Proof.
  intros (H1 & H2 & H3) (H4 & H5 & H6). unfold entry, exact_entry.
  now rewrite !Number_sub_exact.
Qed.

(** X14: for a positive window and stored [file] values that convert to
    property names which [Object.prototype] does not define, the answer of
    [hotspots] has exactly one entry for each name under which the
    repository has at least [window] snapshots, and no other entry; the
    entry gives, between the snapshot at position [length - window] and
    the last snapshot of the group sorted by timestamp, what the binary64
    subtraction makes of the maintainability indices, of the complexity
    scores and of the security scores (a missing score counting as 0),
    with the metrics of the last snapshot as [latest]; these are the exact
    differences when the scores are at most 2^52 in absolute value; no file
    is changed. *)
Theorem hotspots_entries (w : world) (r : jsstring) (n : Z) :
  readable w -> r <> [] -> 0 < n ->
  (forall snap, In snap (contents w) -> repo snap = Str r -> safe_file snap) ->
  exists hs,
    fst (hotspots (Some r) (Some n) w) = Json_hotspots hs
    /\ files (snd (hotspots (Some r) (Some n) w)) = files w
    /\ NoDup (List.map H.file hs)
    /\ (forall h,
          In h hs <->
          exists (f : jsstring) (first last : Snapshot),
            (let g := group r f (contents w) in
             let sorted := Array_sort by_timestamp g in
             let len := Z.of_nat (List.length g) in
             n <= len
             /\ index sorted (len - n) = Some first
             /\ index sorted (len - 1) = Some last)
            /\ h = entry f first last)
    /\ forall (f : jsstring) (first last : Snapshot),
         small_scores first -> small_scores last ->
         entry f first last = exact_entry f first last.
Proof.
  intros Hw Hr Hn Hsafe.
  destruct (hotspots_run w r n Hw Hr Hn) as (o & Hnd & Hown & Hres).
  { apply Forall_forall. intros snap Hin. apply filter_In in Hin.
    destruct Hin as [Hin Hrepo]. apply Hsafe; [exact Hin|].
    now apply strict_eqb_eq. }
  eexists. split; [exact Hres|]. split; [apply hotspots_files|]. split.
  { eapply Permutation_NoDup.
    - apply Permutation_map, Array_sort_perm.
    - apply trend_files_NoDup; [exact Hn|].
      eapply Permutation_NoDup; [| exact Hnd].
      apply Permutation_map, Object_entries_perm. }
  split; [| exact entry_exact].
  intro h. rewrite Array_sort_In, filter_Boolean_In, in_map_iff. split.
  - intros ([k snaps] & Ht & Hin).
    apply (proj1 (Object_entries_In _ _)) in Hin.
    pose proof (In_own k snaps o Hnd Hin) as Ho.
    rewrite (Hown k) in Ho. apply merged_None_inv in Ho.
    destruct Ho as [-> _].
    destruct (hotspot_cases n k (group r k (contents w)) Hn)
      as [[Hlt Hhot] | (Hge & first & last & Hfirst & Hlast & Hhot)];
      pose proof (hotspot_returns n (k, group r k (contents w)) Hn) as Hret;
      rewrite Hhot in Hret; injection Hret as Hret; rewrite <- Hret in Ht;
      [discriminate|].
    injection Ht as <-. exists k, first, last.
    split; [| reflexivity]. cbv zeta. auto.
  - intros (f & first & last & (Hge & Hfirst & Hlast) & ->).
    exists (f, group r f (contents w)). split.
    + destruct (hotspot_cases n f (group r f (contents w)) Hn)
        as [[Hlt _] | (_ & first' & last' & Hfirst' & Hlast' & Hhot)]; [lia|].
      pose proof (hotspot_returns n (f, group r f (contents w)) Hn) as Hret.
      rewrite Hhot in Hret. injection Hret as Hret. rewrite <- Hret.
      rewrite Hfirst in Hfirst'. rewrite Hlast in Hlast'.
      injection Hfirst' as <-. injection Hlast' as <-. reflexivity.
    + apply Object_entries_In, own_In. rewrite (Hown f).
      destruct (group r f (contents w)) eqn:E; [| reflexivity].
      simpl in Hge. lia.
Qed.

Lemma hotspots_entries_witness :
  exists hs,
    fst (hotspots (Some (lit "octo/app")) (Some 5) (store (Some five_snapshots)))
    = Json_hotspots hs
    /\ NoDup (List.map H.file hs).
Proof.
  destruct (hotspots_entries (store (Some five_snapshots)) (lit "octo/app") 5)
    as (hs & H1 & _ & H2 & _).
  - apply readable_store.
  - discriminate.
  - lia.
  - intros snap Hin _. rewrite contents_store in Hin.
    revert snap Hin. apply safe_fileb_sound. reflexivity.
  - exists hs. split; assumption.
Defined.

(** *** A store file cut short *)

(** X15: a store file that does not parse is never repaired or replaced:
    [record], [timeline] and [hotspots] with a non-empty [repo] all answer
    500, and the file is as it was; only a request without [repo] or
    without [metrics] is still answered 400. *)
Theorem torn_store_stays_torn (w : world) (b : RecordBody) (now : Z)
    (r : jsstring) (q : option jsstring) (n : option Z) :
  stored w = Some Torn -> r <> [] ->
  (accepted b = true -> fst (record b now w) = Status500)
  /\ (accepted b = false ->
      fst (record b now w) = Status400 (lit "Missing repo or metrics."))
  /\ stored (snd (record b now w)) = Some Torn
  /\ fst (timeline (Some r) q w) = Status500
  /\ fst (hotspots (Some r) n w) = Status500
  /\ stored (snd (timeline (Some r) q w)) = Some Torn
  /\ stored (snd (hotspots (Some r) n w)) = Some Torn.
Proof.
  intros Hw Hr. destruct r as [|c r]; [congruence|].
  assert (Hrec : accepted b = true ->
                 record b now w
                 = (Status500, called (ReadFileSync EVOLUTION_DB_PATH)
                                 (called (ExistsSync EVOLUTION_DB_PATH) w))).
  { intro Ha. destruct (accepted_inv b Ha) as (r0 & m & Hrepo & Hne0 & Hm).
    unfold record, express, record_handler, bind.
    now rewrite Hrepo, Hm, (proj2 (truthy_iff r0) Hne0), (load_torn w Hw). }
  split; [intro Ha; now rewrite (Hrec Ha)|].
  split; [intro Ha; now rewrite (record_rejected b now w Ha)|].
  split.
  { destruct (accepted b) eqn:Ha.
    - now rewrite (Hrec eq_refl).
    - now rewrite (record_rejected b now w Ha). }
  split; [now apply timeline_torn|].
  split.
  { unfold hotspots, express, hotspots_handler, bind.
    now rewrite (load_torn w Hw). }
  unfold stored in *. now rewrite timeline_files, hotspots_files.
Qed.

Lemma torn_store_stays_torn_witness :
  fst (record (sample_body None) 5
         (writeFileSync_interrupted EVOLUTION_DB_PATH [] (store None)))
  = Status500.
Proof.
  destruct (torn_store_stays_torn
              (writeFileSync_interrupted EVOLUTION_DB_PATH [] (store None))
              (sample_body None) 5 (lit "octo/app") None None
              eq_refl ltac:(discriminate)) as [H _].
  apply H. reflexivity.
Defined.

End RequestFacts.

(* ================================================================== *)
(** ** Properties of the repository summary                            *)
(* ================================================================== *)

Module RepositoryFacts.
Import JS Analyzer Advice Repository AnalyzerFacts AdviceFacts MetricsFacts.

(** *** The advice of a repository *)

Lemma generateRepositoryRecommendations_mem (am ap si tf : Z) :
  let b1 := am <? 60 in
  let b2 := ap <? 70 in
  let b3 := 0 <? si in
  let b4 := 30 <? tf in
  let recs := generateRepositoryRecommendations am ap si tf in
  mem repo_maintainability_advice recs = b1
  /\ mem repo_performance_advice recs = b2
  /\ mem repo_security_advice recs = b3
  /\ mem repo_size_advice recs = b4
  /\ mem repo_praise recs = negb (b1 || b2 || b3 || b4)
  /\ recs = filter (fun m => mem m recs) repo_advice.
Proof.
  cbv zeta. unfold generateRepositoryRecommendations. cbv zeta.
  destruct (am <? 60), (ap <? 70), (0 <? si), (30 <? tf);
    vm_compute; repeat split; reflexivity.
Qed.

(** X16: [generateRepositoryRecommendations] pushes each advice exactly
    when its test holds (average maintainability below 60, average
    performance below 70, a positive number of security issues, more than
    30 files), the praise exactly when none holds, and nothing else; the
    result is never empty and keeps the fixed order without repetition. *)
Theorem generateRepositoryRecommendations_rules (am ap si tf : Z) :
  let recs := generateRepositoryRecommendations am ap si tf in
  (In repo_maintainability_advice recs <-> am < 60)
  /\ (In repo_performance_advice recs <-> ap < 70)
  /\ (In repo_security_advice recs <-> 0 < si)
  /\ (In repo_size_advice recs <-> 30 < tf)
  /\ (In repo_praise recs <-> 60 <= am /\ 70 <= ap /\ si <= 0 /\ tf <= 30)
  /\ recs <> []
  /\ recs = filter (fun m => mem m recs) repo_advice.
Proof.
  cbv zeta.
  destruct (generateRepositoryRecommendations_mem am ap si tf)
    as (H1 & H2 & H3 & H4 & H5 & H6).
  apply In_of_mem in H1, H2, H3, H4, H5.
  rewrite Z.ltb_lt in H1, H2, H3, H4.
  assert (Hp : In repo_praise (generateRepositoryRecommendations am ap si tf)
               <-> 60 <= am /\ 70 <= ap /\ si <= 0 /\ tf <= 30).
  { rewrite H5, negb_true_iff, !orb_false_iff, !Z.ltb_ge. tauto. }
  split; [exact H1|]. split; [exact H2|]. split; [exact H3|].
  split; [exact H4|]. split; [exact Hp|]. split; [| exact H6].
  intro E. rewrite E in H1, H2, H3, H4, Hp. simpl in H1, H2, H3, H4, Hp.
  lia.
Qed.

(** *** The average *)

Lemma sum_fold (l : list Z) (a : Z) :
  fold_left Z.add l a = a + fold_right Z.add 0 l.
Proof.
  revert a. induction l as [|x l IH]; intro a; simpl; [lia|].
  rewrite IH. lia.
Qed.

Lemma sum_bounds (lo hi : Z) (l : list Z) :
  Forall (fun x => lo <= x <= hi) l ->
  lo * Z.of_nat (List.length l) <= sum l <= hi * Z.of_nat (List.length l).
Proof.
  unfold sum. rewrite sum_fold. induction 1 as [|x l Hx Hl IH].
  - simpl. lia.
  - cbn [fold_right List.length]. rewrite Nat2Z.inj_succ. lia.
Qed.

Lemma Math_round_quotient (a : Z) (n : positive) :
  Math_round (inject_Z a / inject_Z (Zpos n)) = (2 * a + Zpos n) / (2 * Zpos n).
Proof.
  unfold Math_round.
  assert (H : (inject_Z a / inject_Z (Zpos n) + (1 # 2)
               == (2 * a + Zpos n) # (2 * n))%Q).
  { rewrite <- (Qmake_Qdiv a n). unfold Qeq, Qplus. cbn [Qnum Qden].
    rewrite ?Pos2Z.inj_mul. ring. }
  rewrite (Qfloor_comp _ _ H). reflexivity.
Qed.

Lemma average_formula (scores : list Z) :
  scores <> [] ->
  let n := Z.of_nat (List.length scores) in
  average scores = (2 * fold_right Z.add 0 scores + n) / (2 * n).
Proof.
  intro Hne. cbv zeta.
  assert (Hlen : (0 < List.length scores)%nat)
    by (destruct scores; [congruence | simpl; lia]).
  unfold average. destruct (Nat.ltb_spec 0 (List.length scores)); [|lia].
  destruct (Z.of_nat (List.length scores)) as [|n|n] eqn:En; try lia.
  rewrite Math_round_quotient. unfold sum. rewrite sum_fold. reflexivity.
Qed.

Lemma average_between (scores : list Z) (lo hi : Z) :
  scores <> [] ->
  Forall (fun x => lo <= x <= hi) scores ->
  lo <= average scores <= hi.
Proof.
  intros Hne Hall.
  assert (Hlen : (0 < List.length scores)%nat)
    by (destruct scores; [congruence | simpl; lia]).
  pose proof (sum_bounds lo hi scores Hall) as Hs.
  unfold sum in Hs. rewrite sum_fold in Hs.
  rewrite (average_formula scores Hne). cbv zeta.
  set (n := Z.of_nat (List.length scores)) in *.
  set (t := fold_right Z.add 0 scores) in *.
  assert (Hn : 0 < n) by (unfold n; lia).
  split.
  - apply Z.div_le_lower_bound; nia.
  - apply Z.lt_succ_r, Z.div_lt_upper_bound; nia.
Qed.

(** X17: the average of the per-file scores is the sum divided by the
    count, rounded to the nearest integer with halves up, that is
    floor((2*sum + n) / (2*n)); it is 0 for no score, and it lies between
    any two bounds that hold for every score. *)
Theorem average_spec (scores : list Z) (lo hi : Z) :
  average [] = 0
  /\ (scores <> [] ->
      let n := Z.of_nat (List.length scores) in
      average scores = (2 * fold_right Z.add 0 scores + n) / (2 * n)
      /\ (Forall (fun x => lo <= x <= hi) scores ->
          lo <= average scores <= hi)).
Proof.
  split; [reflexivity|]. intro Hne. cbv zeta. split.
  - apply (average_formula scores Hne).
  - now apply average_between.
Qed.

Lemma average_spec_witness : 60 <= average [60; 61; 100] <= 100.
Proof.
  destruct (average_spec [60; 61; 100] 60 100) as [_ H].
  destruct (H ltac:(discriminate)) as [_ H'].
  apply H'. repeat constructor; lia.
Defined.


(** *** The loop over the files *)

Lemma analyze_files_fold (fetch : jsstring -> option jsstring)
    (files : list TreeItem) :
  forall (st : Overall) (acc : list FileAnalysis),
    fold_left (analyze_file fetch) files (st, acc)
    = (let fas := analyzed fetch files in
       {| totalFiles := totalFiles st;
          totalLines := totalLines st + total Analyzer.totalLines fas;
          totalFunctions := totalFunctions st + total functionCount fas;
          totalComplexity := totalComplexity st + total complexityScore fas;
          maintainabilityScores :=
            maintainabilityScores st
            ++ List.map (fun fa => maintainabilityIndex (metrics (analysis fa))) fas;
          performanceScores :=
            performanceScores st
            ++ List.map (fun fa => performanceScore (metrics (analysis fa))) fas;
          securityIssues := securityIssues st ++ all_issues fas;
          fileTypes := counted fas (fileTypes st) |},
       acc ++ analyzed fetch files).
Proof.
  induction files as [|file files IH]; intros st acc.
  - cbn. destruct st. cbn. rewrite !Z.add_0_r, !app_nil_r. reflexivity.
  - cbn [fold_left analyzed]. unfold analyze_file at 2.
    destruct (fetch (path file)) as [code|]; [| apply IH].
    rewrite IH. cbv zeta.
    cbn [totalFiles totalLines totalFunctions totalComplexity
         maintainabilityScores performanceScores securityIssues fileTypes
         total all_issues counted List.map flat_map fold_right fold_left
         analysis metrics file_path].
    rewrite <- !app_assoc. cbn [app].
    f_equal. f_equal; try (unfold total; lia); reflexivity.
Qed.

Lemma analyze_files_spec (fetch : jsstring -> option jsstring)
    (files : list TreeItem) :
  analyze_files fetch files
  = (let fas := analyzed fetch files in
     {| totalFiles := Z.of_nat (List.length files);
        totalLines := total Analyzer.totalLines fas;
        totalFunctions := total functionCount fas;
        totalComplexity := total complexityScore fas;
        maintainabilityScores :=
          List.map (fun fa => maintainabilityIndex (metrics (analysis fa))) fas;
        performanceScores :=
          List.map (fun fa => performanceScore (metrics (analysis fa))) fas;
        securityIssues := all_issues fas;
        fileTypes := counted fas [] |},
     analyzed fetch files).
Proof. unfold analyze_files. rewrite analyze_files_fold. reflexivity. Qed.

Lemma analyzed_length (fetch : jsstring -> option jsstring)
    (files : list TreeItem) :
  (List.length (analyzed fetch files) <= List.length files)%nat.
Proof.
  induction files as [|file files IH]; simpl; [lia|].
  destruct (fetch (path file)); simpl; lia.
Qed.

Lemma codeFiles_length (tree : list TreeItem) :
  (List.length (codeFiles tree) <= 50)%nat.
Proof. unfold codeFiles. apply firstn_le_length. Qed.

Lemma codeFiles_nil (tree : list TreeItem) :
  codeFiles tree = [] <-> filter isCodeFile tree = [].
Proof.
  unfold codeFiles. destruct (filter isCodeFile tree); simpl;
    split; congruence.
Qed.

Lemma scores_within_0_100_parts (s : jsstring) :
  0 <= maintainabilityIndex (metrics (analyzeCodeComplexity s)) <= 100
  /\ 0 <= performanceScore (metrics (analyzeCodeComplexity s)) <= 100.
Proof.
  split.
  - apply maintainability_range.
    + apply (complexityScore_nonneg s).
    + apply matches_nonneg.
    + apply totalLines_pos.
  - apply performance_range; apply matches_nonneg.
Qed.

Lemma scores_in_range (fas : list FileAnalysis)
    (fetch : jsstring -> option jsstring) (files : list TreeItem) :
  fas = analyzed fetch files ->
  Forall (fun x => 0 <= x <= 100)
    (List.map (fun fa => maintainabilityIndex (metrics (analysis fa))) fas)
  /\ Forall (fun x => 0 <= x <= 100)
       (List.map (fun fa => performanceScore (metrics (analysis fa))) fas).
Proof.
  intros ->. induction files as [|file files [IH1 IH2]]; simpl.
  - split; constructor.
  - destruct (fetch (path file)) as [code|]; [| now split].
    destruct (scores_within_0_100_parts code) as [Hm Hp].
    split; constructor; assumption.
Qed.


(** *** Extensions *)

Lemma split_dot_no_dot (e : jsstring) :
  forallb not_dot e = true -> split_dot e = [e].
Proof.
  induction e as [|c e IH]; simpl; [reflexivity|].
  unfold not_dot at 1. intro H. apply andb_true_iff in H. destruct H as [Hc He].
  apply negb_true_iff in Hc. rewrite Hc, (IH He). reflexivity.
Qed.

Lemma split_dot_last (pre e : jsstring) :
  forallb not_dot e = true ->
  exists l ls, split_dot (pre ++ 46%N :: e) = l :: ls
               /\ ls <> [] /\ last ls [] = e.
Proof.
  intro He. induction pre as [|c pre (l & ls & E & Hne & Hlast)].
  - simpl. rewrite (split_dot_no_dot e He). exists [], [e].
    split; [reflexivity|]. split; [discriminate | reflexivity].
  - cbn [app split_dot]. rewrite E. destruct (c =? 46)%N.
    + exists [], (l :: ls). split; [reflexivity|]. split; [discriminate|].
      destruct ls; [congruence | exact Hlast].
    + exists (c :: l), ls. auto.
Qed.

Lemma fileExtension_of_suffix (pre e : jsstring) :
  e <> [] -> forallb not_dot e = true ->
  fileExtension (pre ++ 46%N :: e) = e.
Proof.
  intros Hne He. unfold fileExtension.
  destruct (split_dot_last pre e He) as (l & ls & -> & Hls & Hlast).
  destruct ls as [|x ls]; [congruence|].
  cbn [last]. cbn [last] in Hlast. rewrite Hlast.
  destruct e; [congruence | reflexivity].
Qed.

Lemma endsWith_spec (suffix s : jsstring) :
  endsWith suffix s = true <-> exists pre, s = pre ++ suffix.
Proof.
  unfold endsWith. rewrite startsWith_spec. split.
  - intros [b Hb]. exists (rev b).
    apply (f_equal (@rev N)) in Hb. rewrite rev_involutive in Hb.
    now rewrite Hb, rev_app_distr, rev_involutive.
  - intros [pre ->]. exists (rev pre). now rewrite rev_app_distr.
Qed.

Lemma codeExtensions_shape :
  forallb (fun ext =>
             match ext with
             | d :: c :: e =>
                 (d =? 46)%N && forallb not_dot (c :: e)
                 && negb (Evolution.inherited (c :: e))
             | _ => false
             end) codeExtensions = true.
Proof. vm_compute. reflexivity. Qed.

Lemma code_file_shape (item : TreeItem) :
  isCodeFile item = true ->
  type item = lit "blob"
  /\ exists pre ext,
       In ext codeExtensions /\ path item = pre ++ ext
       /\ fileExtension (path item) = tl ext
       /\ In (fileExtension (path item)) extension_names
       /\ Evolution.inherited (fileExtension (path item)) = false.
Proof.
  unfold isCodeFile. rewrite andb_true_iff, existsb_exists.
  rewrite StoreFacts.jsstring_eqb_eq.
  intros [Hty (ext & Hin & Hends)]. split; [exact Hty|].
  apply endsWith_spec in Hends. destruct Hends as [pre Hpre].
  exists pre, ext. split; [exact Hin|]. split; [exact Hpre|].
  pose proof codeExtensions_shape as Hs. rewrite forallb_forall in Hs.
  specialize (Hs ext Hin).
  destruct ext as [|d [|c e]]; try discriminate.
  apply andb_true_iff in Hs. destruct Hs as [Hs Hinh].
  apply andb_true_iff in Hs. destruct Hs as [Hd Hnd].
  apply N.eqb_eq in Hd. subst d.
  assert (Hext : fileExtension (path item) = c :: e).
  { rewrite Hpre. apply fileExtension_of_suffix; [discriminate | exact Hnd]. }
  rewrite Hext. split; [reflexivity|]. split.
  - unfold extension_names. apply in_map_iff.
    exists (46%N :: c :: e). split; [reflexivity | exact Hin].
  - now apply negb_true_iff.
Qed.

(** X18: a tree entry is taken as a code file exactly when it is a blob
    whose path ends with one of the fifteen extensions; for such a path
    the extension counted in [fileTypes] is that extension without its
    full stop, so never [unknown] and never a name of [Object.prototype]. *)
Theorem code_file_extension (item : TreeItem) :
  isCodeFile item = true <->
  type item = lit "blob"
  /\ exists pre ext,
       In ext codeExtensions /\ path item = pre ++ ext
       /\ fileExtension (path item) = tl ext
       /\ In (fileExtension (path item)) extension_names
       /\ Evolution.inherited (fileExtension (path item)) = false.
Proof.
  split; [apply code_file_shape|].
  intros [Hty (pre & ext & Hin & Hpre & _)].
  unfold isCodeFile. rewrite andb_true_iff, existsb_exists.
  rewrite StoreFacts.jsstring_eqb_eq. split; [exact Hty|].
  exists ext. split; [exact Hin|]. apply endsWith_spec. now exists pre.
Qed.


(** *** The extension counts *)

Lemma own_set_tally_same (k : jsstring) (v : tally) (o : fileTypes_t) :
  own_tally k (set_tally k v o) = Some v.
Proof.
  induction o as [|[k' v'] o IH]; simpl.
  - now rewrite StoreFacts.jsstring_eqb_refl.
  - destruct (jsstring_eqb k' k) eqn:E; simpl; rewrite E; [reflexivity | exact IH].
Qed.

Lemma own_set_tally_other (k k' : jsstring) (v : tally) (o : fileTypes_t) :
  k <> k' -> own_tally k' (set_tally k v o) = own_tally k' o.
Proof.
  intro Hne. induction o as [|[k0 v0] o IH]; simpl.
  - destruct (jsstring_eqb k k') eqn:E; [|reflexivity].
    apply StoreFacts.jsstring_eqb_eq in E. congruence.
  - destruct (jsstring_eqb k0 k) eqn:E; simpl.
    + apply StoreFacts.jsstring_eqb_eq in E. subst k0.
      destruct (jsstring_eqb k k') eqn:E'; [|reflexivity].
      apply StoreFacts.jsstring_eqb_eq in E'. congruence.
    + now rewrite IH.
Qed.

Lemma count_extension_spec (e : jsstring) (o : fileTypes_t) :
  Evolution.inherited e = false -> counts_only o ->
  counts_only (count_extension e o)
  /\ forall e', tally_of (count_extension e o) e'
                = tally_of o e' + (if jsstring_eqb e e' then 1 else 0).
Proof.
  intros He Ho. unfold count_extension.
  assert (Hset : forall n, 0 < n -> tally_of o e + 1 = n ->
            counts_only (set_tally e (Count n) o)
            /\ forall e', tally_of (set_tally e (Count n) o) e'
                          = tally_of o e' + (if jsstring_eqb e e' then 1 else 0)).
  { intros n Hn Hsum. split.
    - intros k v. destruct (jsstring_eq_dec e k) as [<- | Hne].
      + rewrite own_set_tally_same. intros [= <-]. now exists n.
      + rewrite (own_set_tally_other _ _ _ _ Hne). apply Ho.
    - intro e'. unfold tally_of at 1.
      destruct (jsstring_eq_dec e e') as [<- | Hne].
      + rewrite own_set_tally_same, StoreFacts.jsstring_eqb_refl. lia.
      + rewrite (own_set_tally_other _ _ _ _ Hne).
        destruct (jsstring_eqb e e') eqn:E;
          [apply StoreFacts.jsstring_eqb_eq in E; congruence|].
        unfold tally_of. lia. }
  destruct (own_tally e o) as [[n|]|] eqn:E.
  - destruct (Ho e _ E) as (n' & [= <-] & Hpos).
    destruct (Z.eqb_spec n 0); [lia|].
    apply Hset; [lia|]. unfold tally_of. now rewrite E.
  - destruct (Ho e _ E) as (n' & Hn' & _). discriminate.
  - rewrite He. apply Hset; [lia|]. unfold tally_of. now rewrite E.
Qed.

Lemma counted_spec (fas : list FileAnalysis) :
  forall o : fileTypes_t,
    Forall (fun fa => Evolution.inherited (fileExtension (file_path fa)) = false)
      fas ->
    counts_only o ->
    counts_only (counted fas o)
    /\ forall e, tally_of (counted fas o) e = tally_of o e + with_extension e fas.
Proof.
  unfold counted, with_extension.
  induction fas as [|fa fas IH]; intros o Hall Ho.
  - split; [exact Ho|]. intro e. simpl. lia.
  - inversion Hall as [|? ? Hfa Hrest]; subst.
    destruct (count_extension_spec _ o Hfa Ho) as [Ho1 Ht1].
    destruct (IH _ Hrest Ho1) as [Ho2 Ht2].
    split; [exact Ho2|]. intro e. cbn [fold_left filter].
    rewrite Ht2, Ht1.
    destruct (jsstring_eqb (fileExtension (file_path fa)) e);
      cbn [List.length]; lia.
Qed.

(** *** The set of issues *)

Lemma unique_from_In (a : list jsstring) :
  forall (seen : list jsstring) (x : jsstring),
    In x (unique_from seen a) <-> In x a /\ ~ In x seen.
Proof.
  induction a as [|y a IH]; intros seen x; simpl; [tauto|].
  destruct (existsb (jsstring_eqb y) seen) eqn:E.
  - apply (mem_In y seen) in E. rewrite IH. split.
    + intros [H1 H2]. auto.
    + intros [[-> | H1] H2]; [contradiction | auto].
  - apply (mem_false y seen) in E. simpl. rewrite IH. simpl. split.
    + intros [-> | [H1 H2]]; [auto|]. split; [auto | tauto].
    + intros [[-> | H1] H2]; [auto|].
      destruct (jsstring_eq_dec y x) as [-> | Hne]; [auto|].
      right. split; [exact H1|]. intros [? | ?]; auto.
Qed.

Lemma unique_from_NoDup (a : list jsstring) :
  forall seen : list jsstring, NoDup (unique_from seen a).
Proof.
  induction a as [|y a IH]; intro seen; simpl; [constructor|].
  destruct (existsb (jsstring_eqb y) seen); [apply IH|].
  constructor; [| apply IH].
  rewrite unique_from_In. simpl. tauto.
Qed.

Lemma all_issues_In (fas : list FileAnalysis) (x : jsstring) :
  In x (all_issues fas) <->
  exists fa, In fa fas /\ In x (issues (security (analysis fa))).
Proof. unfold all_issues. apply in_flat_map. Qed.

Lemma analyzed_In (fetch : jsstring -> option jsstring)
    (files : list TreeItem) (fa : FileAnalysis) :
  In fa (analyzed fetch files) <->
  exists file code,
    In file files /\ fetch (path file) = Some code
    /\ fa = {| file_path := path file; file_size := size file;
               analysis := analyzeCodeComplexity code |}.
Proof.
  induction files as [|f files IH]; simpl.
  - split; [tauto | intros (? & ? & [] & _)].
  - destruct (fetch (path f)) as [code|] eqn:E; simpl; rewrite IH; split.
    + intros [<- | (file & c & Hin & Hf & ->)].
      * exists f, code. auto.
      * exists file, c. auto.
    + intros (file & c & [-> | Hin] & Hf & ->).
      * left. congruence.
      * right. exists file, c. auto.
    + intros (file & c & Hin & Hf & ->). exists file, c. auto.
    + intros (file & c & [-> | Hin] & Hf & ->); [congruence|].
      exists file, c. auto.
Qed.


(** *** The summary *)

Lemma summarize_unfold (fetch : jsstring -> option jsstring)
    (tree : list TreeItem) :
  summarize fetch tree
  = if (List.length (codeFiles tree) =? 0)%nat then None
    else
        let fas := analyzed fetch (codeFiles tree) in
        let am :=
          average (List.map (fun fa => maintainabilityIndex (metrics (analysis fa))) fas) in
        let ap :=
          average (List.map (fun fa => performanceScore (metrics (analysis fa))) fas) in
        Some
          {| overview_totalFiles := Z.of_nat (List.length (codeFiles tree));
             overview_totalLines := total Analyzer.totalLines fas;
             overview_totalFunctions := total functionCount fas;
             averageMaintainability := am;
             averagePerformance := ap;
             overview_securityIssues := Set_spread (all_issues fas);
             overview_fileTypes := counted fas [];
             files := fas;
             recommendations :=
               generateRepositoryRecommendations am ap
                 (Z.of_nat (List.length (Set_spread (all_issues fas))))
                 (Z.of_nat (List.length (codeFiles tree))) |}.
Proof.
  unfold summarize. cbv zeta. rewrite analyze_files_spec. reflexivity.
Qed.

Lemma average_range (scores : list Z) :
  Forall (fun x => 0 <= x <= 100) scores -> 0 <= average scores <= 100.
Proof.
  intro H. destruct scores as [|x l].
  - cbn. lia.
  - apply average_between; [discriminate | exact H].
Qed.

(** X19: [summarize] answers 400 exactly when the tree has no code file.
    Otherwise it counts as [totalFiles] the code files found, at most 50,
    whether or not their text could be fetched; the analyses, the totals
    of lines and functions and the averages cover only the files that
    could be fetched, in tree order; and both averages are between 0 and
    100. *)
Theorem summarize_totals (fetch : jsstring -> option jsstring)
    (tree : list TreeItem) :
  (summarize fetch tree = None <-> filter isCodeFile tree = [])
  /\ forall sm, summarize fetch tree = Some sm ->
       let found := codeFiles tree in
       let fas := analyzed fetch found in
       files sm = fas
       /\ overview_totalFiles sm = Z.of_nat (List.length found)
       /\ 1 <= overview_totalFiles sm <= 50
       /\ Z.of_nat (List.length (files sm)) <= overview_totalFiles sm
       /\ overview_totalLines sm = total Analyzer.totalLines fas
       /\ overview_totalFunctions sm = total functionCount fas
       /\ averageMaintainability sm
          = average (List.map (fun fa => maintainabilityIndex (metrics (analysis fa))) fas)
       /\ averagePerformance sm
          = average (List.map (fun fa => performanceScore (metrics (analysis fa))) fas)
       /\ 0 <= averageMaintainability sm <= 100
       /\ 0 <= averagePerformance sm <= 100.
Proof.
  rewrite summarize_unfold. split.
  - rewrite <- codeFiles_nil.
    destruct (codeFiles tree); simpl; split; congruence.
  - intros sm Hsm. cbv zeta.
    pose proof (codeFiles_length tree) as Hlen.
    pose proof (analyzed_length fetch (codeFiles tree)) as Hfas.
    destruct (scores_in_range _ fetch (codeFiles tree) eq_refl) as [Hm Hp].
    apply average_range in Hm, Hp.
    destruct (Nat.eqb_spec (List.length (codeFiles tree)) 0) as [|Hpos];
      [discriminate|].
    cbv zeta in Hsm. injection Hsm as <-.
    cbn [files overview_totalFiles overview_totalLines overview_totalFunctions
         averageMaintainability averagePerformance].
    repeat split; try reflexivity; try lia.
Qed.


Lemma firstn_In_list {A : Type} (n : nat) (l : list A) (x : A) :
  In x (firstn n l) -> In x l.
Proof.
  revert l. induction n as [|n IH]; intros [|y l]; simpl; try tauto.
  intros [-> | H]; [now left | right; now apply IH].
Qed.

Lemma summarize_Some (fetch : jsstring -> option jsstring)
    (tree : list TreeItem) (sm : Summary) :
  summarize fetch tree = Some sm ->
  let fas := analyzed fetch (codeFiles tree) in
  overview_securityIssues sm = Set_spread (all_issues fas)
  /\ overview_fileTypes sm = counted fas []
  /\ files sm = fas
  /\ overview_totalFiles sm = Z.of_nat (List.length (codeFiles tree))
  /\ overview_totalLines sm = total Analyzer.totalLines fas
  /\ overview_totalFunctions sm = total functionCount fas
  /\ recommendations sm
     = generateRepositoryRecommendations (averageMaintainability sm)
         (averagePerformance sm)
         (Z.of_nat (List.length (overview_securityIssues sm)))
         (overview_totalFiles sm)
  /\ averageMaintainability sm
     = average (List.map (fun fa => maintainabilityIndex (metrics (analysis fa))) fas)
  /\ averagePerformance sm
     = average (List.map (fun fa => performanceScore (metrics (analysis fa))) fas).
Proof.
  rewrite summarize_unfold.
  destruct (List.length (codeFiles tree) =? 0)%nat; [discriminate|].
  cbv zeta. intros [= <-]. repeat split; reflexivity.
Qed.

Lemma issue_messages (s : jsstring) (msg : jsstring) :
  In msg (issues (security (analyzeCodeComplexity s))) ->
  In msg (List.map snd catalog).
Proof.
  intro H. apply issues_members in H. destruct H as (sink & Hin & _).
  apply in_map_iff. now exists (sink, msg).
Qed.

(** X20: the security issues of the summary are the issues found in the
    fetched files, each listed once: an issue is listed exactly when the
    analysis of some fetched file reports it, the list has no repetition
    and at most the three texts of the catalog, and the security advice is
    given exactly when the list is not empty. *)
Theorem summarize_security (fetch : jsstring -> option jsstring)
    (tree : list TreeItem) (sm : Summary) :
  summarize fetch tree = Some sm ->
  NoDup (overview_securityIssues sm)
  /\ (forall msg,
        In msg (overview_securityIssues sm) <->
        exists fa, In fa (files sm)
                   /\ In msg (issues (security (analysis fa))))
  /\ incl (overview_securityIssues sm) (List.map snd catalog)
  /\ (List.length (overview_securityIssues sm) <= 3)%nat
  /\ (In repo_security_advice (recommendations sm)
      <-> overview_securityIssues sm <> []).
Proof.
  intro Hsm.
  destruct (summarize_Some fetch tree sm Hsm)
    as (Hiss & _ & Hfiles & _ & _ & _ & Hrec & _).
  cbv zeta in *.
  assert (Hnd : NoDup (overview_securityIssues sm))
    by (rewrite Hiss; apply unique_from_NoDup).
  assert (Hin : forall msg,
             In msg (overview_securityIssues sm) <->
             exists fa, In fa (files sm)
                        /\ In msg (issues (security (analysis fa)))).
  { intro msg. rewrite Hiss, Hfiles. unfold Set_spread.
    rewrite unique_from_In, all_issues_In. simpl. tauto. }
  assert (Hincl : incl (overview_securityIssues sm) (List.map snd catalog)).
  { intros msg H. apply Hin in H. destruct H as (fa & Hfa & Hmsg).
    rewrite Hfiles in Hfa. apply analyzed_In in Hfa.
    destruct Hfa as (file & code & _ & _ & ->). cbn [analysis] in Hmsg.
    now apply issue_messages in Hmsg. }
  split; [exact Hnd|]. split; [exact Hin|]. split; [exact Hincl|]. split.
  - apply (NoDup_incl_length Hnd Hincl).
  - rewrite Hrec.
    match goal with |- context [generateRepositoryRecommendations ?a ?b ?c ?d] =>
      destruct (generateRepositoryRecommendations_mem a b c d)
        as (_ & _ & H3 & _)
    end.
    cbv zeta in H3. apply In_of_mem in H3. rewrite H3, Z.ltb_lt.
    destruct (overview_securityIssues sm); simpl; split;
      intro; try congruence; try lia.
Qed.

Lemma summarize_security_witness :
  exists sm,
    summarize fetch_eval one_script = Some sm
    /\ NoDup (overview_securityIssues sm).
Proof.
  destruct (summarize fetch_eval one_script) as [sm|] eqn:E;
    [| vm_compute in E; discriminate].
  exists sm. split; [reflexivity|].
  apply (summarize_security fetch_eval one_script sm E).
Defined.

(** X21: the extension counts of the summary hold, for every extension,
    the number of fetched files with that extension, as a positive number;
    an extension without fetched file has no entry, and every entry is for
    one of the fifteen extensions. *)
Theorem summarize_fileTypes (fetch : jsstring -> option jsstring)
    (tree : list TreeItem) (sm : Summary) :
  summarize fetch tree = Some sm ->
  (forall e, tally_of (overview_fileTypes sm) e = with_extension e (files sm))
  /\ (forall e v,
        own_tally e (overview_fileTypes sm) = Some v ->
        In e extension_names
        /\ exists n, v = Count n /\ 0 < n /\ n = with_extension e (files sm)).
Proof.
  intro Hsm.
  destruct (summarize_Some fetch tree sm Hsm) as (_ & Hft & Hfiles & _).
  cbv zeta in *.
  assert (Hext : Forall (fun fa =>
                   In (fileExtension (file_path fa)) extension_names
                   /\ Evolution.inherited (fileExtension (file_path fa)) = false)
                   (files sm)).
  { rewrite Hfiles. apply Forall_forall. intros fa Hfa.
    apply analyzed_In in Hfa. destruct Hfa as (file & code & Hin & _ & ->).
    cbn [file_path]. unfold codeFiles in Hin. apply firstn_In_list in Hin.
    apply filter_In in Hin. destruct Hin as [_ Hcode].
    apply code_file_shape in Hcode.
    destruct Hcode as (_ & pre & ext & _ & _ & _ & H1 & H2). auto. }
  destruct (counted_spec (files sm) []) as [Hco Hta].
  { eapply Forall_impl; [| exact Hext]. intros fa [_ H]. exact H. }
  { intros k v H. discriminate. }
  rewrite Hft, <- Hfiles. split.
  - intro e. rewrite Hta. unfold tally_of. simpl. lia.
  - intros e v Hv. destruct (Hco e v Hv) as (n & -> & Hn).
    assert (Hte : tally_of (counted (files sm) []) e = n)
      by (unfold tally_of; now rewrite Hv).
    rewrite Hta in Hte. unfold tally_of in Hte. simpl in Hte.
    split; [| exists n; repeat split; lia].
    unfold with_extension in Hte.
    destruct (filter _ (files sm)) as [|fa l] eqn:Ef; [simpl in Hte; lia|].
    assert (Hfa : In fa (filter
                    (fun fa => jsstring_eqb (fileExtension (file_path fa)) e)
                    (files sm))) by (rewrite Ef; now left).
    apply filter_In in Hfa. destruct Hfa as [Hfa He].
    apply StoreFacts.jsstring_eqb_eq in He. subst e.
    rewrite Forall_forall in Hext. now apply Hext.
Qed.

Lemma summarize_fileTypes_witness :
  exists sm,
    summarize fetch_eval one_script = Some sm
    /\ tally_of (overview_fileTypes sm) (lit "js") = 1.
Proof.
  destruct (summarize fetch_eval one_script) as [sm|] eqn:E;
    [| vm_compute in E; discriminate].
  exists sm. split; [reflexivity|].
  destruct (summarize_fileTypes fetch_eval one_script sm E) as [H _].
  rewrite H. vm_compute in E. injection E as <-. reflexivity.
Defined.

Lemma analyzed_none (files : list TreeItem) :
  analyzed (fun _ => None) files = [].
Proof. induction files as [|c cs IH]; [reflexivity | exact IH]. Qed.

(** X22: when no file of the tree can be fetched, the summary still
    answers: it reports the code files found as [totalFiles], no analysis,
    totals and averages of 0 and no issue, and it advises on low
    maintainability and low performance, an average of 0 being below both
    thresholds; the praise is not given. *)
Theorem summarize_nothing_fetched (tree : list TreeItem) (sm : Summary) :
  summarize (fun _ => None) tree = Some sm ->
  files sm = []
  /\ overview_totalFiles sm = Z.of_nat (List.length (codeFiles tree))
  /\ overview_totalLines sm = 0 /\ overview_totalFunctions sm = 0
  /\ averageMaintainability sm = 0 /\ averagePerformance sm = 0
  /\ overview_securityIssues sm = [] /\ overview_fileTypes sm = []
  /\ In repo_maintainability_advice (recommendations sm)
  /\ In repo_performance_advice (recommendations sm)
  /\ ~ In repo_praise (recommendations sm).
Proof.
  intros Hsm.
  destruct (summarize_Some _ tree sm Hsm)
    as (Hiss & Hft & Hfiles & Htf & Htl & Hfn & Hrec & Ham & Hap).
  cbv zeta in *.
  rewrite analyzed_none in *. cbn in Hiss, Hft, Htl, Hfn, Ham, Hap.
  repeat (split; [assumption|]).
  rewrite Hrec, Ham, Hap.
  match goal with |- context [generateRepositoryRecommendations ?a ?b ?c ?d] =>
    destruct (generateRepositoryRecommendations_mem a b c d)
      as (H1 & H2 & _ & _ & H5 & _)
  end.
  cbv zeta in H1, H2, H5. cbn [Z.ltb Z.compare orb negb] in H1, H2, H5.
  split; [now apply mem_In|]. split; [now apply mem_In|].
  now apply mem_false.
Qed.

Lemma summarize_nothing_fetched_witness :
  exists sm,
    summarize (fun _ => None) one_script = Some sm
    /\ averageMaintainability sm = 0
    /\ In repo_maintainability_advice (recommendations sm).
Proof.
  destruct (summarize (fun _ => None) one_script) as [sm|] eqn:E;
    [| vm_compute in E; discriminate].
  exists sm. split; [reflexivity|].
  destruct (summarize_nothing_fetched one_script sm E) as
    (_ & _ & _ & _ & H1 & _ & _ & _ & H2 & _).
  split; assumption.
Defined.

End RepositoryFacts.

(* ================================================================== *)
(** ** Properties of the large-file cut                                *)
(* ================================================================== *)

Module ReviewFacts.
Import JS Review MetricsFacts.

Lemma join_split_lines (s : jsstring) : join_lines (split_lines s) = s.
Proof.
  induction s as [|c s IH]; [reflexivity|].
  cbn [split_lines]. destruct (N.eqb_spec c 10) as [-> | Hc].
  - pose proof (AnalyzerFacts.split_lines_nonempty s) as Hne.
    destruct (split_lines s) as [|l ls]; [congruence|].
    cbn [join_lines app] in *. now rewrite IH.
  - pose proof (AnalyzerFacts.split_lines_nonempty s) as Hne.
    destruct (split_lines s) as [|l ls]; [congruence|].
    destruct ls as [|l' ls]; cbn [join_lines app] in *; now rewrite <- IH.
Qed.

Lemma prefix_of_refl (s : jsstring) : prefix_of s s.
Proof. exists []. now rewrite app_nil_r. Qed.

Lemma prefix_of_trans (a b c : jsstring) :
  prefix_of a b -> prefix_of b c -> prefix_of a c.
Proof.
  intros [x ->] [y ->]. exists (x ++ y). now rewrite app_assoc.
Qed.

Lemma prefix_of_firstn (n : nat) (s : jsstring) : prefix_of (firstn n s) s.
Proof. exists (skipn n s). now rewrite firstn_skipn. Qed.

Lemma prefix_of_length (a b : jsstring) :
  prefix_of a b -> (List.length a <= List.length b)%nat.
Proof. intros [x ->]. rewrite length_app. lia. Qed.

Lemma join_firstn_prefix (ls : list jsstring) :
  forall n, prefix_of (join_lines (firstn n ls)) (join_lines ls).
Proof.
  induction ls as [|l ls IH]; intro n.
  - rewrite firstn_nil. apply prefix_of_refl.
  - destruct n as [|n]; [now exists (join_lines (l :: ls))|].
    cbn [firstn]. specialize (IH n).
    destruct ls as [|l' ls].
    + rewrite firstn_nil. apply prefix_of_refl.
    + destruct n as [|n].
      * cbn [firstn join_lines]. now exists (10%N :: join_lines (l' :: ls)).
      * cbn [firstn] in *. destruct IH as [x Hx].
        change (join_lines (l :: l' :: firstn n ls))
          with (l ++ 10%N :: join_lines (l' :: firstn n ls)).
        change (join_lines (l :: l' :: ls))
          with (l ++ 10%N :: join_lines (l' :: ls)).
        exists x. rewrite Hx. now rewrite <- app_assoc.
Qed.

Lemma line_feeds_app (a b : jsstring) :
  line_feeds (a ++ b) = (line_feeds a + line_feeds b)%nat.
Proof. unfold line_feeds. now rewrite filter_app, length_app. Qed.

Lemma split_lines_no_feed (s : jsstring) :
  Forall (fun l => line_feeds l = 0%nat) (split_lines s).
Proof.
  induction s as [|c s IH]; cbn [split_lines].
  - repeat constructor.
  - destruct (N.eqb_spec c 10) as [-> | Hc].
    + constructor; [reflexivity | exact IH].
    + destruct (split_lines s) as [|l ls]; [repeat constructor|].
      * unfold line_feeds. simpl. apply N.eqb_neq in Hc. now rewrite Hc.
      * inversion IH; subst. constructor; [| assumption].
        unfold line_feeds in *. simpl. apply N.eqb_neq in Hc. now rewrite Hc.
Qed.

Lemma Forall_firstn_list {A : Type} (P : A -> Prop) (n : nat) (l : list A) :
  Forall P l -> Forall P (firstn n l).
Proof.
  intro H. revert n. induction H as [|x l Hx Hl IH]; intros [|n]; simpl;
    constructor; auto.
Qed.

Lemma line_feeds_join (ls : list jsstring) :
  Forall (fun l => line_feeds l = 0%nat) ls -> ls <> [] ->
  S (line_feeds (join_lines ls)) = List.length ls.
Proof.
  induction 1 as [|l ls Hl Hls IH]; [congruence|]. intros _.
  destruct ls as [|l' ls].
  - cbn [join_lines List.length]. now rewrite Hl.
  - change (join_lines (l :: l' :: ls))
      with (l ++ 10%N :: join_lines (l' :: ls)).
    rewrite line_feeds_app, Hl.
    change (line_feeds (10%N :: join_lines (l' :: ls)))
      with (S (line_feeds (join_lines (l' :: ls)))).
    rewrite IH by discriminate. reflexivity.
Qed.

(** X23: splitting a text at line feeds and joining the pieces with line
    feeds gives the text back. *)
Theorem split_join_round_trip (s : jsstring) :
  join_lines (split_lines s) = s
  /\ List.length (split_lines s) = S (line_feeds s)
  /\ Forall (fun l => line_feeds l = 0%nat) (split_lines s).
Proof.
  split; [apply join_split_lines|].
  split; [apply split_lines_length | apply split_lines_no_feed].
Qed.

Lemma split_lines_cons (s : jsstring) :
  exists l ls, split_lines s = l :: ls.
Proof.
  pose proof (AnalyzerFacts.split_lines_nonempty s).
  destruct (split_lines s) as [|l ls]; [congruence | now exists l, ls].
Qed.

Lemma first_lines_prefix (n : nat) (code : jsstring) :
  prefix_of (join_lines (firstn n (split_lines code))) code.
Proof.
  rewrite <- (join_split_lines code) at 2. apply join_firstn_prefix.
Qed.

Lemma first_lines_count (n : nat) (code : jsstring) :
  (0 < n)%nat ->
  S (line_feeds (join_lines (firstn n (split_lines code))))
  = List.length (firstn n (split_lines code)).
Proof.
  intro Hn. apply line_feeds_join.
  - apply Forall_firstn_list, split_lines_no_feed.
  - destruct (split_lines_cons code) as (l & ls & ->).
    destruct n; [lia | discriminate].
Qed.

Lemma first_lines_shorter (n : nat) (code : jsstring) :
  (0 < n < List.length (split_lines code))%nat ->
  (List.length (join_lines (firstn n (split_lines code)))
   < List.length code)%nat.
Proof.
  intros [Hn Hlt].
  destruct (first_lines_prefix n code) as [x Hx].
  assert (Hx' : x <> []).
  { intro E. subst x. rewrite app_nil_r in Hx.
    pose proof (first_lines_count n code Hn) as Hc.
    rewrite <- Hx, <- split_lines_length in Hc.
    pose proof (firstn_le_length n (split_lines code)).
    rewrite <- Hc in H. rewrite firstn_length_le in Hc by lia. lia. }
  rewrite Hx at 2. rewrite length_app. destruct x; [congruence | simpl; lia].
Qed.

Lemma prefix_line_count (p s : jsstring) :
  prefix_of p s ->
  (List.length (split_lines p) <= List.length (split_lines s))%nat.
Proof.
  intros [x ->]. rewrite !split_lines_length, line_feeds_app. lia.
Qed.

(** X24: the text sent for review is always a beginning of the fetched
    text, of at most 300 lines; a text of at most 300 lines and 20000 code
    units is sent whole, with an empty warning; any other text is sent
    cut, strictly shorter and of at most 20000 code units, with the
    warning. *)
Theorem cut_for_ai_spec (code : jsstring) :
  let warning := fst (cut_for_ai code) in
  let codeForAI := snd (cut_for_ai code) in
  let small := Z.of_nat (List.length (split_lines code)) <= 300
               /\ Z.of_nat (List.length code) <= 20000 in
  prefix_of codeForAI code
  /\ Z.of_nat (List.length (split_lines codeForAI)) <= 300
  /\ Z.of_nat (List.length codeForAI) <= 20000
  /\ (small -> warning = [] /\ codeForAI = code)
  /\ (~ small ->
      warning = large_file_warning
      /\ (List.length codeForAI < List.length code)%nat).
Proof.
  cbv zeta. unfold cut_for_ai. cbv zeta.
  set (cut := join_lines (slice0 300 (split_lines code))).
  assert (Hpre : prefix_of cut code) by apply first_lines_prefix.
  assert (Hpre2 : prefix_of (slice0 20000 cut) code)
    by (eapply prefix_of_trans; [apply prefix_of_firstn | exact Hpre]).
  assert (Hlen : Z.of_nat (List.length (slice0 20000 cut)) <= 20000).
  { pose proof (firstn_le_length (Z.to_nat 20000) cut) as H.
    unfold slice0. lia. }
  assert (Hlines : Z.of_nat (List.length (split_lines (slice0 20000 cut))) <= 300).
  { pose proof (prefix_line_count _ _ (prefix_of_firstn (Z.to_nat 20000) cut)) as H1.
    unfold slice0 in *. rewrite (split_lines_length cut) in H1.
    unfold cut in *. rewrite first_lines_count in H1 by lia.
    pose proof (firstn_le_length (Z.to_nat 300) (split_lines code)). lia. }
  destruct (Z.ltb_spec 300 (Z.of_nat (List.length (split_lines code))))
    as [Hl | Hl];
  destruct (Z.ltb_spec 20000 (Z.of_nat (List.length code))) as [Hc | Hc];
    cbn [orb fst snd].
  4: { split; [apply prefix_of_refl|]. split; [lia|]. split; [lia|].
       split; [auto|]. intro H. exfalso. apply H. lia. }
  all: split; [exact Hpre2|]; split; [exact Hlines|]; split; [exact Hlen|];
    split; [intros [? ?]; lia|]; intros _; split; [reflexivity|].
  1, 3: pose proof (prefix_of_length _ _ Hpre2); lia.
  pose proof (first_lines_shorter (Z.to_nat 300) code ltac:(lia)) as Hs.
  pose proof (prefix_of_length _ _ (prefix_of_firstn (Z.to_nat 20000) cut)).
  unfold cut, slice0 in *. lia.
Qed.

Lemma cut_for_ai_spec_witness :
  fst (cut_for_ai (lit "let x = 1;")) = []
  /\ snd (cut_for_ai (lit "let x = 1;")) = lit "let x = 1;".
Proof.
  apply (cut_for_ai_spec (lit "let x = 1;")). vm_compute.
  split; intro E; discriminate E.
Defined.

End ReviewFacts.

(* ================================================================== *)
(** ** Properties of the address patterns                              *)
(* ================================================================== *)

Module UrlFacts.
Import JS Url.

Lemma cre_match_seq (r1 r2 : cre) (k : ccont) (s : jsstring) (caps : captures) :
  cre_match (r1 ;; r2) k s caps = cre_match r1 (cre_match r2 k) s caps.
Proof. reflexivity. Qed.

(** *** Matching a text of the expected shape *)

Lemma match_literal (l : jsstring) (k : ccont) (rest : jsstring) (caps : captures) :
  cre_match (CStr_of l) k (l ++ rest) caps = k rest caps.
Proof.
  induction l as [|c l IH]; [reflexivity|].
  cbn [CStr_of cre_match app]. now rewrite N.eqb_refl, IH.
Qed.

Lemma cstar_greedy (p : N -> bool) (k : ccont) (l rest : jsstring)
    (caps x : captures) :
  forallb p l = true -> stops p rest ->
  k rest caps = Some x -> cstar p k (l ++ rest) caps = Some x.
Proof.
  intros Hl Hrest Hk. induction l as [|c l IH].
  - destruct rest as [|c r]; simpl in *; [exact Hk|]. now rewrite Hrest.
  - simpl in Hl. apply andb_true_iff in Hl. destruct Hl as [Hc Hl].
    cbn [app cstar]. now rewrite Hc, (IH Hl).
Qed.

Lemma firstn_prefix_length (l rest : jsstring) :
  firstn (List.length (l ++ rest) - List.length rest) (l ++ rest) = l.
Proof.
  rewrite length_app.
  replace (List.length l + List.length rest - List.length rest)%nat
    with (List.length l + 0)%nat by lia.
  rewrite firstn_app_2. simpl. apply app_nil_r.
Qed.

Lemma match_group_plus (i : nat) (p : N -> bool) (k : ccont)
    (l rest : jsstring) (caps x : captures) :
  l <> [] -> forallb p l = true -> stops p rest ->
  k rest ((i, l) :: caps) = Some x ->
  cre_match (CGroup i (CPlus p)) k (l ++ rest) caps = Some x.
Proof.
  intros Hne Hl Hrest Hk. destruct l as [|c l]; [congruence|].
  simpl in Hl. apply andb_true_iff in Hl. destruct Hl as [Hc Hl].
  cbn [cre_match CPlus app]. rewrite Hc.
  apply cstar_greedy; [exact Hl | exact Hrest|].
  change (c :: l ++ rest) with ((c :: l) ++ rest).
  now rewrite firstn_prefix_length.
Qed.

(** *** What a match implies *)

Lemma match_literal_inv (l : jsstring) (k : ccont) (s : jsstring)
    (caps x : captures) :
  cre_match (CStr_of l) k s caps = Some x ->
  exists rest, s = l ++ rest /\ k rest caps = Some x.
Proof.
  revert s. induction l as [|c l IH]; intro s; cbn [CStr_of cre_match].
  - intro H. now exists s.
  - destruct s as [|d s]; [discriminate|].
    destruct (N.eqb_spec c d) as [<- | Hne]; [|discriminate].
    intro H. destruct (IH s H) as (rest & -> & Hk). now exists rest.
Qed.

Lemma cstar_inv (p : N -> bool) (k : ccont) (s : jsstring) (caps x : captures) :
  cstar p k s caps = Some x ->
  exists l rest, s = l ++ rest /\ forallb p l = true /\ k rest caps = Some x.
Proof.
  induction s as [|c s IH]; cbn [cstar].
  - intro H. now exists [], [].
  - destruct (p c) eqn:Hc.
    + destruct (cstar p k s caps) as [r|] eqn:E.
      * intros [= <-]. destruct (IH eq_refl) as (l & rest & -> & Hl & Hk).
        exists (c :: l), rest. simpl. now rewrite Hc, Hl.
      * intro H. now exists [], (c :: s).
    + intro H. now exists [], (c :: s).
Qed.

Lemma match_group_plus_inv (i : nat) (p : N -> bool) (k : ccont)
    (s : jsstring) (caps x : captures) :
  cre_match (CGroup i (CPlus p)) k s caps = Some x ->
  exists l rest,
    s = l ++ rest /\ l <> [] /\ forallb p l = true
    /\ k rest ((i, l) :: caps) = Some x.
Proof.
  cbn [cre_match CPlus]. destruct s as [|c s]; [discriminate|].
  destruct (p c) eqn:Hc; [|discriminate]. intro H.
  apply cstar_inv in H. destruct H as (l & rest & -> & Hl & Hk).
  exists (c :: l), rest. split; [reflexivity|]. split; [discriminate|].
  split; [simpl; now rewrite Hc, Hl|].
  change (c :: l ++ rest) with ((c :: l) ++ rest) in Hk.
  now rewrite firstn_prefix_length in Hk.
Qed.

Lemma match_chr (c : N) (k : ccont) (rest : jsstring) (caps : captures) :
  cre_match (CChr c) k (c :: rest) caps = k rest caps.
Proof. cbn [cre_match]. now rewrite N.eqb_refl. Qed.

Lemma match_chr_inv (c : N) (k : ccont) (s : jsstring) (caps x : captures) :
  cre_match (CChr c) k s caps = Some x ->
  exists rest, s = c :: rest /\ k rest caps = Some x.
Proof.
  cbn [cre_match]. destruct s as [|d s]; [discriminate|].
  destruct (N.eqb_spec c d) as [<- | Hne]; [|discriminate].
  intro H. now exists s.
Qed.

Lemma match_end_inv (k : ccont) (s : jsstring) (caps x : captures) :
  cre_match CEnd k s caps = Some x -> s = [] /\ k [] caps = Some x.
Proof. cbn [cre_match]. destruct s; [auto | discriminate]. Qed.

(** *** The address of a file *)

Lemma fileUrl_match (url : jsstring) (caps : captures) :
  match_start fileUrlPattern url = Some caps <->
  exists owner repo branch path,
    owner <> [] /\ forallb not_slash owner = true
    /\ repo <> [] /\ forallb not_slash repo = true
    /\ branch <> [] /\ forallb not_slash branch = true
    /\ path <> [] /\ forallb any_char path = true
    /\ url = lit "https://github.com/" ++ owner ++ lit "/" ++ repo
             ++ lit "/blob/" ++ branch ++ lit "/" ++ path
    /\ caps = [(4%nat, path); (3%nat, branch); (2%nat, repo); (1%nat, owner)].
Proof.
  unfold match_start, fileUrlPattern. do 8 rewrite cre_match_seq.
  unfold CStr. split.
  - intro H.
    apply match_literal_inv in H. destruct H as (r0 & -> & H).
    apply match_group_plus_inv in H.
    destruct H as (owner & r1 & -> & Ho1 & Ho2 & H).
    apply match_chr_inv in H. destruct H as (r1' & -> & H).
    apply match_group_plus_inv in H.
    destruct H as (repo & r2 & -> & Hr1 & Hr2 & H).
    apply match_literal_inv in H. destruct H as (r3 & -> & H).
    apply match_group_plus_inv in H.
    destruct H as (branch & r4 & -> & Hb1 & Hb2 & H).
    apply match_chr_inv in H. destruct H as (r4' & -> & H).
    apply match_group_plus_inv in H.
    destruct H as (path & r5 & -> & Hp1 & Hp2 & H).
    apply match_end_inv in H. destruct H as [-> H].
    injection H as <-.
    exists owner, repo, branch, path. rewrite app_nil_r.
    repeat split; assumption || reflexivity.
  - intros (owner & repo & branch & path & Ho1 & Ho2 & Hr1 & Hr2 & Hb1 & Hb2
            & Hp1 & Hp2 & -> & ->).
    rewrite match_literal.
    apply match_group_plus; [assumption | assumption | reflexivity |].
    change (lit "/" ++ repo ++ lit "/blob/" ++ branch ++ lit "/" ++ path)
      with (47%N :: repo ++ lit "/blob/" ++ branch ++ lit "/" ++ path).
    rewrite match_chr.
    apply match_group_plus; [assumption | assumption | reflexivity |].
    rewrite match_literal.
    apply match_group_plus; [assumption | assumption | reflexivity |].
    change (lit "/" ++ path) with (47%N :: path).
    rewrite match_chr.
    rewrite <- (app_nil_r path) at 1.
    apply match_group_plus; [assumption | assumption | exact I |].
    reflexivity.
Qed.

(** X25: a file address is accepted exactly when it reads
    [https://github.com/], an owner, [/], a repository, [/blob/], a branch,
    [/] and a path, where owner, repository and branch are not empty and
    have no slash and the path is not empty and has no line terminator;
    the raw address is then [https://raw.githubusercontent.com/] followed
    by owner, repository, branch and path, separated by slashes. *)
Theorem rawUrl_spec (url raw : jsstring) :
  rawUrl url = Some raw <->
  exists owner repo branch path,
    name_ok owner /\ name_ok repo /\ name_ok branch
    /\ path <> [] /\ forallb any_char path = true
    /\ url = lit "https://github.com/" ++ owner ++ lit "/" ++ repo
             ++ lit "/blob/" ++ branch ++ lit "/" ++ path
    /\ raw = lit "https://raw.githubusercontent.com/" ++ owner ++ lit "/"
             ++ repo ++ lit "/" ++ branch ++ lit "/" ++ path.
Proof.
  unfold rawUrl, name_ok. split.
  - destruct (match_start fileUrlPattern url) as [caps|] eqn:E; [|discriminate].
    apply fileUrl_match in E.
    destruct E as (owner & repo & branch & path & Ho1 & Ho2 & Hr1 & Hr2
                   & Hb1 & Hb2 & Hp1 & Hp2 & -> & ->).
    cbv zeta. cbn [capture Nat.eqb text_of]. intros [= <-].
    exists owner, repo, branch, path. repeat split; assumption.
  - intros (owner & repo & branch & path & [Ho1 Ho2] & [Hr1 Hr2] & [Hb1 Hb2]
            & Hp1 & Hp2 & -> & ->).
    assert (E : match_start fileUrlPattern
                  (lit "https://github.com/" ++ owner ++ lit "/" ++ repo
                   ++ lit "/blob/" ++ branch ++ lit "/" ++ path)
                = Some [(4%nat, path); (3%nat, branch); (2%nat, repo);
                        (1%nat, owner)]).
    { apply fileUrl_match. exists owner, repo, branch, path.
      repeat split; assumption. }
    rewrite E. reflexivity.
Qed.

Lemma rawUrl_spec_witness :
  rawUrl (lit "https://github.com/octo/app/blob/main/src/index.ts")
  = Some (lit "https://raw.githubusercontent.com/octo/app/main/src/index.ts").
Proof.
  apply rawUrl_spec.
  exists (lit "octo"), (lit "app"), (lit "main"), (lit "src/index.ts").
  unfold name_ok. repeat split; try discriminate; reflexivity.
Defined.


(** *** The address of a repository *)

Lemma clazy_first (p : N -> bool) (k : ccont) (l rest : jsstring)
    (caps x : captures) :
  forallb p l = true ->
  (forall l1 l2, l = l1 ++ l2 -> l2 <> [] -> k (l2 ++ rest) caps = None) ->
  k rest caps = Some x ->
  clazy p k (l ++ rest) caps = Some x.
Proof.
  intros Hl Hfail Hk. induction l as [|c l IH].
  - destruct rest; cbn [app clazy]; now rewrite Hk.
  - simpl in Hl. apply andb_true_iff in Hl. destruct Hl as [Hc Hl].
    cbn [app clazy].
    change (c :: l ++ rest) with ((c :: l) ++ rest).
    rewrite (Hfail [] (c :: l) eq_refl ltac:(discriminate)).
    cbn [app]. rewrite Hc. apply (IH Hl).
    intros l1 l2 -> Hne. apply (Hfail (c :: l1) l2); [reflexivity | exact Hne].
Qed.

Lemma firstn_middle (l1 l2 rest : jsstring) :
  firstn (List.length ((l1 ++ l2) ++ rest) - List.length (l2 ++ rest))
    ((l1 ++ l2) ++ rest) = l1.
Proof.
  rewrite <- app_assoc. apply firstn_prefix_length.
Qed.

Lemma match_group_lazy (i : nat) (p : N -> bool) (k : ccont)
    (l rest : jsstring) (caps x : captures) :
  l <> [] -> forallb p l = true ->
  (forall l1 l2, l = l1 ++ l2 -> l1 <> [] -> l2 <> [] ->
                 k (l2 ++ rest) ((i, l1) :: caps) = None) ->
  k rest ((i, l) :: caps) = Some x ->
  cre_match (CGroup i (CLazyPlus p)) k (l ++ rest) caps = Some x.
Proof.
  intros Hne Hl Hfail Hk. destruct l as [|c l]; [congruence|].
  simpl in Hl. apply andb_true_iff in Hl. destruct Hl as [Hc Hl].
  cbn [cre_match CLazyPlus app]. rewrite Hc.
  apply clazy_first; [exact Hl | |].
  - intros l1 l2 -> Hl2.
    change (c :: (l1 ++ l2) ++ rest) with (((c :: l1) ++ l2) ++ rest).
    rewrite firstn_middle.
    apply (Hfail (c :: l1) l2); [reflexivity | discriminate | exact Hl2].
  - change (c :: l ++ rest) with ((c :: l) ++ rest).
    now rewrite firstn_prefix_length.
Qed.

Lemma clazy_inv (p : N -> bool) (k : ccont) (s : jsstring) (caps x : captures) :
  clazy p k s caps = Some x ->
  exists l rest, s = l ++ rest /\ forallb p l = true /\ k rest caps = Some x.
Proof.
  induction s as [|c s IH]; cbn [clazy].
  - destruct (k [] caps) eqn:E; [|discriminate]. intros [= <-].
    now exists [], [].
  - destruct (k (c :: s) caps) eqn:E.
    + intros [= <-]. now exists [], (c :: s).
    + destruct (p c) eqn:Hc; [|discriminate]. intro H.
      destruct (IH H) as (l & rest & -> & Hl & Hk).
      exists (c :: l), rest. simpl. now rewrite Hc, Hl.
Qed.

Lemma match_group_lazy_inv (i : nat) (p : N -> bool) (k : ccont)
    (s : jsstring) (caps x : captures) :
  cre_match (CGroup i (CLazyPlus p)) k s caps = Some x ->
  exists l rest,
    s = l ++ rest /\ l <> [] /\ forallb p l = true
    /\ k rest ((i, l) :: caps) = Some x.
Proof.
  cbn [cre_match CLazyPlus]. destruct s as [|c s]; [discriminate|].
  destruct (p c) eqn:Hc; [|discriminate]. intro H.
  apply clazy_inv in H. destruct H as (l & rest & -> & Hl & Hk).
  exists (c :: l), rest. split; [reflexivity|]. split; [discriminate|].
  split; [simpl; now rewrite Hc, Hl|].
  change (c :: l ++ rest) with ((c :: l) ++ rest) in Hk.
  now rewrite firstn_prefix_length in Hk.
Qed.

Lemma match_opt (r : cre) (k : ccont) (s : jsstring) (caps : captures) :
  cre_match (COpt r) k s caps
  = match cre_match r k s caps with
    | Some x => Some x
    | None => k s caps
    end.
Proof. reflexivity. Qed.

Lemma match_opt_inv (r : cre) (k : ccont) (s : jsstring) (caps x : captures) :
  cre_match (COpt r) k s caps = Some x ->
  cre_match r k s caps = Some x \/ k s caps = Some x.
Proof.
  cbn [cre_match]. destruct (cre_match r k s caps); [intros [= <-]|]; auto.
Qed.

Lemma tree_part_inv (s : jsstring) (caps x : captures) :
  tree_part s caps = Some x ->
  (s = [] /\ x = caps)
  \/ exists b, name_ok b /\ s = tree_tail (Some b) /\ x = (3%nat, b) :: caps.
Proof.
  unfold tree_part. intro H. apply match_opt_inv in H. destruct H as [H | H].
  - right. rewrite cre_match_seq in H. unfold CStr in H.
    apply match_literal_inv in H. destruct H as (r & -> & H).
    apply match_group_plus_inv in H. destruct H as (b & r' & -> & Hb1 & Hb2 & H).
    apply match_end_inv in H. destruct H as [-> H]. injection H as <-.
    exists b. rewrite app_nil_r. unfold name_ok. auto.
  - left. apply match_end_inv in H. destruct H as [-> H].
    injection H as <-. auto.
Qed.

Lemma tree_part_match (b : option jsstring) (caps : captures) :
  (forall b', b = Some b' -> name_ok b') ->
  tree_part (tree_tail b) caps
  = Some match b with
         | Some b' => (3%nat, b') :: caps
         | None => caps
         end.
Proof.
  intro Hb. unfold tree_part. destruct b as [b'|]; [| reflexivity].
  destruct (Hb b' eq_refl) as [Hb1 Hb2].
  cbn [tree_tail]. rewrite match_opt, cre_match_seq. unfold CStr.
  rewrite match_literal. rewrite <- (app_nil_r b') at 1.
  rewrite (match_group_plus 3 not_slash _ b' [] caps ((3%nat, b') :: caps));
    auto; exact I.
Qed.

Lemma repo_tail_inv (s : jsstring) (caps x : captures) :
  repo_tail s caps = Some x ->
  exists g b,
    (forall b', b = Some b' -> name_ok b')
    /\ s = git_tail g ++ tree_tail b
    /\ x = match b with
           | Some b' => (3%nat, b') :: caps
           | None => caps
           end.
Proof.
  unfold repo_tail. intro H. apply match_opt_inv in H. destruct H as [H | H].
  - unfold CStr in H. apply match_literal_inv in H.
    destruct H as (r & -> & H). apply tree_part_inv in H.
    destruct H as [[-> ->] | (b & Hb & -> & ->)].
    + exists true, None. split; [discriminate | auto].
    + exists true, (Some b). split; [now intros ? [= <-] | auto].
  - apply tree_part_inv in H.
    destruct H as [[-> ->] | (b & Hb & -> & ->)].
    + exists false, None. split; [discriminate | auto].
    + exists false, (Some b). split; [now intros ? [= <-] | auto].
Qed.

Lemma repo_tail_match (g : bool) (b : option jsstring) (caps : captures) :
  (forall b', b = Some b' -> name_ok b') ->
  repo_tail (git_tail g ++ tree_tail b) caps
  = Some match b with
         | Some b' => (3%nat, b') :: caps
         | None => caps
         end.
Proof.
  intro Hb. unfold repo_tail. rewrite match_opt. fold tree_part.
  destruct g; cbn [git_tail].
  - unfold CStr. rewrite match_literal.
    now rewrite (tree_part_match b caps Hb).
  - cbn [app]. rewrite (tree_part_match b caps Hb).
    destruct b as [b'|]; reflexivity.
Qed.

Lemma segment_app (l rest : jsstring) :
  forallb not_slash l = true -> segment (l ++ rest) = l ++ segment rest.
Proof.
  induction l as [|c l IH]; [reflexivity|]. simpl. intro H.
  apply andb_true_iff in H. destruct H as [Hc Hl]. now rewrite Hc, IH.
Qed.

Lemma segment_tails (g : bool) (b : option jsstring) :
  segment (git_tail g ++ tree_tail b) = git_tail g.
Proof. destruct g, b; reflexivity. Qed.


Lemma repoUrl_unfold (url : jsstring) :
  match_start repoUrlPattern url
  = cre_match (CStr "https://github.com/")
      (cre_match (CGroup 1 (CPlus not_slash))
         (cre_match (CChr 47)
            (cre_match (CGroup 2 (CLazyPlus not_slash)) repo_tail)))
      url [].
Proof. reflexivity. Qed.

Lemma repo_tail_fails (name l1 l2 : jsstring) (g : bool) (b : option jsstring)
    (caps : captures) :
  forallb not_slash name = true ->
  name = l1 ++ l2 -> l1 <> [] -> l2 <> [] ->
  (g = false -> forall pre, pre <> [] -> name <> pre ++ lit ".git") ->
  repo_tail (l2 ++ git_tail g ++ tree_tail b) caps = None.
Proof.
  intros Hname -> Hl1 Hl2 Hgit.
  destruct (repo_tail (l2 ++ git_tail g ++ tree_tail b) caps) as [x|] eqn:E;
    [| reflexivity].
  exfalso. apply repo_tail_inv in E. destruct E as (g' & b' & _ & E & _).
  apply (f_equal segment) in E.
  rewrite forallb_app in Hname. apply andb_true_iff in Hname.
  destruct Hname as [_ Hl2s].
  rewrite (segment_app l2 _ Hl2s), !segment_tails in E.
  destruct g'; cbn [git_tail] in E.
  - destruct g; cbn [git_tail] in E.
    + apply (f_equal (@List.length N)) in E. rewrite length_app in E.
      destruct l2; [congruence | simpl in E; lia].
    + rewrite app_nil_r in E. subst l2. now apply (Hgit eq_refl l1).
  - destruct l2; [congruence | discriminate].
Qed.

(** X26: an address that reads [https://github.com/], an owner, [/], a
    repository name, then optionally [.git] and optionally [/tree/] and a
    branch, all three names without slash and not empty, is accepted and
    split into that owner, that name and that branch, [main] when no branch
    is named.  An ending [.git] is taken off the name; an address without
    it must not have a name that ends in [.git] after something else. *)
Theorem repository_of_accepts (owner name : jsstring) (g : bool)
    (b : option jsstring) :
  name_ok owner -> name_ok name ->
  (forall b', b = Some b' -> name_ok b') ->
  (g = false -> forall pre, pre <> [] -> name <> pre ++ lit ".git") ->
  repository_of (lit "https://github.com/" ++ owner ++ lit "/" ++ name
                 ++ git_tail g ++ tree_tail b)
  = Some (owner, name, branch_or_main b).
Proof.
  intros [Ho1 Ho2] [Hn1 Hn2] Hb Hgit.
  unfold repository_of. rewrite repoUrl_unfold. unfold CStr.
  rewrite match_literal.
  assert (E : cre_match (CGroup 1 (CPlus not_slash))
                (cre_match (CChr 47)
                   (cre_match (CGroup 2 (CLazyPlus not_slash)) repo_tail))
                (owner ++ lit "/" ++ name ++ git_tail g ++ tree_tail b) []
              = Some match b with
                     | Some b' => [(3%nat, b'); (2%nat, name); (1%nat, owner)]
                     | None => [(2%nat, name); (1%nat, owner)]
                     end).
  { apply match_group_plus; [assumption | assumption | reflexivity |].
    change (lit "/" ++ name ++ git_tail g ++ tree_tail b)
      with (47%N :: name ++ git_tail g ++ tree_tail b).
    rewrite match_chr.
    apply match_group_lazy; [assumption | assumption | |].
    - intros l1 l2 E Hl1 Hl2.
      now apply (repo_tail_fails name l1 l2 g b).
    - rewrite (repo_tail_match g b _ Hb). now destruct b. }
  rewrite E. now destruct b.
Qed.

Lemma repository_of_accepts_witness :
  repository_of (lit "https://github.com/octo/app.git/tree/dev")
  = Some (lit "octo", lit "app", lit "dev").
Proof.
  apply (repository_of_accepts (lit "octo") (lit "app") true
           (Some (lit "dev"))).
  - split; [discriminate | reflexivity].
  - split; [discriminate | reflexivity].
  - intros b' [= <-]. split; [discriminate | reflexivity].
  - discriminate.
Defined.

(** X27: whatever the repository pattern accepts has that shape: the
    address is [https://github.com/], the owner, [/], the name, optionally
    [.git], optionally [/tree/] and the branch, with nothing before or
    after; owner, name and a named branch are not empty and hold no slash;
    the branch is the named one, and [main] when the address names none. *)
Theorem repository_of_shape (url owner name branch : jsstring) :
  repository_of url = Some (owner, name, branch) ->
  exists g b,
    name_ok owner /\ name_ok name
    /\ (forall b', b = Some b' -> name_ok b')
    /\ url = lit "https://github.com/" ++ owner ++ lit "/" ++ name
             ++ git_tail g ++ tree_tail b
    /\ branch = branch_or_main b.
Proof.
  unfold repository_of. rewrite repoUrl_unfold.
  destruct (cre_match _ _ url []) as [caps|] eqn:E; [|discriminate].
  unfold CStr in E. apply match_literal_inv in E.
  destruct E as (r0 & -> & E).
  apply match_group_plus_inv in E. destruct E as (o & r1 & -> & Ho1 & Ho2 & E).
  apply match_chr_inv in E. destruct E as (r2 & -> & E).
  apply match_group_lazy_inv in E.
  destruct E as (n & r3 & -> & Hn1 & Hn2 & E).
  apply repo_tail_inv in E. destruct E as (g & b & Hb & -> & ->).
  intro H. exists g, b.
  assert (Hcap : owner = o /\ name = n /\ branch = branch_or_main b).
  { destruct b as [b'|]; cbn in H; injection H as <- <- <-;
      repeat split; reflexivity. }
  destruct Hcap as (-> & -> & ->).
  split; [split; assumption|]. split; [split; assumption|].
  split; [exact Hb|]. split; reflexivity.
Qed.

Lemma repository_of_shape_witness :
  exists g b,
    name_ok (lit "octo") /\ name_ok (lit "app")
    /\ (forall b', b = Some b' -> name_ok b')
    /\ lit "https://github.com/octo/app"
       = lit "https://github.com/" ++ lit "octo" ++ lit "/" ++ lit "app"
         ++ git_tail g ++ tree_tail b
    /\ lit "main" = branch_or_main b.
Proof.
  apply (repository_of_shape (lit "https://github.com/octo/app")).
  reflexivity.
Defined.

End UrlFacts.
